(** * super_intelligent_scanner: the path-discovery and probing core

    A shallow embedding of the functions of
    - [core/request_manager.py]   (retry decision, [smart_request] and the
                                   helpers built on it),
    - [core/evasion_engine.py]    (blocking detection, stealth requests),
    - [core/scanner_engine.py]    (candidate paths, suspicious-path filter,
                                   per-path probe, the scan loop and the
                                   counts of the final report),
    - [discovery/quantum_fuzzer.py] (quantum path variations, smart fuzzing),
    - [utils/config_loader.py]    (merging, validation, reading and updating
                                   of the configuration),
    followed by the properties proved about them.

    Conventions of the embedding.
    - A Python [str] is a Rocq [string]; text is ASCII, on which Python's
      [lower], [upper] and [title] are the ASCII case mappings written below.
    - A Python [int] is a [Z].
    - A Python [set] of strings is a [gset string]; [list(s)] and iteration
      over a set are [elements s].
    - A Python [dict] with string keys is a [gmap string _] when it is flat
      and an insertion-ordered association list when it is nested.
    - Exceptions are a sum type; [try]/[except] is a [match] on it.
    - Console output ([print]) is not part of the state, except for the
      validation issues that [load_config] prints. *)

From Stdlib Require Import ZArith String Ascii List Bool Lia QArith DecimalString.
From stdpp Require Import base list strings gmap.

Local Open Scope string_scope.
Local Open Scope Z_scope.

(* ================================================================== *)
(** * Part I.  Definitions                                             *)
(* ================================================================== *)

(** ** Python built-ins used by the sources *)

Module Py.

Definition is_upper (c : ascii) : bool := (("A" <=? c) && (c <=? "Z"))%char.
Definition is_lower (c : ascii) : bool := (("a" <=? c) && (c <=? "z"))%char.
Definition is_alpha (c : ascii) : bool := is_upper c || is_lower c.
Definition is_digit (c : ascii) : bool := (("0" <=? c) && (c <=? "9"))%char.

Definition lower_char (c : ascii) : ascii :=
  if is_upper c then ascii_of_N (N_of_ascii c + 32) else c.
Definition upper_char (c : ascii) : ascii :=
  if is_lower c then ascii_of_N (N_of_ascii c - 32) else c.

Fixpoint str_map (f : ascii -> ascii) (s : string) : string :=
  match s with
  | EmptyString => EmptyString
  | String c s' => String (f c) (str_map f s')
  end.

(** [s.lower()], [s.upper()] *)
Definition lower : string -> string := str_map lower_char.
Definition upper : string -> string := str_map upper_char.

(** [s.startswith(p)] *)
Fixpoint startswith (s p : string) : bool :=
  match p, s with
  | EmptyString, _ => true
  | String c p', String d s' => Ascii.eqb c d && startswith s' p'
  | String _ _, EmptyString => false
  end.

(** [pat in s] for strings *)
Fixpoint contains (pat s : string) : bool :=
  startswith s pat ||
  match s with
  | EmptyString => false
  | String _ s' => contains pat s'
  end.

(** [x in l] for a list of integers *)
Definition in_ints (x : Z) (l : list Z) : bool := existsb (Z.eqb x) l.

(** [any(p in s for p in pats)] *)
Definition any_in (pats : list string) (s : string) : bool :=
  existsb (fun p => contains p s) pats.

(** [str(n)] for an integer *)
Definition str_of_int (z : Z) : string :=
  NilZero.string_of_int (Z.to_int z).

(** [len(s)] *)
Definition len (s : string) : Z := Z.of_nat (String.length s).

(** [sep.join(parts)] *)
Definition join (sep : string) (parts : list string) : string :=
  String.concat sep parts.

(** The pieces of [s] between the characters that satisfy [is_sep]:
    [s.split(c)] for one character, [re.split] for a character class. *)
Fixpoint split_on (is_sep : ascii -> bool) (s : string) : list string :=
  match s with
  | EmptyString => [EmptyString]
  | String c s' =>
    if is_sep c then EmptyString :: split_on is_sep s'
    else match split_on is_sep s' with
         | piece :: pieces => String c piece :: pieces
         | [] => [String c EmptyString]
         end
  end.

(** [s.split(c)] *)
Definition split (s : string) (c : ascii) : list string :=
  split_on (Ascii.eqb c) s.

Fixpoint lstrip (c : ascii) (s : string) : string :=
  match s with
  | String d s' => if Ascii.eqb c d then lstrip c s' else s
  | EmptyString => EmptyString
  end.

Fixpoint rstrip (c : ascii) (s : string) : string :=
  match s with
  | EmptyString => EmptyString
  | String d s' =>
    match rstrip c s' with
    | EmptyString => if Ascii.eqb c d then EmptyString else String d EmptyString
    | rest => String d rest
    end
  end.

(** [s.strip(c)] for one character *)
Definition strip (s : string) (c : ascii) : string := rstrip c (lstrip c s).

(** [parts.insert(i, x)] on a copy of the list, for [0 <= i] *)
Definition list_insert_at {A} (i : nat) (x : A) (l : list A) : list A :=
  take i l ++ x :: drop i l.

(** [l[:n]] *)
Definition slice_to {A} (l : list A) (n : Z) : list A :=
  if 0 <=? n then take (Z.to_nat n) l
  else take (length l - Z.to_nat (- n)) l.

(** [s.title()]: a letter is put in upper case when it follows a
    character that is not a letter, in lower case otherwise. *)
Fixpoint title_from (after_letter : bool) (s : string) : string :=
  match s with
  | EmptyString => EmptyString
  | String c s' =>
    String (if after_letter then lower_char c else upper_char c)
           (title_from (is_alpha c) s')
  end.
Definition title (s : string) : string := title_from false s.

(** [s.isdigit()] *)
Fixpoint all_digits (s : string) : bool :=
  match s with
  | EmptyString => true
  | String c s' => is_digit c && all_digits s'
  end.
Definition isdigit (s : string) : bool :=
  match s with EmptyString => false | _ => all_digits s end.

(** The characters of [s] that satisfy [keep] *)
Fixpoint str_filter (keep : ascii -> bool) (s : string) : string :=
  match s with
  | EmptyString => EmptyString
  | String c s' =>
    if keep c then String c (str_filter keep s') else str_filter keep s'
  end.

(** [''.join(f(c) for c in s)] *)
Fixpoint str_concat_map (f : ascii -> string) (s : string) : string :=
  match s with
  | EmptyString => EmptyString
  | String c s' => f c +:+ str_concat_map f s'
  end.

Definition hex_digit (uppercase : bool) (n : N) : ascii :=
  default "0"%char
    (String.get (N.to_nat n)
       (if uppercase then "0123456789ABCDEF" else "0123456789abcdef")).

(** Two hexadecimal digits of a byte. *)
Definition hex_byte (uppercase : bool) (c : ascii) : string :=
  let n := N_of_ascii c in
  String (hex_digit uppercase (n / 16))
         (String (hex_digit uppercase (n mod 16)) EmptyString).

(** [urllib.parse.quote(s)], with its default [safe='/'] *)
Definition is_unreserved (c : ascii) : bool :=
  is_alpha c || is_digit c ||
  existsb (Ascii.eqb c) ["_"; "."; "-"; "~"]%char.
Definition quote_char (c : ascii) : string :=
  if is_unreserved c || Ascii.eqb c "/" then String c EmptyString
  else String "%" (hex_byte true c).
Definition quote (s : string) : string := str_concat_map quote_char s.

(** [s.encode().hex()] *)
Definition hex (s : string) : string := str_concat_map (hex_byte false) s.

(** [base64.b64encode(s.encode()).decode()] *)
Definition b64_char (n : N) : ascii :=
  default "="%char
    (String.get (N.to_nat n)
       "ABCDEFGHIJKLMNOPQRSTUVWXYZabcdefghijklmnopqrstuvwxyz0123456789+/").
Fixpoint b64encode (s : string) : string :=
  match s with
  | EmptyString => EmptyString
  | String a EmptyString =>
    let x := N_of_ascii a in
    String (b64_char (x / 4))
      (String (b64_char (x mod 4 * 16)) "==")
  | String a (String b EmptyString) =>
    let x := N_of_ascii a in
    let y := N_of_ascii b in
    String (b64_char (x / 4))
      (String (b64_char (x mod 4 * 16 + y / 16))
         (String (b64_char (y mod 16 * 4)) "="))
  | String a (String b (String c rest)) =>
    let x := N_of_ascii a in
    let y := N_of_ascii b in
    let z := N_of_ascii c in
    String (b64_char (x / 4))
      (String (b64_char (x mod 4 * 16 + y / 16))
         (String (b64_char (y mod 16 * 4 + z / 64))
            (String (b64_char (z mod 64)) (b64encode rest))))
  end.

(** [f'%u{ord(c):04x}'] *)
Definition percent_u (c : ascii) : string :=
  "%u00" +:+ hex_byte false c.

(** [f'&#{ord(c)};'] *)
Definition html_entity_char (c : ascii) : string :=
  "&#" +:+ str_of_int (Z.of_N (N_of_ascii c)) +:+ ";".

(** [s.isascii()]: every character is below 128. *)
Definition is_ascii_char (c : ascii) : bool := (N_of_ascii c <? 128)%N.
Fixpoint isascii (s : string) : bool :=
  match s with
  | EmptyString => true
  | String c s' => is_ascii_char c && isascii s'
  end.

(** [s.replace(old, new)] for a non-empty [old]: the occurrences of
    [old] are replaced from left to right, without overlap.  [skip] counts
    the characters of an occurrence that are still to be passed over. *)
Fixpoint replace_from (old new : string) (skip : nat) (s : string) : string :=
  match s with
  | EmptyString => EmptyString
  | String c s' =>
    match skip with
    | S skip' => replace_from old new skip' s'
    | O =>
      if startswith s old
      then new +:+ replace_from old new (String.length old - 1) s'
      else String c (replace_from old new 0 s')
    end
  end.
Definition replace (s old new : string) : string := replace_from old new 0 s.

(** Exceptions, by the classes that the handlers of the scanner tell
    apart.  [Interrupt] stands for the exceptions outside [Exception]
    (KeyboardInterrupt, SystemExit), which no [except Exception] clause
    catches. *)
Inductive exn :=
| Timeout              (* requests.Timeout *)
| ConnectionError      (* requests.ConnectionError *)
| RequestException     (* another requests.RequestException *)
| OtherException       (* another subclass of Exception *)
| Interrupt.

Definition is_Exception (e : exn) : bool :=
  match e with Interrupt => false | _ => true end.

(** A call either returns a value or raises. *)
Inductive result (A : Type) :=
| Returned (a : A)
| Raised (e : exn).
Arguments Returned {A} a.
Arguments Raised {A} e.

(** The [random] module: a source of draws that is threaded through
    the code that uses it. *)
Class Random (rng : Type) := {
  (** [random.randint(a, b)] *)
  randint : Z -> Z -> rng -> Z * rng;
  (** [random.random() > 0.5] *)
  random_above_half : rng -> bool * rng
}.

End Py.

(** ** core/request_manager.py *)

Module RequestManager.
Import Py.

(** The attributes of [requests.Response] that the scanner reads. *)
Record Response := mkResponse {
  status_code : Z;
  text : string;                      (* decoded body *)
  content : string;                   (* raw body, one character per byte *)
  content_type_header : option string (* headers.get('content-type') *)
}.

Definition waf_indicators : list string :=
  ["cloudflare"; "waf"; "challenge"; "captcha"; "security"].

(** [RequestManager._should_retry] *)
Definition _should_retry (response : option Response) (attempt : Z)
  : bool * Z :=
  match response with
  | None => (true, (attempt + 1) * 2)
  | Some r =>
    let status := status_code r in
    if Py.in_ints status [429; 420] then (true, (attempt + 1) * 5)
    else if 500 <=? status then (true, (attempt + 1) * 3)
    else if Py.in_ints status [403; 406]
            && Py.any_in waf_indicators (Py.lower (text r))
    then (true, (attempt + 1) * 4)
    else (false, 0)
  end.

(** What [session.request] does on one call. *)
Definition outcome := result Response.

(** What a call of [smart_request] does to the outside: the requests it
    sends and the pauses it makes.  [EvSmartDelay b] is the pause of
    [_smart_delay(b)], which lasts [b] seconds plus a random jitter. *)
Inductive event :=
| EvRequest (attempt : Z)
| EvSleep (seconds : Z)
| EvSmartDelay (base_delay : Z).

Record RequestManager := mkRequestManager {
  max_retries : Z;
  timeout : Z;
  enable_evasion : bool
}.

(** [RequestManager()] with the defaults of [__init__]. *)
Definition default_manager : RequestManager := mkRequestManager 3 15 true.

(** [RequestManager._smart_delay] *)
Definition _smart_delay (self : RequestManager) (base_delay : Z)
  : list event :=
  if enable_evasion self then [EvSmartDelay base_delay] else [].

(** The delay made by an [except] clause before the next attempt. *)
Definition handler_delay (self : RequestManager) (attempt : Z)
    (base_delay : Z) : list event :=
  if attempt <? max_retries self - 1 then _smart_delay self base_delay
  else [].

(** The body of [for attempt in range(self.max_retries)], from [attempt]
    on with [remaining] iterations left; [net k] is what the [k]-th call
    of [session.request] does.  The loop is left by [return response], by
    an exception that no clause catches, or by exhaustion, after which
    [smart_request] returns [None]. *)
Fixpoint attempt_loop (self : RequestManager) (net : nat -> outcome)
    (remaining : nat) (attempt : Z) : result (option Response) * list event :=
  match remaining with
  | O => (Returned None, [])
  | S remaining' =>
    let continue (evs : list event) :=
      let '(res, rest) := attempt_loop self net remaining' (attempt + 1) in
      (res, EvRequest attempt :: evs ++ rest) in
    match net (Z.to_nat attempt) with
    | Returned response =>
      let '(should_retry, wait_time) :=
        _should_retry (Some response) attempt in
      if should_retry && (attempt <? max_retries self - 1)
      then continue [EvSleep wait_time]
      else (Returned (Some response), [EvRequest attempt])
    | Raised Timeout => continue (handler_delay self attempt 1)
    | Raised ConnectionError => continue (handler_delay self attempt 3)
    | Raised RequestException => continue (handler_delay self attempt 2)
    | Raised OtherException => continue (handler_delay self attempt 2)
    | Raised Interrupt => (Raised Interrupt, [EvRequest attempt])
    end
  end.

(** [RequestManager.smart_request]: [net method url k] is what the
    [k]-th call [session.request(method=method.upper(), url=url, ...)]
    does.  The headers only change what is sent; building them is taken
    not to raise. *)
Definition smart_request (self : RequestManager)
    (net : string -> string -> nat -> outcome)
    (url : string) (method : string)
  : result (option Response) * list event :=
  attempt_loop self (net (Py.upper method) url)
               (Z.to_nat (max_retries self)) 0.

(** The number of requests sent. *)
Fixpoint attempts_made (evs : list event) : nat :=
  match evs with
  | [] => O
  | EvRequest _ :: evs' => S (attempts_made evs')
  | _ :: evs' => attempts_made evs'
  end.

(** The truth value of a [requests.Response], which is its [ok]: false
    exactly for the statuses from 400 to 599, on which
    [raise_for_status] raises. *)
Definition response_ok (r : Response) : bool :=
  negb ((400 <=? status_code r) && (status_code r <? 600)).

(** [RequestManager.check_url_exists] *)
Definition check_url_exists (self : RequestManager)
    (net : string -> string -> nat -> outcome) (url : string)
  : result (bool * Z) :=
  match fst (smart_request self net url "HEAD") with
  | Returned (Some response) =>
    if response_ok response
    then Returned (status_code response =? 200, status_code response)
    else Returned (false, 0)
  | Returned None => Returned (false, 0)
  | Raised e => if is_Exception e then Returned (false, 0) else Raised e
  end.

(** [RequestManager.get_content_type] *)
Definition get_content_type (self : RequestManager)
    (net : string -> string -> nat -> outcome) (url : string)
  : result string :=
  match fst (smart_request self net url "HEAD") with
  | Returned (Some response) =>
    if response_ok response
    then Returned (default "" (content_type_header response))
    else Returned ""
  | Returned None => Returned ""
  | Raised e => if is_Exception e then Returned "" else Raised e
  end.

(** The events of a trace that are pauses. *)
Definition is_pause (e : event) : bool :=
  match e with EvRequest _ => false | _ => true end.

(** The attempt numbers of the requests of a trace, in order. *)
Fixpoint request_numbers (evs : list event) : list Z :=
  match evs with
  | [] => []
  | EvRequest a :: evs' => a :: request_numbers evs'
  | _ :: evs' => request_numbers evs'
  end.

(** The bounds of what a trace of [smart_request] holds: attempt numbers
    below [max_retries], back-off pauses of 3 to [5 * (max_retries - 1)]
    seconds, and base delays of 1 to 3 seconds. *)
Definition event_in_bounds (self : RequestManager) (e : event) : Prop :=
  match e with
  | EvRequest n => 0 <= n < max_retries self
  | EvSleep s => 3 <= s <= 5 * (max_retries self - 1)
  | EvSmartDelay b => 1 <= b <= 3
  end.

(** An outcome after which [smart_request] goes on to the next attempt,
    when one is left. *)
Definition retryable (o : outcome) : bool :=
  match o with
  | Returned response => fst (_should_retry (Some response) 0)
  | Raised e => is_Exception e
  end.

(** The retry condition in the words of the specification: the body
    contains an indicator "case-insensitively" when some substring of it
    equals the indicator once lowered. *)
Definition contains_ci (ind body : string) : Prop :=
  exists pre mid post, body = pre +:+ mid +:+ post /\ Py.lower mid = ind.

Definition spec_retry_condition (r : Response) : Prop :=
  let s := status_code r in
  s = 429 \/ s = 420 \/ 500 <= s \/
  ((s = 403 \/ s = 406) /\
   exists ind, ind ∈ waf_indicators /\ contains_ci ind (text r)).

End RequestManager.

(** ** core/evasion_engine.py *)

Module EvasionEngine.
Import Py RequestManager.

(** [s[:n]] for a string *)
Fixpoint str_take (n : nat) (s : string) : string :=
  match n, s with
  | S n', String c s' => String c (str_take n' s')
  | _, _ => EmptyString
  end.

(** [EvasionEngine.is_blocked]; [headers] is [str(response.headers)]. *)
Definition is_blocked (response : option Response) (headers : string)
  : bool :=
  match response with
  | None => false
  | Some r =>
    if negb (response_ok r) then false
    else if in_ints (status_code r) [200; 201; 301; 302; 404] then false
    else if negb (in_ints (status_code r) [403; 429; 503; 406]) then false
    else
      let response_text := str_take 1000 (lower (text r)) in
      let response_headers := lower headers in
      let blocking_indicators := [
        (status_code r =? 403)
        && any_in ["cloudflare"; "captcha"; "challenge"; "waf"] response_text;
        (status_code r =? 429)
        && any_in ["rate limit"; "too many requests"] response_text;
        any_in ["cloudflare"; "akamai"; "imperva"; "aws"] response_headers;
        (status_code r =? 403) && contains "access denied" response_text;
        contains "your ip has been blocked" response_text;
        contains "security policy" response_text;
        contains "bot detected" response_text;
        contains "suspicious activity" response_text
      ] in
      existsb id blocking_indicators
  end.

(** [EvasionEngine.stealth_request], after its delay: [sent] is what the
    one call of [session.request] does, [headers] the text of the headers
    of the response. *)
Definition stealth_request (sent : outcome) (headers : string)
  : result (option Response) :=
  match sent with
  | Returned response =>
    if is_blocked (Some response) headers then Returned None
    else Returned (Some response)
  | Raised e => if is_Exception e then Returned None else Raised e
  end.

(** The loop of [advanced_stealth_request]: [sent k] is what the request
    of the [k]-th call of [stealth_request] does. *)
Fixpoint stealth_loop (sent : nat -> outcome) (headers : nat -> string)
    (remaining : nat) (attempt : nat) : result (option Response) :=
  match remaining with
  | O => Returned None
  | S remaining' =>
    match stealth_request (sent attempt) (headers attempt) with
    | Raised e => Raised e
    | Returned (Some response) =>
      if response_ok response
         && negb (is_blocked (Some response) (headers attempt))
      then Returned (Some response)
      else stealth_loop sent headers remaining' (S attempt)
    | Returned None => stealth_loop sent headers remaining' (S attempt)
    end
  end.

(** [EvasionEngine.advanced_stealth_request] *)
Definition advanced_stealth_request (sent : nat -> outcome)
    (headers : nat -> string) (max_retries : Z) : result (option Response) :=
  stealth_loop sent headers (Z.to_nat max_retries) 0.

End EvasionEngine.

(** ** core/scanner_engine.py *)

Module ScannerEngine.
Import Py RequestManager.

Definition suspicious_patterns : list string := [
  ".."; "..."; "////"; ".bak"; ".old"; ".txt"; ".xml"; ".json";
  ".js.map"; ".css.map"; ".env"; "config.json"; "package.json";
  "composer.json"; "wp-"; "laravel/"; "//"; "...."; ".sql"; ".zip";
  ".tar"; ".gz"; ".log"; ".tmp"; ".temp"; ".swp"; ".swo"
].

(** [ScannerEngine._is_suspicious_path] *)
Definition _is_suspicious_path (path : string) : bool :=
  any_in suspicious_patterns path.

(** [ScannerEngine.get_common_paths] *)
Definition get_common_paths : list string := [
  "/api"; "/api/"; "/api/v1"; "/api/v1/"; "/api/v2"; "/api/v2/";
  "/api/v3"; "/api/v3/"; "/graphql"; "/graphql/"; "/rest"; "/rest/";
  "/json"; "/json/"; "/v1"; "/v1/"; "/v2"; "/v2/"; "/v3"; "/v3/";
  "/auth"; "/auth/"; "/login"; "/login/"; "/register"; "/register/";
  "/signin"; "/signin/"; "/signup"; "/signup/"; "/oauth"; "/oauth/";
  "/token"; "/token/"; "/refresh"; "/refresh/"; "/logout"; "/logout/";
  "/app"; "/app/"; "/dashboard"; "/dashboard/"; "/admin"; "/admin/";
  "/profile"; "/profile/"; "/settings"; "/settings/"; "/account";
  "/account/"; "/user"; "/user/"; "/users"; "/users/"; "/me"; "/me/";
  "/home"; "/home/"; "/static"; "/static/"; "/assets"; "/assets/";
  "/public"; "/public/"; "/media"; "/media/"; "/uploads"; "/uploads/";
  "/files"; "/files/"; "/images"; "/images/"; "/img"; "/img/"; "/css";
  "/css/"; "/js"; "/js/"; "/fonts"; "/fonts/"; "/icons"; "/icons/";
  "/svg"; "/svg/"; "/docs"; "/docs/"; "/documentation";
  "/documentation/"; "/api-docs"; "/api-docs/"; "/swagger"; "/swagger/";
  "/openapi"; "/openapi/"; "/robots.txt"; "/sitemap.xml"; "/favicon.ico";
  "/humans.txt"; "/security.txt"; "/health"; "/health/"; "/status";
  "/status/"; "/ping"; "/ping/"; "/ready"; "/ready/"; "/live"; "/live/";
  "/healthcheck"; "/healthcheck/"; "/_next"; "/_next/"; "/_next/data";
  "/_next/data/"; "/__nuxt"; "/__nuxt/"; "/_nuxt"; "/_nuxt/"; "/_astro";
  "/_astro/"; "/build"; "/build/"; "/dist"; "/dist/"; "/search";
  "/search/"; "/query"; "/query/"; "/data"; "/data/"; "/list"; "/list/";
  "/items"; "/items/"; "/products"; "/products/"; "/catalog";
  "/catalog/"; "/store"; "/store/"; "/shop"; "/shop/"; "/config";
  "/config/"; "/settings"; "/settings/"; "/configuration";
  "/configuration/"; "/options"; "/options/"; "/blog"; "/blog/";
  "/posts"; "/posts/"; "/articles"; "/articles/"; "/news"; "/news/";
  "/updates"; "/updates/"; "/feed"; "/feed/"; "/contact"; "/contact/";
  "/about"; "/about/"; "/support"; "/support/"; "/help"; "/help/";
  "/faq"; "/faq/"; "/terms"; "/terms/"; "/privacy"; "/privacy/"
].

(** The list [variations] built for one base path; [r1] and [r2] are the
    two random integers. *)
Definition variations (path : string) (r1 r2 : Z) : list string := [
  path;
  path +:+ "/";
  path +:+ "?v=1";
  path +:+ "?version=1";
  path +:+ "?format=json";
  path +:+ "?callback=jsonp" +:+ str_of_int r1;
  path +:+ "?_=" +:+ str_of_int r2;
  path +:+ "?cache=true";
  path +:+ "?preview=1";
  path +:+ "?debug=true";
  path +:+ "?api_key=test";
  path +:+ "?token=abc123";
  path +:+ "?auth=true";
  path +:+ "?source=web";
  path +:+ "?platform=desktop";
  path +:+ "?lang=en";
  path +:+ "?locale=en_US"
].

Section Generation.
Context {rng : Type} `{Random rng}.

(** The loop of [generate_natural_variations] over [base_paths], with
    the set [natural_paths] built so far. *)
Fixpoint natural_variations_loop (base_paths : list string)
    (natural_paths : gset string) (g : rng) : gset string * rng :=
  match base_paths with
  | [] => (natural_paths, g)
  | path :: rest =>
    if _is_suspicious_path path
    then natural_variations_loop rest natural_paths g
    else
      let '(r1, g) := randint 1000 9999 g in
      let '(r2, g) := randint 1000000000 9999999999 g in
      natural_variations_loop rest
        (natural_paths ∪ {[path]} ∪ list_to_set (variations path r1 r2)) g
  end.

(** [ScannerEngine.generate_natural_variations] *)
Definition generate_natural_variations (base_paths : list string)
    (g : rng) : list string * rng :=
  let '(natural_paths, g) := natural_variations_loop base_paths ∅ g in
  (elements natural_paths, g).

(** The collaborators and switches that [advanced_discovery_phase]
    reads from [self] and from the module. *)
Record Discovery := mkDiscovery {
  DISCOVERY_AVAILABLE : bool;
  (* [self.intelligent_crawler], called with the target and [max_pages] *)
  intelligent_crawler : option (string -> Z -> result (list string));
  EXTERNAL_AVAILABLE : bool;
  (* [self.config['resources']['auto_download']] *)
  auto_download : bool;
  (* [self.resource_manager.load_common_paths()] *)
  load_common_paths : result (list string)
}.

(** A guarded source of more paths: [try: ... except Exception: ...]
    around a call whose paths are kept when they are not suspicious. *)
Definition add_filtered (all_paths : gset string)
    (found : result (list string)) : result (gset string) :=
  match found with
  | Returned paths =>
    Returned (all_paths ∪
              list_to_set (List.filter (fun p => negb (_is_suspicious_path p)) paths))
  | Raised e => if is_Exception e then Returned all_paths else Raised e
  end.

(** [ScannerEngine.advanced_discovery_phase] *)
Definition advanced_discovery_phase (self : Discovery)
    (target_url : string) (g : rng) : result (list string) * rng :=
  let base_paths := get_common_paths in
  let all_paths : gset string := list_to_set base_paths in
  let '(natural_paths, g) := generate_natural_variations base_paths g in
  let all_paths := all_paths ∪ list_to_set natural_paths in
  let crawled :=
    match DISCOVERY_AVAILABLE self, intelligent_crawler self with
    | true, Some crawl => add_filtered all_paths (crawl target_url 10)
    | _, _ => Returned all_paths
    end in
  match crawled with
  | Raised e => (Raised e, g)
  | Returned all_paths =>
    let github :=
      if EXTERNAL_AVAILABLE self && auto_download self
      then add_filtered all_paths (load_common_paths self)
      else Returned all_paths in
    match github with
    | Raised e => (Raised e, g)
    | Returned all_paths =>
      (Returned (List.filter (fun p => negb (_is_suspicious_path p))
                             (elements all_paths)), g)
    end
  end.

(** The paths that the crawler brings in: none when it is not there or
    fails. *)
Definition crawled_paths (self : Discovery) (target_url : string)
  : list string :=
  match DISCOVERY_AVAILABLE self, intelligent_crawler self with
  | true, Some crawl =>
    match crawl target_url 10 with
    | Returned paths => paths
    | Raised _ => []
    end
  | _, _ => []
  end.

(** The paths that the downloaded resources bring in. *)
Definition github_paths (self : Discovery) : list string :=
  if EXTERNAL_AVAILABLE self && auto_download self
  then match load_common_paths self with
       | Returned paths => paths
       | Raised _ => []
       end
  else [].

End Generation.

(** *** Probing one path *)

(** Values stored in a result dictionary. *)
Inductive pyval :=
| PStr (s : string)
| PInt (z : Z)
| PBool (b : bool).

#[global] Instance pyval_eq_dec : EqDecision pyval.
Proof. solve_decision. Defined.

(** The two [nonlocal] counters of [scan_paths]. *)
Inductive counter := FoundCount | ErrorCount.

#[global] Instance counter_eq_dec : EqDecision counter.
Proof. solve_decision. Defined.

Record Counters := mkCounters {
  found_count : Z;
  error_count : Z
}.

(** What the scan reads from [self], and the collaborators it calls. *)
Record Engine := mkEngine {
  (* [self.request_manager] *)
  request_manager : option RequestManager;
  (* [self.evasion_engine] is not None *)
  has_evasion_engine : bool;
  (* [self.config['evasion']['stealth_mode']] *)
  stealth_mode : bool;
  (* [self.config['scanning']['timeout']] and ['max_workers'] *)
  scan_timeout : Z;
  max_workers : Z;
  (* [urllib.parse.urljoin] *)
  urljoin : string -> string -> string;
  (* [session.request(method, url)] of the request manager, k-th call *)
  net : string -> string -> nat -> outcome;
  (* [self.evasion_engine.stealth_request(url, timeout=...)] *)
  stealth_request : string -> Z -> result (option Response);
  (* [self.session.get(url, timeout=..., allow_redirects=False)] *)
  session_get : string -> Z -> outcome;
  (* [intelligent_save(path, text, content_type, output_dir)] *)
  intelligent_save : string -> string -> string -> string -> result bool;
  (* [str(e)] *)
  str_exn : exn -> string
}.

Definition text_types : list string :=
  ["text"; "json"; "javascript"; "html"; "xml"].

(** The test of [scan_single_path] for "a valid finding". *)
Definition is_finding (status : Z) (content_length : Z)
    (content_type : string) : bool :=
  (status =? 200) && (20 <? content_length)
  && existsb (fun text_type => contains text_type (lower content_type))
             text_types.

(** The dictionary returned when no response was obtained. *)
Definition error_dict (target_url path message : string)
  : gmap string pyval :=
  {[ "url" := PStr target_url; "path" := PStr path;
     "error" := PStr message ]}.

(** A result that carries an error carries no status code. *)
Definition error_excludes_status (d : gmap string pyval) : Prop :=
  is_Some (d !! "error") -> d !! "status_code" = None.

(** The request of [scan_single_path]: through the request manager when
    there is one, else through the evasion engine or the plain session. *)
Definition fetch (self : Engine) (target_url : string)
  : result (option Response) :=
  match request_manager self with
  | Some rm => fst (smart_request rm (net self) target_url "GET")
  | None =>
    if stealth_mode self && has_evasion_engine self
    then stealth_request self target_url (scan_timeout self)
    else match session_get self target_url (scan_timeout self) with
         | Returned response => Returned (Some response)
         | Raised e => Raised e
         end
  end.

(** [scan_single_path], the closure of [scan_paths]: the value it returns
    or the exception it lets through, and the counter it increments
    ([found_count += 1] or [error_count += 1]), if any. *)
Definition scan_single_path (self : Engine) (base_url output_dir : string)
    (path : string) : result (gmap string pyval) * option counter :=
  let target_url := urljoin self base_url path in
  match fetch self target_url with
  | Raised e =>
    if is_Exception e
    then (Returned (error_dict target_url path (str_exn self e)),
          Some ErrorCount)
    else (Raised e, None)
  | Returned None =>
    (Returned (error_dict target_url path "request_failed"),
     Some ErrorCount)
  | Returned (Some response) =>
    let content_length := len (content response) in
    let content_type := default "" (content_type_header response) in
    let result : gmap string pyval :=
      {[ "url" := PStr target_url; "path" := PStr path;
         "status_code" := PInt (status_code response);
         "content_length" := PInt content_length;
         "content_type" := PStr content_type;
         "success" := PBool false ]} in
    if is_finding (status_code response) content_length content_type
    then
      let result := <["success" := PBool true]> result in
      match intelligent_save self path (text response) content_type
                             output_dir with
      | Returned save_success =>
        (Returned (<["saved" := PBool save_success]> result),
         Some FoundCount)
      | Raised e =>
        if is_Exception e
        then (Returned (<["saved" := PBool false]> result),
              Some FoundCount)
        else (Raised e, Some FoundCount)
      end
    else (Returned result, None)
  end.

(** [bool(r.get(key))] *)
Definition get_truth (key : string) (r : gmap string pyval) : bool :=
  match r !! key with
  | Some (PBool b) => b
  | Some (PInt z) => negb (z =? 0)
  | Some (PStr s) => negb (String.eqb s "")
  | None => false
  end.

(** ['error' in r] *)
Definition has_error (r : gmap string pyval) : bool :=
  bool_decide (is_Some (r !! "error")).

(** The lists that [final_reporting_phase] draws from the scan results;
    the report holds their lengths as [successful_finds], [saved_files]
    and [errors_count], and the length of the results as
    [total_paths_scanned]. *)
Definition successful_scans (scan_results : list (gmap string pyval))
  : list (gmap string pyval) :=
  List.filter (get_truth "success") scan_results.

Definition saved_files (scan_results : list (gmap string pyval))
  : list (gmap string pyval) :=
  List.filter (get_truth "saved") (successful_scans scan_results).

Definition errors (scan_results : list (gmap string pyval))
  : list (gmap string pyval) :=
  List.filter has_error scan_results.

(** The name under which [load_saved_content] looks for the content of a
    path: [path.replace('/', '_').replace('..', '').strip('_')]. *)
Definition sanitized_name (path : string) : string :=
  strip (replace (replace path "/" "_") ".." "") "_".

(** [ScannerEngine.is_sensitive_path], on a path of ASCII characters,
    where [lower] is Python's [str.lower].  Outside ASCII Python lowers
    by the Unicode tables (the Kelvin sign becomes [k], and the upper
    case of a sharp s is [SS]), which the embedding does not hold: there
    the model gives no answer. *)
Definition is_sensitive_path (path : string) : option bool :=
  if isascii path
  then Some (any_in [".env"; "config"; "secret"; "password"; "key"; "admin";
                     "database"]
                    (lower path))
  else None.

(** *** The scan loop

    [scan_paths] submits [scan_single_path] for every path to a
    [ThreadPoolExecutor] of [max_workers] threads and collects the
    futures as they complete.  The closure runs in the workers and
    updates the counters there with [found_count += 1], which is a read
    of the variable followed by a write of the value read plus one.  The
    source puts no lock around the two and Python promises no atomicity
    for them, so that other workers may run in between.  The list
    [results] is appended to by the collecting thread only.

    A run is a schedule: the list of the tasks that take the next step,
    in order.  A task is the call for one submitted path. *)

Inductive task :=
| Queued                          (* submitted, not started *)
| Incrementing (c : counter) (loaded : Z)
               (ret : result (gmap string pyval))
                                  (* between the read and the write *)
| Completed (ret : result (gmap string pyval))
                                  (* future done, not yet collected *)
| Collected.                      (* seen by the [as_completed] loop *)

Record ScanState := mkScanState {
  counters : Counters;
  results : list (gmap string pyval);
  tasks : list task;              (* one per path, in submission order *)
  raised : option exn             (* exception that ended the loop *)
}.

Definition read (c : counter) (cs : Counters) : Z :=
  match c with
  | FoundCount => found_count cs
  | ErrorCount => error_count cs
  end.

Definition write (c : counter) (v : Z) (cs : Counters) : Counters :=
  match c with
  | FoundCount => mkCounters v (error_count cs)
  | ErrorCount => mkCounters (found_count cs) v
  end.

Definition is_incrementing (t : task) : bool :=
  match t with Incrementing _ _ _ => true | _ => false end.

Definition is_collected (t : task) : bool :=
  match t with Collected => true | _ => false end.

(** The number of workers that are inside an increment. *)
Definition in_flight (ts : list task) : Z :=
  Z.of_nat (length (List.filter is_incrementing ts)).

Section ScanPaths.
Variable self : Engine.
Variables base_url output_dir : string.
Variable paths : list string.

Definition set_task (i : nat) (t : task) (st : ScanState) : ScanState :=
  mkScanState (counters st) (results st) (<[i := t]> (tasks st)) (raised st).

(** A worker takes up task [i]: it runs the closure up to the read of
    the counter, or to its end when no counter is touched. *)
Definition start_task (i : nat) (path : string) (st : ScanState)
  : ScanState :=
  match scan_single_path self base_url output_dir path with
  | (ret, None) => set_task i (Completed ret) st
  | (ret, Some c) =>
    set_task i (Incrementing c (read c (counters st)) ret) st
  end.

(** The write of [c += 1], which ends the closure. *)
Definition finish_increment (i : nat) (c : counter) (loaded : Z)
    (ret : result (gmap string pyval)) (st : ScanState) : ScanState :=
  mkScanState (write c (loaded + 1) (counters st)) (results st)
              (<[i := Completed ret]> (tasks st)) (raised st).

(** The body of [for future in as_completed(...)] for the future of
    task [i].  [scan_single_path] lets no [Exception] through, so that
    the [except Exception] clause is never entered. *)
Definition collect (i : nat) (path : string)
    (ret : result (gmap string pyval)) (st : ScanState) : ScanState :=
  match ret with
  | Returned result =>
    mkScanState (counters st)
                (if decide (result = ∅) then results st
                 else results st ++ [result])
                (<[i := Collected]> (tasks st)) (raised st)
  | Raised e =>
    if is_Exception e
    then mkScanState
           (write ErrorCount (error_count (counters st) + 1) (counters st))
           (results st ++ [error_dict (urljoin self base_url path) path
                                      (str_exn self e)])
           (<[i := Collected]> (tasks st)) (raised st)
    else mkScanState (counters st) (results st) (tasks st) (Some e)
  end.

(** One step of task [i]; [None] when the task cannot move. *)
Definition step (i : nat) (st : ScanState) : option ScanState :=
  match raised st, tasks st !! i, paths !! i with
  | None, Some Queued, Some path =>
    if in_flight (tasks st) <? max_workers self
    then Some (start_task i path st) else None
  | None, Some (Incrementing c loaded ret), Some _ =>
    Some (finish_increment i c loaded ret st)
  | None, Some (Completed ret), Some path => Some (collect i path ret st)
  | _, _, _ => None
  end.

Fixpoint run (schedule : list nat) (st : ScanState) : option ScanState :=
  match schedule with
  | [] => Some st
  | i :: schedule' =>
    match step i st with
    | Some st' => run schedule' st'
    | None => None
    end
  end.

(** The state in which [scan_paths] enters the pool. *)
Definition initial : ScanState :=
  mkScanState (mkCounters 0 0) [] (replicate (length paths) Queued) None.

(** All futures were collected and the loop ended normally: [scan_paths]
    returns [results st]. *)
Definition finished (st : ScanState) : bool :=
  match raised st with
  | None => forallb is_collected (tasks st)
  | Some _ => false
  end.

(** The closure increments [c] on [path]. *)
Definition increments (c : counter) (path : string) : bool :=
  match snd (scan_single_path self base_url output_dir path) with
  | Some c' => bool_decide (c' = c)
  | None => false
  end.

(** The number of paths on which the closure increments [c]. *)
Definition increments_of (c : counter) : Z :=
  Z.of_nat (length (List.filter (increments c) paths)).

(** *** What holds in every state of a run *)

Definition has_stored (t : task) : bool :=
  match t with
  | Completed _ | Collected => true
  | Queued | Incrementing _ _ _ => false
  end.

Definition weight (c : counter) (t : task) (path : string) : Z :=
  if has_stored t && increments c path then 1 else 0.

(** The number of tasks that have written their increment of [c]. *)
Fixpoint stored (c : counter) (ts : list task) (ps : list string) : Z :=
  match ts, ps with
  | t :: ts', path :: ps' => weight c t path + stored c ts' ps'
  | _, _ => 0
  end.

Definition collected_count (ts : list task) : Z :=
  Z.of_nat (length (List.filter is_collected ts)).

Record Inv (st : ScanState) : Prop := mkInv {
  inv_length : length (tasks st) = length paths;
  inv_found :
    found_count (counters st) <= stored FoundCount (tasks st) paths;
  inv_loaded : forall i v ret,
    tasks st !! i = Some (Incrementing FoundCount v ret) ->
    v <= stored FoundCount (tasks st) paths;
  inv_counter : forall i c v ret path,
    tasks st !! i = Some (Incrementing c v ret) ->
    paths !! i = Some path ->
    scan_single_path self base_url output_dir path = (ret, Some c);
  inv_ret : forall i ret path,
    tasks st !! i = Some (Completed ret) ->
    paths !! i = Some path ->
    ret = fst (scan_single_path self base_url output_dir path);
  inv_results :
    Z.of_nat (length (results st)) = collected_count (tasks st)
}.

(** The dictionary that the closure returns on [path], if it returns. *)
Definition returned_dict (path : string) : list (gmap string pyval) :=
  match fst (scan_single_path self base_url output_dir path) with
  | Returned d => [d]
  | Raised _ => []
  end.

(** The dictionaries of the tasks that were collected, in the order of
    submission. *)
Fixpoint collected_results (ts : list task) (ps : list string)
  : list (gmap string pyval) :=
  match ts, ps with
  | t :: ts', path :: ps' =>
    (if is_collected t then returned_dict path else [])
    ++ collected_results ts' ps'
  | _, _ => []
  end.

(** The results are those of the collected tasks, up to their order; a
    collected task has returned. *)
Record InvResults (st : ScanState) : Prop := mkInvResults {
  res_perm : results st ≡ₚ collected_results (tasks st) paths;
  res_returned : forall i path,
    tasks st !! i = Some Collected -> paths !! i = Some path ->
    exists d, fst (scan_single_path self base_url output_dir path) = Returned d
}.

(** What holds in addition when the increments do not overlap. *)
Record InvSerial (st : ScanState) : Prop := mkInvSerial {
  ser_found :
    found_count (counters st) = stored FoundCount (tasks st) paths;
  ser_loaded : forall i v ret,
    tasks st !! i = Some (Incrementing FoundCount v ret) ->
    v = found_count (counters st);
  ser_single : forall i j c v ret c' v' ret',
    tasks st !! i = Some (Incrementing c v ret) ->
    tasks st !! j = Some (Incrementing c' v' ret') ->
    i = j
}.

End ScanPaths.

End ScannerEngine.

(** ** discovery/quantum_fuzzer.py *)

Module QuantumFuzzer.
Import Py.

Definition encoding_methods : list string :=
  ["url"; "base64"; "hex"; "unicode"; "double_url"; "html_entity"].

Definition special_chars : list string :=
  ["../"; "./"; ".../"; "/./"; "//"; "/../"; "\..\"; "\\.\\"].

(** [QuantumFuzzer._load_natural_paths] *)
Definition natural_paths_items : list (string * list string) := [
    ("admin", ["/admin"; "/administrator"; "/adminpanel"; "/admin/login";
               "/admin/dashboard"; "/admin/config"; "/admin/settings";
               "/wp-admin"; "/administrator/login"; "/admincp"]);
    ("api", ["/api"; "/api/v1"; "/api/v2"; "/api/v3"; "/graphql"; "/rest";
             "/json"; "/api/docs"; "/api/swagger"; "/api/redoc"]);
    ("auth", ["/login"; "/signin"; "/logout"; "/signout"; "/register";
              "/signup"; "/auth"; "/oauth"; "/sso"; "/password/reset"]);
    ("files", ["/uploads"; "/files"; "/documents"; "/images"; "/assets";
               "/static"; "/media"; "/downloads"; "/backups"; "/tmp"]);
    ("config", ["/config"; "/configuration"; "/settings"; "/setup";
                "/install"; "/initialize"; "/env"; "/.env"; "/config.json"]);
    ("database", ["/db"; "/database"; "/sql"; "/mysql"; "/postgres";
                  "/mongodb"; "/redis"; "/phpmyadmin"; "/adminer"]);
    ("development", ["/dev"; "/development"; "/staging"; "/test"; "/debug";
                     "/console"; "/shell"; "/terminal"; "/api/debug"]);
    ("logs", ["/logs"; "/log"; "/var/log"; "/tmp/logs"; "/debug/log";
              "/application/logs"; "/system/logs"])
  ].
Definition natural_paths : gmap string (list string) :=
  list_to_map natural_paths_items.

(** [QuantumFuzzer._load_common_patterns] *)
Definition common_patterns_items : list (string * list string) := [
    ("wordpress", ["/wp-content"; "/wp-includes"; "/wp-json"; "/wp-admin";
                   "/xmlrpc.php"; "/wp-config.php"; "/wp-login.php"]);
    ("laravel", ["/storage"; "/bootstrap"; "/app"; "/resources";
                 "/vendor"; "/config/app.php"; "/.env"]);
    ("django", ["/static"; "/media"; "/admin"; "/api";
                "/accounts"; "/docs"; "/redoc"]);
    ("react", ["/static/js"; "/static/css"; "/manifest.json";
               "/service-worker.js"; "/precache-manifest"]);
    ("api_patterns", ["/users"; "/products"; "/orders"; "/customers";
                      "/auth/token"; "/user/profile"; "/api/health"])
  ].
Definition common_patterns : gmap string (list string) :=
  list_to_map common_patterns_items.

(** [QuantumFuzzer.apply_encoding] *)
Definition apply_encoding (path : string) (encoding : string) : string :=
  if String.eqb encoding "url" then quote path
  else if String.eqb encoding "base64" then b64encode path
  else if String.eqb encoding "hex" then hex path
  else if String.eqb encoding "unicode" then str_concat_map percent_u path
  else if String.eqb encoding "double_url" then quote (quote path)
  else if String.eqb encoding "html_entity"
       then str_concat_map html_entity_char path
  else path.

(** A string is true when it is not empty. *)
Definition truthy (s : string) : bool := negb (String.eqb s "").

(** The body of the loop of [generate_all_encodings] for one method. *)
Definition encodings_of (path : string) (encoding : string) : list string :=
  let encoded := apply_encoding path encoding in
  if truthy encoded && negb (String.eqb encoded path)
  then encoded ::
       (if negb (String.eqb encoding "double_url")
        then let double_encoded := apply_encoding encoded encoding in
             if truthy double_encoded then [double_encoded] else []
        else [])
  else [].

(** [QuantumFuzzer.generate_all_encodings] *)
Definition generate_all_encodings (path : string) : list string :=
  flat_map (encodings_of path) encoding_methods.

(** The insertions of [traversal_char] between the parts of [path]. *)
Definition traversal_insertions (path traversal_char : string)
  : list string :=
  if contains "/" path
  then let parts := split path "/" in
       map (fun i => join "/" (list_insert_at i (strip traversal_char "/") parts))
           (seq 1 (length parts - 1))
  else [].

(** [QuantumFuzzer.generate_traversal_variations] *)
Definition generate_traversal_variations (path : string) : list string :=
  elements (list_to_set (C := gset string)
    (flat_map (fun traversal_char =>
                 (path +:+ traversal_char) :: (traversal_char +:+ path)
                 :: traversal_insertions path traversal_char)
              special_chars)).

(** [QuantumFuzzer.looks_like_api] *)
Definition looks_like_api (path : string) : bool :=
  any_in ["/api/"; "/v1/"; "/v2/"; "/v3/"; "/rest/"; "/graphql"; "/json/"]
         (lower path).

(** [QuantumFuzzer.generate_parameter_variations] *)
Definition generate_parameter_variations (path : string) : list string :=
  let parameters :=
    ["id"; "user"; "page"; "limit"; "offset"; "sort"; "filter"; "token"] in
  let values :=
    ["123"; "test"; "admin"; "1"; "true"; "false"; "null"; "undefined"] in
  let base_path := default "" (head (split path "?")) in
  let singles :=
    flat_map (fun param =>
      flat_map (fun value =>
        [base_path +:+ "?" +:+ param +:+ "=" +:+ value;
         base_path +:+ "?" +:+ param +:+ "[]=" +:+ value;
         base_path +:+ "?" +:+ param +:+ "=" +:+ value +:+ "&test=1";
         base_path +:+ "?" +:+ param +:+ "=" +:+ value
           +:+ "&" +:+ param +:+ "=" +:+ value])
        (take 3 values))
      (take 4 parameters) in
  (* list(itertools.combinations(parameters[:3], 2))[:3] *)
  let param_combinations := [("id", "user"); ("id", "page"); ("user", "page")] in
  let pairs :=
    map (fun '(param1, param2) =>
           base_path +:+ "?" +:+ param1 +:+ "=test&" +:+ param2 +:+ "=123")
        param_combinations in
  elements (list_to_set (C := gset string) (singles ++ pairs)).

(** [QuantumFuzzer.generate_extension_variations] *)
Definition generate_extension_variations (path : string) : list string :=
  let extensions :=
    [".json"; ".js"; ".html"; ".xml"; ".txt"; ".bak"; ".old"; ".sql"] in
  let no_extension_path := default "" (head (split path ".")) in
  elements (list_to_set (C := gset string)
    (flat_map (fun ext => [no_extension_path +:+ ext; path +:+ ext])
              extensions)).

(** [QuantumFuzzer.generate_combined_variations] *)
Definition generate_combined_variations (path : string) : list string :=
  let encoded := apply_encoding path "url" in
  let traversal := path +:+ "../" in
  elements (list_to_set (C := gset string)
    (if truthy encoded && truthy traversal
     then [encoded +:+ "../"; apply_encoding traversal "url"]
     else [])).

(** [QuantumFuzzer.extract_keywords_from_string] *)
Definition is_separator (c : ascii) : bool :=
  existsb (Ascii.eqb c) ["/"; "-"; "_"; "."]%char.

Definition keyword_of (part : string) : list string :=
  if truthy part && (2 <? len part) && negb (isdigit part)
  then let clean_part := str_filter is_alpha part in
       if 2 <? len clean_part then [lower clean_part] else []
  else [].

Definition extract_keywords_from_string (text : string) : list string :=
  elements (list_to_set (C := gset string)
    (flat_map keyword_of (split_on is_separator text))).

(** [QuantumFuzzer.generate_natural_variations] *)
Definition generate_natural_variations (path : string) : list string :=
  let keywords := extract_keywords_from_string path in
  let from_keywords :=
    flat_map (fun keyword =>
                match natural_paths !! keyword with
                | Some paths => take 3 paths
                | None => []
                end)
             (take 5 keywords) in
  let from_api :=
    if contains "api" (lower path)
    then take 5 (default [] (common_patterns !! "api_patterns")) else [] in
  let from_admin :=
    if contains "admin" (lower path)
    then take 3 (default [] (common_patterns !! "wordpress")) else [] in
  elements (list_to_set (C := gset string)
    (from_keywords ++ from_api ++ from_admin)).

(** [QuantumFuzzer.extract_keywords_from_paths] *)
Definition extract_keywords_from_paths (paths : list string) : list string :=
  take 30 (elements (list_to_set (C := gset string)
                       (flat_map extract_keywords_from_string paths))).

(** [QuantumFuzzer.extract_domain_keywords]; [netloc] is what
    [urlparse(url).netloc] gives, or what [urlparse] raises. *)
Definition is_domain_separator (c : ascii) : bool :=
  existsb (Ascii.eqb c) ["."; "-"]%char.

Definition domain_keyword_of (part : string) : list string :=
  if truthy part && (2 <? len part)
     && negb (existsb (String.eqb part) ["www"; "com"; "org"; "net"; "io"])
  then [lower part] else [].

Definition extract_domain_keywords (netloc : result string)
  : result (list string) :=
  match netloc with
  | Returned domain =>
    Returned (elements (list_to_set (C := gset string)
                (flat_map domain_keyword_of
                          (split_on is_domain_separator domain))))
  | Raised e => if is_Exception e then Returned [] else Raised e
  end.

(** [QuantumFuzzer.generate_keyword_paths] *)
Definition generate_keyword_paths (keyword : string) : list string :=
  let prefixes :=
    ["/"; "/api/"; "/static/"; "/assets/"; "/admin/"; "/config/"; "/v1/"] in
  let suffixes := [""; ".js"; ".json"; ".html"; ".php"; ".xml"] in
  elements (list_to_set (C := gset string)
    (flat_map (fun prefix =>
                 map (fun suffix => prefix +:+ keyword +:+ suffix) suffixes)
              prefixes
     ++ ["/" +:+ keyword +:+ "/api";
         "/v1/" +:+ keyword;
         "/" +:+ keyword +:+ "/v1";
         "/" +:+ keyword +:+ "/admin";
         "/api/" +:+ keyword +:+ "/list";
         "/api/" +:+ keyword +:+ "/detail"])).

(** [QuantumFuzzer.generate_domain_based_paths] *)
Definition generate_domain_based_paths (keyword : string) : list string :=
  elements (list_to_set (C := gset string)
    ["/" +:+ keyword;
     "/" +:+ keyword +:+ ".js";
     "/" +:+ keyword +:+ ".json";
     "/api/" +:+ keyword;
     "/static/" +:+ keyword;
     "/assets/" +:+ keyword;
     "/" +:+ keyword +:+ "/api";
     "/" +:+ keyword +:+ "/admin"]).

(** [QuantumFuzzer.generate_comprehensive_natural_paths] *)
Definition generate_comprehensive_natural_paths : list string :=
  elements (list_to_set (C := gset string)
    (flat_map (fun item => take 10 (snd item)) natural_paths_items
     ++ flat_map (fun item => take 5 (snd item)) common_patterns_items)).

(** [QuantumFuzzer.smart_fuzzing]; [netloc] is what [urlparse] makes of
    the target URL. *)
Definition smart_fuzzing (discovered_paths : list string)
    (netloc : result string) : result (list string) :=
  let keywords := extract_keywords_from_paths discovered_paths in
  let fuzzed_paths : gset string :=
    list_to_set (flat_map generate_keyword_paths (take 25 keywords)) in
  match extract_domain_keywords netloc with
  | Raised e => Raised e
  | Returned domain_keywords =>
    let fuzzed_paths :=
      fuzzed_paths
      ∪ list_to_set (flat_map generate_domain_based_paths domain_keywords) in
    let fuzzed_paths :=
      fuzzed_paths ∪ list_to_set generate_comprehensive_natural_paths in
    Returned (slice_to (elements fuzzed_paths) 200)
  end.

(** The quantum states of [path] that lose its leading slash: the
    encodings by the methods other than [url] and [double_url], and the
    traversal strings without a leading slash put in front of the path. *)
Definition unprefixed_states (path : string) : list string :=
  flat_map (encodings_of path) ["base64"; "hex"; "unicode"; "html_entity"]
  ++ map (fun traversal_char => traversal_char +:+ path)
         (List.filter (fun traversal_char =>
                         negb (startswith traversal_char "/"))
                      special_chars).

(** A keyword: three or more letters, all in lower case. *)
Definition is_keyword (s : string) : Prop :=
  2 < len s /\ str_filter is_lower s = s.

(** A string in which only [A-Z], [a-z], [0-9], [_], [.], [-], [~] and
    [/] occur, which [quote] leaves as it is. *)
Definition all_safe (s : string) : bool :=
  String.eqb (str_filter (fun c => is_unreserved c || Ascii.eqb c "/") s) s.

Section WithRandom.
Context {rng : Type} `{Random rng}.

(** [QuantumFuzzer.random_case] *)
Fixpoint random_case (text : string) (g : rng) : string * rng :=
  match text with
  | EmptyString => (EmptyString, g)
  | String char text' =>
    let '(above, g) := random_above_half g in
    let '(rest, g) := random_case text' g in
    (String (if above then upper_char char else lower_char char) rest, g)
  end.

(** The characters at even positions in upper case, the others in
    lower case. *)
Fixpoint mixed_case (even : bool) (path : string) : string :=
  match path with
  | EmptyString => EmptyString
  | String char path' =>
    String (if even then upper_char char else lower_char char)
           (mixed_case (negb even) path')
  end.

(** [QuantumFuzzer.generate_case_variations] *)
Definition generate_case_variations (path : string) (g : rng)
  : list string * rng :=
  let '(randomized, g) := random_case path g in
  (elements (list_to_set (C := gset string)
     [upper path; lower path; title path; randomized;
      mixed_case true path]), g).

(** [QuantumFuzzer.generate_quantum_states] *)
Definition generate_quantum_states (path : string) (g : rng)
  : list string * rng :=
  let states : gset string := {[ path ]} in
  let states := states ∪ list_to_set (generate_all_encodings path) in
  let states := states ∪ list_to_set (generate_traversal_variations path) in
  let '(case_variations, g) := generate_case_variations path g in
  let states := states ∪ list_to_set case_variations in
  let states :=
    if looks_like_api path
    then states ∪ list_to_set (generate_parameter_variations path)
    else states in
  let states := states ∪ list_to_set (generate_extension_variations path) in
  let states := states ∪ list_to_set (generate_combined_variations path) in
  (elements states, g).

(** The loop of [generate_quantum_paths] over [base_paths[:30]], left
    early once the set holds [max_paths] paths. *)
Fixpoint quantum_loop (base_paths : list string) (max_paths : Z)
    (quantum_paths : gset string) (g : rng) : gset string * rng :=
  match base_paths with
  | [] => (quantum_paths, g)
  | base_path :: rest =>
    let '(quantum_states, g) := generate_quantum_states base_path g in
    let quantum_paths := quantum_paths ∪ list_to_set quantum_states in
    let natural_variations := generate_natural_variations base_path in
    let quantum_paths := quantum_paths ∪ list_to_set natural_variations in
    if max_paths <=? Z.of_nat (size quantum_paths)
    then (quantum_paths, g)
    else quantum_loop rest max_paths quantum_paths g
  end.

(** [QuantumFuzzer.generate_quantum_paths] *)
Definition generate_quantum_paths (base_paths : list string)
    (max_paths : Z) (g : rng) : list string * rng :=
  let '(quantum_paths, g) :=
    quantum_loop (take 30 base_paths) max_paths ∅ g in
  (slice_to (elements quantum_paths) max_paths, g).

End WithRandom.

End QuantumFuzzer.

(** ** utils/config_loader.py *)

Module ConfigLoader.
Import Py.

(** A Python [float]: a finite value, as the rational it denotes, or one
    of the special values. *)
Inductive pyfloat :=
| FFinite (q : Q)
| FNan
| FInf (negative : bool).

(** What [yaml.safe_load] yields, and what a configuration holds.  A
    dictionary keeps its items in insertion order. *)
#[warnings="-register-all"]
Inductive pyobj :=
| VNone
| VBool (b : bool)
| VInt (z : Z)
| VFloat (f : pyfloat)
| VStr (s : string)
| VList (l : list pyobj)
| VDict (items : list (string * pyobj)).

Definition dict := list (string * pyobj).

(** [d.get(key)] as an option, [key in d] when it is [Some]. *)
Fixpoint dict_get (key : string) (d : dict) : option pyobj :=
  match d with
  | [] => None
  | (k, v) :: d' => if String.eqb k key then Some v else dict_get key d'
  end.

(** [d[key] = v]: the item is replaced where it stands, or added last. *)
Fixpoint dict_set (key : string) (v : pyobj) (d : dict) : dict :=
  match d with
  | [] => [(key, v)]
  | (k, w) :: d' =>
    if String.eqb k key then (k, v) :: d' else (k, w) :: dict_set key v d'
  end.

Definition int_ (z : Z) : pyobj := VInt z.
Definition float_ (q : Q) : pyobj := VFloat (FFinite q).
Definition strs (l : list string) : pyobj := VList (map VStr l).

Definition DEFAULT_CONFIG : dict := [
  ("scanning", VDict [
     ("max_workers", int_ 10);
     ("timeout", int_ 15);
     ("max_retries", int_ 3);
     ("rate_limit_delay", float_ 1);
     ("max_paths_per_scan", int_ 1000);
     ("concurrent_requests", int_ 5);
     ("respect_robots_txt", VBool false)]);
  ("evasion", VDict [
     ("rotate_user_agents", VBool true);
     ("use_proxies", VBool false);
     ("random_delays", VBool true);
     ("stealth_mode", VBool true);
     ("delay_min", float_ 2);
     ("delay_max", float_ 5);
     ("max_redirects", int_ 5);
     ("verify_ssl", VBool false)]);
  ("intelligence", VDict [
     ("enable_ml", VBool false);
     ("enable_nlp", VBool true);
     ("enable_vision", VBool false);
     ("adaptive_learning", VBool true);
     ("pattern_recognition", VBool true);
     ("risk_assessment", VBool true);
     ("confidence_threshold", float_ (7 # 10))]);
  ("discovery", VDict [
     ("max_crawl_pages", int_ 15);
     ("crawl_depth", int_ 3);
     ("follow_links", VBool true);
     ("extract_js_endpoints", VBool true);
     ("analyze_sourcemaps", VBool true);
     ("quantum_fuzzing", VBool true)]);
  ("resources", VDict [
     ("auto_download", VBool true);
     ("update_interval_days", int_ 7);
     ("github_backup", VBool true);
     ("local_cache", VBool true);
     ("cache_expiry_hours", int_ 24)]);
  ("output", VDict [
     ("organized_saving", VBool true);
     ("generate_reports", VBool true);
     ("save_full_content", VBool true);
     ("compress_output", VBool false);
     ("log_level", VStr "INFO");
     ("max_file_size_mb", int_ 10)]);
  ("security", VDict [
     ("max_request_size", int_ 10485760);
     ("blacklisted_paths", strs ["/etc/passwd"; "/etc/shadow"; "/proc/"]);
     ("sensitive_keywords", strs ["password"; "secret"; "key"; "token"]);
     ("enable_sandbox", VBool false)])
].

Inductive pytype := TInt | TFloat.

Record rule := mkRule {
  rule_key : string;
  rule_type : list pytype;
  rule_min : Q;
  rule_max : Q
}.

Definition VALIDATION_RULES : list rule := [
  mkRule "scanning.max_workers" [TInt] 1 50;
  mkRule "scanning.timeout" [TInt] 5 60;
  mkRule "scanning.max_retries" [TInt] 1 10;
  mkRule "scanning.rate_limit_delay" [TInt; TFloat] (1 # 10) 10;
  mkRule "evasion.delay_min" [TInt; TFloat] (1 # 2) 30;
  mkRule "evasion.delay_max" [TInt; TFloat] 1 60;
  mkRule "output.max_file_size_mb" [TInt] 1 100;
  mkRule "intelligence.confidence_threshold" [TFloat] (1 # 10) 1
].

(** [ConfigLoader._deep_merge], on the items of the two dictionaries:
    for every item [(key, value)] of [update], the dictionaries are merged
    when [result[key]] and [value] both are dictionaries, else [value]
    replaces [result[key]].  The recursion goes through the values, so
    it is written on the value that holds [update]; the equations of
    [_deep_merge] itself are [_deep_merge_nil] and [_deep_merge_cons]. *)
Fixpoint merge_into (base : dict) (update : pyobj) {struct update} : dict :=
  match update with
  | VDict items =>
    (fix merge_items (result : dict) (items : list (string * pyobj))
         {struct items} : dict :=
       match items with
       | [] => result
       | (key, value) :: items' =>
         merge_items
           (match dict_get key result, value with
            | Some (VDict b), VDict _ =>
              dict_set key (VDict (merge_into b value)) result
            | _, _ => dict_set key value result
            end)
           items'
       end) base items
  | _ => base
  end.

Definition _deep_merge (base update : dict) : dict :=
  merge_into base (VDict update).

(** The loop of [_get_nested_value] over the keys of the path. *)
Fixpoint get_path (value : pyobj) (keys : list string) : option pyobj :=
  match keys with
  | [] => Some value
  | key :: keys' =>
    match value with
    | VDict items =>
      match dict_get key items with
      | Some v => get_path v keys'
      | None => None
      end
    | _ => None
    end
  end.

(** [ConfigLoader._get_nested_value]; [None] is Python's [None]. *)
Definition _get_nested_value (config : pyobj) (key_path : string)
  : option pyobj :=
  match get_path config (split key_path ".") with
  | Some VNone => None
  | found => found
  end.

(** [isinstance(value, t)]; a [bool] is an [int]. *)
Definition isinstance (v : pyobj) (t : pytype) : bool :=
  match t, v with
  | TInt, (VInt _ | VBool _) => true
  | TFloat, VFloat _ => true
  | _, _ => false
  end.

(** [type(value).__name__] *)
Definition type_name (v : pyobj) : string :=
  match v with
  | VNone => "NoneType"
  | VBool _ => "bool"
  | VInt _ => "int"
  | VFloat _ => "float"
  | VStr _ => "str"
  | VList _ => "list"
  | VDict _ => "dict"
  end.

(** [value < bound] and [value > bound] for a number. *)
Definition below (v : pyobj) (bound : Q) : bool :=
  match v with
  | VInt z => negb (Qle_bool bound (inject_Z z))
  | VBool b => negb (Qle_bool bound (inject_Z (Z.b2z b)))
  | VFloat (FFinite q) => negb (Qle_bool bound q)
  | VFloat (FInf negative) => negative
  | _ => false
  end.

Definition above (v : pyobj) (bound : Q) : bool :=
  match v with
  | VInt z => negb (Qle_bool (inject_Z z) bound)
  | VBool b => negb (Qle_bool (inject_Z (Z.b2z b)) bound)
  | VFloat (FFinite q) => negb (Qle_bool q bound)
  | VFloat (FInf negative) => negb negative
  | _ => false
  end.

(** The messages that validation appends to [errors], by their parts:
    the key path first, as in the text of each message. *)
Inductive issue :=
| WrongType (key_path : string) (expected : list pytype) (got : string)
| BelowMinimum (key_path : string) (v : pyobj) (minimum : Q)
| AboveMaximum (key_path : string) (v : pyobj) (maximum : Q).

Definition issue_key (i : issue) : string :=
  match i with
  | WrongType k _ _ | BelowMinimum k _ _ | AboveMaximum k _ _ => k
  end.

(** The body of the loop of [_validate_config] for one rule. *)
Definition check_rule (config : pyobj) (r : rule) : list issue :=
  match _get_nested_value config (rule_key r) with
  | None => []
  | Some v =>
    if negb (existsb (isinstance v) (rule_type r))
    then [WrongType (rule_key r) (rule_type r) (type_name v)]
    else (if below v (rule_min r)
          then [BelowMinimum (rule_key r) v (rule_min r)] else [])
         ++ (if above v (rule_max r)
             then [AboveMaximum (rule_key r) v (rule_max r)] else [])
  end.

(** [ConfigLoader._validate_config] *)
Definition _validate_config (config : pyobj) : list issue :=
  flat_map (check_rule config) VALIDATION_RULES.

(** [value[key]] for a string key: a [KeyError] or a [TypeError] when
    there is no such item. *)
Definition subscript (v : pyobj) (key : string) : result pyobj :=
  match v with
  | VDict items =>
    match dict_get key items with
    | Some w => Returned w
    | None => Raised OtherException
    end
  | _ => Raised OtherException
  end.

(** [ConfigLoader._print_config_summary]: the items that it reads. *)
Definition summary_items : list (string * string) := [
  ("scanning", "max_workers"); ("scanning", "timeout");
  ("evasion", "stealth_mode"); ("evasion", "random_delays");
  ("intelligence", "enable_ml"); ("intelligence", "enable_nlp");
  ("intelligence", "enable_vision");
  ("output", "organized_saving"); ("output", "generate_reports")
].

Fixpoint read_items (config : pyobj) (items : list (string * string))
  : result unit :=
  match items with
  | [] => Returned tt
  | (section, key) :: items' =>
    match subscript config section with
    | Raised e => Raised e
    | Returned sec =>
      match subscript sec key with
      | Raised e => Raised e
      | Returned _ => read_items config items'
      end
    end
  end.

Definition _print_config_summary (config : pyobj) : result unit :=
  read_items config summary_items.

(** What the file system and the YAML parser give to [load_config]. *)
Inductive config_file :=
| Missing                      (* [os.path.exists] is false *)
| Unreadable                   (* [open] or the read raises *)
| Malformed                    (* [yaml.YAMLError] *)
| Parsed (v : pyobj).          (* the value of [yaml.safe_load(f)] *)

(** The truth value of a Python value. *)
Definition truth (v : pyobj) : bool :=
  match v with
  | VNone => false
  | VBool b => b
  | VInt z => negb (z =? 0)
  | VFloat (FFinite q) => negb (Qeq_bool q 0)
  | VFloat _ => true
  | VStr s => negb (String.eqb s "")
  | VList l => match l with [] => false | _ => true end
  | VDict d => match d with [] => false | _ => true end
  end.

(** [ConfigLoader.load_config]: the value returned, and the validation
    issues printed on the way.  Every exception raised in the [try]
    block is caught and answered with the default configuration. *)
Definition load_config (file : config_file) : result pyobj * list issue :=
  match file with
  | Missing => (Returned (VDict DEFAULT_CONFIG), [])
  | Malformed => (Returned (VDict DEFAULT_CONFIG), [])
  | Unreadable => (Returned (VDict DEFAULT_CONFIG), [])
  | Parsed loaded =>
    let user_config := if truth loaded then loaded else VDict [] in
    match user_config with
    | VDict update =>
      let final_config := VDict (_deep_merge DEFAULT_CONFIG update) in
      let validation_errors := _validate_config final_config in
      match _print_config_summary final_config with
      | Returned _ => (Returned final_config, validation_errors)
      | Raised e =>
        if is_Exception e
        then (Returned (VDict DEFAULT_CONFIG), validation_errors)
        else (Raised e, validation_errors)
      end
    | _ =>
      (* [update.items()] raises AttributeError *)
      (Returned (VDict DEFAULT_CONFIG), [])
    end
  end.

(** [ConfigLoader.get_config_value] *)
Definition get_config_value (config : pyobj) (key_path : string)
    (default : pyobj) : pyobj :=
  match _get_nested_value config key_path with
  | Some v => v
  | None => default
  end.

(** [ConfigLoader.update_config] *)
Definition update_config (config updates : dict) : dict :=
  _deep_merge config updates.

(** [isinstance(v, dict)] *)
Definition is_dict (v : pyobj) : bool :=
  match v with VDict _ => true | _ => false end.

(** The sections that [_print_config_summary] reads. *)
Definition summary_sections : list string :=
  ["scanning"; "evasion"; "intelligence"; "output"].

(** A value that validation lets pass for a rule: of one of its types and
    neither below its minimum nor above its maximum. *)
Definition passes (r : rule) (v : pyobj) : bool :=
  existsb (isinstance v) (rule_type r)
  && negb (below v (rule_min r)) && negb (above v (rule_max r)).

(** The ranges that the specification gives for the three integer
    options. *)
Definition documented_ranges : list (string * Z * Z) :=
  [("scanning.max_workers", 1, 50); ("scanning.timeout", 5, 60);
   ("scanning.max_retries", 1, 10)].

End ConfigLoader.

(** ** Scenarios used to exercise the definitions *)

Module Scenarios.
Import Py RequestManager ScannerEngine.

(** A target on which the first attempt times out, the second cannot
    connect and the third is answered with 404. *)
Definition flaky_net (m u : string) (k : nat) : outcome :=
  match k with
  | O => Raised Timeout
  | S O => Raised ConnectionError
  | _ => Returned (mkResponse 404 "Not Found" "Not Found" None)
  end.

Definition always_500 (m u : string) (k : nat) : outcome :=
  Returned (mkResponse 500 "Internal Server Error" "Internal Server Error"
                       (Some "text/html")).

(** A stub engine: the request manager with its defaults, over an HTTP
    layer that answers every request with [response]; saving succeeds. *)
Definition stub_engine (response : Response) : Engine := {|
  request_manager := Some default_manager;
  has_evasion_engine := true;
  stealth_mode := true;
  scan_timeout := 15;
  max_workers := 10;
  urljoin := fun base path => base +:+ path;
  net := fun _ _ _ => Returned response;
  stealth_request := fun _ _ => Returned (Some response);
  session_get := fun _ _ => Returned response;
  intelligent_save := fun _ _ _ _ => Returned true;
  str_exn := fun _ => "error"
|}.

Definition html_page (body : string) : Response :=
  mkResponse 200 body body (Some "text/html").

(** A scan of 1000 paths of which 500 are findings: [/hit] is a page of
    more than 20 bytes, every other path is missing. *)
Definition race_engine : Engine := {|
  request_manager := Some default_manager;
  has_evasion_engine := true;
  stealth_mode := true;
  scan_timeout := 15;
  max_workers := 10;
  urljoin := fun base path => base +:+ path;
  net := fun _ url _ =>
    if contains "/hit" url
    then Returned (html_page "<html><body>found it</body></html>")
    else Returned (mkResponse 404 "Not Found" "Not Found" (Some "text/html"));
  stealth_request := fun _ _ => Returned None;
  session_get := fun _ _ => Raised ConnectionError;
  intelligent_save := fun _ _ _ _ => Returned true;
  str_exn := fun _ => "error"
|}.

Definition race_paths : list string :=
  replicate 500 "/hit" ++ replicate 500 "/miss".

(** Two workers take up the first two paths and both read
    [found_count] before either writes it; all other tasks run one
    after the other. *)
Definition race_schedule : list nat :=
  [0; 1; 0; 1; 0; 1]%nat
  ++ flat_map (fun i => [i; i; i]) (seq 2 498)
  ++ flat_map (fun i => [i; i]) (seq 500 500).

(** The same scan with every task run to its end before the next. *)
Definition serial_schedule : list nat :=
  flat_map (fun i => [i; i; i]) (seq 0 500)
  ++ flat_map (fun i => [i; i]) (seq 500 500).

(** A source of random draws: a counter, from which the draws are
    derived. *)
#[export] Instance counter_random : Random nat := {|
  randint := fun a b g => (a + Z.of_nat g mod (b - a + 1), S g);
  random_above_half := fun g => (Nat.odd g, S g)
|}.

(** An engine with no crawler and no downloaded resources. *)
Definition offline_discovery : Discovery := {|
  DISCOVERY_AVAILABLE := false;
  intelligent_crawler := None;
  EXTERNAL_AVAILABLE := false;
  auto_download := true;
  load_common_paths := Raised OtherException
|}.

(** An engine whose crawler and resources bring suspicious paths. *)
Definition online_discovery : Discovery := {|
  DISCOVERY_AVAILABLE := true;
  intelligent_crawler :=
    Some (fun _ _ => Returned ["/crawled"; "/backup.zip"; "/a/../b"]);
  EXTERNAL_AVAILABLE := true;
  auto_download := true;
  load_common_paths := Returned ["/.env"; "/wordlist"; "/wp-login.php"]
|}.

(** A target that limits the rate twice and then answers. *)
Definition rate_limited_net (m u : string) (k : nat) : outcome :=
  match k with
  | O | S O => Returned (mkResponse 429 "Too Many Requests" "" None)
  | _ => Returned (mkResponse 200 "ok" "ok" (Some "text/plain"))
  end.

(** A target that cannot be reached. *)
Definition unreachable_net (m u : string) (k : nat) : outcome :=
  Raised ConnectionError.

(** An engine whose crawler and whose download both fail. *)
Definition failing_discovery : Discovery := {|
  DISCOVERY_AVAILABLE := true;
  intelligent_crawler := Some (fun _ _ => Raised Timeout);
  EXTERNAL_AVAILABLE := true;
  auto_download := true;
  load_common_paths := Raised OtherException
|}.

(** An engine whose target never answers. *)
Definition dead_engine : Engine := {|
  request_manager := Some default_manager;
  has_evasion_engine := true;
  stealth_mode := true;
  scan_timeout := 15;
  max_workers := 10;
  urljoin := fun base path => base +:+ path;
  net := fun _ _ _ => Raised Timeout;
  stealth_request := fun _ _ => Returned None;
  session_get := fun _ _ => Raised Timeout;
  intelligent_save := fun _ _ _ _ => Returned true;
  str_exn := fun _ => "timed out"
|}.

(** What is observed at the end of a run. *)
Definition summary (final : option ScanState) : option (bool * nat * Z) :=
  match final with
  | Some st =>
    Some (finished st, length (results st), found_count (counters st))
  | None => None
  end.

End Scenarios.

(* ================================================================== *)
(** * Part II.  Properties                                             *)
(* ================================================================== *)

(** ** Strings *)

Section PyFacts.
Import Py.

Lemma str_map_app f (a b : string) :
  str_map f (a +:+ b) = str_map f a +:+ str_map f b.
Proof. induction a as [|c a IH]; simpl; [done | by rewrite IH]. Qed.

Lemma startswith_app (s p : string) :
  startswith s p = true <-> exists rest, s = p +:+ rest.
Proof.
  revert s. induction p as [|c p IH]; intros s.
  - split; [intros _; by exists s | by destruct s].
  - destruct s as [|d s]; simpl.
    + split; [done | intros [rest H]; discriminate].
    + rewrite andb_true_iff, Ascii.eqb_eq, IH. split.
      * intros [-> [rest ->]]. by exists rest.
      * intros [rest H]. injection H as -> ->. split; [done | by exists rest].
Qed.

(** [contains] is Python's substring test. *)
Lemma contains_unfold (pat s : string) :
  contains pat s =
  startswith s pat ||
    match s with EmptyString => false | String _ s' => contains pat s' end.
Proof. by destruct s. Qed.

Lemma contains_app (pat s : string) :
  contains pat s = true <-> exists pre post, s = pre +:+ pat +:+ post.
Proof.
  induction s as [|c s IH]; rewrite contains_unfold, orb_true_iff, startswith_app.
  - split.
    + intros [[rest H] | ?]; [by exists "", rest | done].
    + intros (pre & post & H). destruct pre; simpl in H; [|discriminate].
      left. by exists post.
  - rewrite IH. split.
    + intros [[rest H] | (pre & post & H)].
      * by exists "", rest.
      * exists (String c pre), post. simpl. by rewrite H.
    + intros (pre & post & H). destruct pre as [|d pre]; simpl in H.
      * left. by exists post.
      * right. exists pre, post. by injection H.
Qed.

Lemma str_map_app_inv f (s a b : string) :
  str_map f s = a +:+ b ->
  exists s1 s2, s = s1 +:+ s2 /\ str_map f s1 = a /\ str_map f s2 = b.
Proof.
  revert s. induction a as [|c a IH]; intros s H; simpl in H.
  - by exists "", s.
  - destruct s as [|d s]; simpl in H; [discriminate|].
    injection H as Hc Hs. destruct (IH _ Hs) as (s1 & s2 & -> & H1 & H2).
    exists (String d s1), s2. simpl. by rewrite Hc, H1.
Qed.

End PyFacts.

(** ** The retry decision *)

Section RetryDecision.
Import Py RequestManager.

Lemma in_ints_iff x l : in_ints x l = true <-> x ∈ l.
Proof.
  unfold in_ints. rewrite existsb_exists. split.
  - intros (y & Hy & Heq). apply Z.eqb_eq in Heq. subst.
    by apply list_elem_of_In.
  - intros H. exists x. split; [by apply list_elem_of_In | apply Z.eqb_refl].
Qed.

Lemma any_in_iff pats s :
  any_in pats s = true <-> exists p, p ∈ pats /\ contains p s = true.
Proof.
  unfold any_in. rewrite existsb_exists.
  split; intros (p & Hp & Hc); exists p; split; try done;
    by apply list_elem_of_In.
Qed.

(** Looking for [ind] in the lowered body is case-insensitive search. *)
Lemma contains_lower_ci ind body :
  contains ind (lower body) = true <-> contains_ci ind body.
Proof.
  rewrite contains_app. unfold contains_ci, lower. split.
  - intros (pre & post & H).
    apply str_map_app_inv in H as (s1 & s23 & -> & H1 & H).
    apply str_map_app_inv in H as (s2 & s3 & -> & H2 & H3).
    by exists s1, s2, s3.
  - intros (pre & mid & post & -> & <-).
    exists (str_map lower_char pre), (str_map lower_char post).
    by rewrite !str_map_app.
Qed.

Lemma waf_signature_iff (r : Response) :
  any_in waf_indicators (lower (text r)) = true <->
  exists ind, ind ∈ waf_indicators /\ contains_ci ind (text r).
Proof.
  rewrite any_in_iff.
  split; intros (p & Hp & Hc); exists p; split; try done;
    by apply contains_lower_ci.
Qed.

Lemma in_ints_pair x a b : in_ints x [a; b] = true <-> x = a \/ x = b.
Proof.
  unfold in_ints. simpl.
  rewrite orb_false_r, orb_true_iff, !Z.eqb_eq. tauto.
Qed.

Lemma should_retry_true_iff (r : Response) (n : Z) :
  fst (_should_retry (Some r) n) = true <-> spec_retry_condition r.
Proof.
  unfold _should_retry, spec_retry_condition. cbv zeta.
  rewrite <- waf_signature_iff.
  destruct (in_ints (status_code r) [429; 420]) eqn:H1.
  { apply in_ints_pair in H1. simpl. tauto. }
  destruct (500 <=? status_code r) eqn:H2.
  { apply Z.leb_le in H2. simpl. tauto. }
  apply Z.leb_gt in H2.
  assert (Hn1 : ¬ (status_code r = 429 \/ status_code r = 420))
    by (rewrite <- in_ints_pair; congruence).
  destruct (in_ints (status_code r) [403; 406]) eqn:H3.
  - apply in_ints_pair in H3.
    destruct (any_in waf_indicators (lower (text r))) eqn:H4; simpl.
    + tauto.
    + split; [done|]. intros [?|[?|[?|[_ H]]]]; [tauto | tauto | lia | done].
  - assert (Hn3 : ¬ (status_code r = 403 \/ status_code r = 406))
      by (rewrite <- in_ints_pair; congruence).
    simpl. split; [done|]. intros [?|[?|[?|[H _]]]]; [tauto | tauto | lia | tauto].
Qed.

(** C1.  For a response with status [s] and attempt index [n], the retry
    decision is "retry" exactly when [s] is 429 or 420, or [s >= 500], or
    [s] is 403 or 406 and the body contains, case-insensitively, one of
    "cloudflare", "waf", "challenge", "captcha", "security"; in every
    other case the decision is [(False, 0)]. *)
Theorem should_retry_decision (r : Response) (n : Z) :
  (fst (_should_retry (Some r) n) = true <-> spec_retry_condition r) /\
  (_should_retry (Some r) n = (false, 0) <-> ¬ spec_retry_condition r).
Proof.
  split; [apply should_retry_true_iff|].
  rewrite <- (should_retry_true_iff r n).
  unfold _should_retry. cbv zeta.
  repeat match goal with
         | |- context [if ?b then _ else _] => destruct b; simpl
         end; split; congruence.
Qed.

Example should_retry_404 n body :
  _should_retry (Some (mkResponse 404 body body None)) n = (false, 0).
Proof. reflexivity. Qed.

Example should_retry_302 n body :
  _should_retry (Some (mkResponse 302 body body None)) n = (false, 0).
Proof. reflexivity. Qed.

Example should_retry_plain_403 n :
  _should_retry (Some (mkResponse 403 "Forbidden" "Forbidden" None)) n
  = (false, 0).
Proof. reflexivity. Qed.

Example should_retry_waf_403 :
  _should_retry (Some (mkResponse 403 "Checking: CAPTCHA" "" None)) 1
  = (true, 8).
Proof. reflexivity. Qed.

Example should_retry_429 :
  _should_retry (Some (mkResponse 429 "" "" None)) 0 = (true, 5).
Proof. reflexivity. Qed.

End RetryDecision.

(** ** The retry loop of [smart_request] *)

Section SmartRequest.
Import Py RequestManager Scenarios.

Lemma attempts_made_app evs1 evs2 :
  attempts_made (evs1 ++ evs2) = (attempts_made evs1 + attempts_made evs2)%nat.
Proof.
  induction evs1 as [|[a|s|b] evs1 IH]; simpl; [done | by rewrite IH | done..].
Qed.

Lemma attempts_made_handler_delay self attempt b :
  attempts_made (handler_delay self attempt b) = 0%nat.
Proof.
  unfold handler_delay, _smart_delay.
  by destruct (attempt <? _), (enable_evasion self).
Qed.

Lemma should_retry_server_error r n :
  status_code r = 500 -> _should_retry (Some r) n = (true, (n + 1) * 3).
Proof. intros H. unfold _should_retry. by rewrite H. Qed.

(** What the loop does when every exception of the HTTP layer is an
    [Exception]: it ends with [return], having sent at most [remaining]
    requests; [None] comes only after all of them; a response that is
    returned is one that the HTTP layer gave. *)
Lemma attempt_loop_returns self net remaining attempt :
  (forall k e, net k = Raised e -> is_Exception e = true) ->
  exists res evs,
    attempt_loop self net remaining attempt = (Returned res, evs) /\
    (attempts_made evs <= remaining)%nat /\
    (res = None -> attempts_made evs = remaining) /\
    (forall r, res = Some r -> exists k, net k = Returned r).
Proof.
  intros Hnet. revert attempt.
  induction remaining as [|remaining IH]; intros attempt.
  { exists None, []. split_and!; [done | simpl; lia | done | done]. }
  destruct (IH (attempt + 1)) as (res & rest & Hloop & Hle & Hnone & Hsome).
  assert (Hcont : forall evs, attempts_made evs = 0%nat ->
    exists res' evs',
      (let '(res0, rest0) := attempt_loop self net remaining (attempt + 1) in
       (res0, EvRequest attempt :: evs ++ rest0)) = (Returned res', evs') /\
      (attempts_made evs' <= S remaining)%nat /\
      (res' = None -> attempts_made evs' = S remaining) /\
      (forall r, res' = Some r -> exists k, net k = Returned r)).
  { intros evs Hevs. exists res, (EvRequest attempt :: evs ++ rest).
    rewrite Hloop. simpl. rewrite attempts_made_app, Hevs. simpl.
    split_and!; [done | lia | | done]. intros H. by rewrite Hnone. }
  cbn [attempt_loop].
  destruct (net (Z.to_nat attempt)) as [response|e] eqn:Hk.
  - destruct (_should_retry (Some response) attempt) as [should_retry wait_time].
    destruct (should_retry && (attempt <? max_retries self - 1)).
    + by apply (Hcont [EvSleep wait_time]).
    + exists (Some response), [EvRequest attempt]. simpl.
      split_and!; [done | lia | done |].
      intros r [= <-]. by exists (Z.to_nat attempt).
  - specialize (Hnet _ _ Hk).
    destruct e; try discriminate;
      apply Hcont, attempts_made_handler_delay.
Qed.

(** C9.  Whatever the URL, the method and the outcomes of the attempts
    (responses, timeouts, connection errors, other exceptions),
    [smart_request] returns: a response that the HTTP layer gave, or
    [None] after all [max_retries] attempts; it never raises. *)
Theorem smart_request_never_raises self net url method :
  (forall m u k e, net m u k = Raised e -> is_Exception e = true) ->
  exists res evs,
    smart_request self net url method = (Returned res, evs) /\
    (attempts_made evs <= Z.to_nat (max_retries self))%nat /\
    (res = None -> attempts_made evs = Z.to_nat (max_retries self)) /\
    (forall r, res = Some r -> exists k, net (upper method) url k = Returned r).
Proof.
  intros Hnet. unfold smart_request.
  apply attempt_loop_returns. intros k e. apply Hnet.
Qed.

Lemma smart_request_never_raises_witness :
  exists res evs,
    smart_request default_manager flaky_net "https://example.test/api" "get"
    = (Returned res, evs) /\
    (attempts_made evs <= Z.to_nat (max_retries default_manager))%nat /\
    (res = None -> attempts_made evs = Z.to_nat (max_retries default_manager)) /\
    (forall r, res = Some r ->
       exists k, flaky_net (upper "get") "https://example.test/api" k = Returned r).
Proof.
  apply (smart_request_never_raises default_manager flaky_net).
  intros m u [|[|k]] e H; simpl in H; by inversion H.
Defined.

Example smart_request_flaky :
  smart_request default_manager flaky_net "https://example.test/api" "get"
  = (Returned (Some (mkResponse 404 "Not Found" "Not Found" None)),
     [EvRequest 0; EvSmartDelay 1; EvRequest 1; EvSmartDelay 3; EvRequest 2]).
Proof. reflexivity. Qed.

(** An interrupt is the one thing that [smart_request] lets through. *)
Example smart_request_interrupt :
  smart_request default_manager (fun _ _ _ => Raised Interrupt) "u" "GET"
  = (Raised Interrupt, [EvRequest 0]).
Proof. reflexivity. Qed.

(** With no attempt allowed the answer is [None] at once. *)
Example smart_request_no_budget net :
  smart_request (mkRequestManager 0 15 true) net "u" "GET" = (Returned None, []).
Proof. reflexivity. Qed.

(** C6.  With [max_retries = 3], against a target that answers every
    attempt with status 500, [smart_request] sends exactly 3 requests and
    returns normally the response of the last attempt, whose status is
    500. *)
Theorem retry_exhaustion self net url method :
  max_retries self = 3 ->
  (forall k, exists r,
      net (upper method) url k = Returned r /\ status_code r = 500) ->
  exists r evs,
    smart_request self net url method = (Returned (Some r), evs) /\
    net (upper method) url 2%nat = Returned r /\
    status_code r = 500 /\
    attempts_made evs = 3%nat.
Proof.
  intros Hmax Hnet. unfold smart_request. rewrite Hmax.
  destruct (Hnet 0%nat) as (r0 & H0 & Hs0).
  destruct (Hnet 1%nat) as (r1 & H1 & Hs1).
  destruct (Hnet 2%nat) as (r2 & H2 & Hs2).
  exists r2. eexists. split_and!; [| done | done |].
  - change (Z.to_nat 3) with 3%nat. cbn [attempt_loop].
    change (Z.to_nat 0) with 0%nat. rewrite H0.
    rewrite (should_retry_server_error r0 0 Hs0), Hmax.
    change (Z.to_nat (0 + 1)) with 1%nat. rewrite H1.
    rewrite (should_retry_server_error r1 (0 + 1) Hs1).
    change (Z.to_nat (0 + 1 + 1)) with 2%nat. rewrite H2.
    rewrite (should_retry_server_error r2 (0 + 1 + 1) Hs2).
    simpl. reflexivity.
  - reflexivity.
Qed.

Lemma retry_exhaustion_witness :
  exists r evs,
    smart_request default_manager always_500 "https://example.test/api" "GET"
    = (Returned (Some r), evs) /\
    always_500 (upper "GET") "https://example.test/api" 2%nat = Returned r /\
    status_code r = 500 /\
    attempts_made evs = 3%nat.
Proof.
  apply (retry_exhaustion default_manager always_500).
  - reflexivity.
  - intros k. eexists. split; reflexivity.
Defined.

Example smart_request_always_500 :
  snd (smart_request default_manager always_500 "https://example.test/api" "GET")
  = [EvRequest 0; EvSleep 3; EvRequest 1; EvSleep 6; EvRequest 2].
Proof. reflexivity. Qed.

End SmartRequest.

(** ** Probing one path: the finding test and the shape of a result *)

Section ProbeResult.
Import Py RequestManager ScannerEngine Scenarios.

Lemma is_finding_html (n : Z) :
  is_finding 200 n "text/html" = (20 <? n).
Proof. unfold is_finding. simpl. by rewrite andb_true_r. Qed.

(** The [success] entry of a returned result is the finding test. *)
Lemma scan_single_path_success self base_url output_dir path response d c :
  fetch self (urljoin self base_url path) = Returned (Some response) ->
  scan_single_path self base_url output_dir path = (Returned d, c) ->
  d !! "success" =
  Some (PBool (is_finding (status_code response) (len (content response))
                          (default "" (content_type_header response)))).
Proof.
  intros Hfetch. unfold scan_single_path. rewrite Hfetch.
  destruct (is_finding _ _ _).
  - destruct (intelligent_save _ _ _ _ _) as [b|e]; [|destruct (is_Exception e)];
      intros [= <- <-]; by simplify_map_eq.
  - intros [= <- <-]. by simplify_map_eq.
Qed.

(** C2 (as stated, it fails).  A page of exactly 20 bytes with status 200
    and content type text/html is not a finding: the test is
    [content_length > 20]. *)
Lemma finding_at_threshold_counterexample :
  is_finding 200 20 "text/html" = false /\
  exists d,
    scan_single_path (stub_engine (html_page "<html>0123456</html>"))
                     "https://example.test" "out" "/page"
    = (Returned d, None) /\
    d !! "content_length" = Some (PInt 20) /\
    d !! "success" = Some (PBool false).
Proof.
  split; [reflexivity|]. eexists. split; [reflexivity|].
  split; reflexivity.
Qed.

(** C2 (amended).  For a response with status 200 and content type
    text/html the result is marked as a finding exactly when the content
    length is greater than 20: with 19 bytes (threshold minus 1) and with
    20 bytes (the threshold) it is not a finding, with 21 bytes it is. *)
Theorem finding_boundary self base_url output_dir path response d c :
  fetch self (urljoin self base_url path) = Returned (Some response) ->
  status_code response = 200 ->
  content_type_header response = Some "text/html" ->
  scan_single_path self base_url output_dir path = (Returned d, c) ->
  (d !! "success" = Some (PBool true) <-> 20 < len (content response)) /\
  (len (content response) = 19 -> d !! "success" = Some (PBool false)) /\
  (len (content response) = 20 -> d !! "success" = Some (PBool false)) /\
  (len (content response) = 21 -> d !! "success" = Some (PBool true)).
Proof.
  intros Hfetch Hstatus Htype Hscan.
  rewrite (scan_single_path_success _ _ _ _ _ _ _ Hfetch Hscan).
  rewrite Hstatus, Htype. simpl default. rewrite is_finding_html.
  split_and!.
  - destruct (20 <? _) eqn:E.
    + apply Z.ltb_lt in E. done.
    + apply Z.ltb_ge in E. split; [done | lia].
  - by intros ->.
  - by intros ->.
  - by intros ->.
Qed.

Lemma finding_boundary_witness :
  let response := html_page "<html>01234567</html>" in
  let self := stub_engine response in
  let d : gmap string pyval :=
    {[ "url" := PStr "https://example.test/page"; "path" := PStr "/page";
       "status_code" := PInt 200; "content_length" := PInt 21;
       "content_type" := PStr "text/html"; "success" := PBool true;
       "saved" := PBool true ]} in
  (d !! "success" = Some (PBool true) <-> 20 < len (content response)) /\
  (len (content response) = 19 -> d !! "success" = Some (PBool false)) /\
  (len (content response) = 20 -> d !! "success" = Some (PBool false)) /\
  (len (content response) = 21 -> d !! "success" = Some (PBool true)).
Proof.
  intros response self d.
  apply (finding_boundary self "https://example.test" "out" "/page"
                          response d (Some FoundCount)).
  - vm_compute. reflexivity.
  - reflexivity.
  - reflexivity.
  - vm_compute. reflexivity.
Defined.

End ProbeResult.

(** ** The scan loop under every schedule *)

Section ScanLoop.
Import Py RequestManager ScannerEngine.

Variable self : Engine.
Variables base_url output_dir : string.
Variable paths : list string.

Local Abbreviation scan := (scan_single_path self base_url output_dir).
Local Abbreviation Inv := (Inv self base_url output_dir paths).
Local Abbreviation InvSerial := (InvSerial self base_url output_dir paths).
Local Abbreviation stored := (stored self base_url output_dir).
Local Abbreviation weight := (weight self base_url output_dir).
Local Abbreviation step := (step self base_url output_dir paths).
Local Abbreviation run := (run self base_url output_dir paths).

(** The closure lets no [Exception] through and returns no empty
    dictionary. *)
Lemma scan_single_path_ret path :
  match fst (scan path) with
  | Returned d => d <> ∅
  | Raised e => is_Exception e = false
  end.
Proof.
  unfold scan_single_path.
  assert (Hne : forall url p m, error_dict url p m <> ∅).
  { intros url p m Heq. apply (f_equal (fun d => d !! "url")) in Heq.
    unfold error_dict in Heq. by simplify_map_eq. }
  destruct (fetch _ _) as [[response|]|e]; simpl.
  - destruct (is_finding _ _ _).
    + destruct (intelligent_save _ _ _ _ _) as [b|e]; [|destruct (is_Exception e) eqn:He];
        simpl; try done;
        intros Heq; apply (f_equal (fun d => d !! "url")) in Heq;
        by simplify_map_eq.
    + simpl. intros Heq; apply (f_equal (fun d => d !! "url")) in Heq;
        by simplify_map_eq.
  - apply Hne.
  - destruct (is_Exception e) eqn:He; simpl; [apply Hne | done].
Qed.

Lemma stored_insert c ts ps i t t' path :
  ts !! i = Some t -> ps !! i = Some path ->
  stored c (<[i := t']> ts) ps
  = stored c ts ps - weight c t path + weight c t' path.
Proof.
  revert ps i. induction ts as [|t0 ts IH]; intros ps i Ht Hp; [done|].
  destruct ps as [|p0 ps]; [done|]. destruct i as [|i]; simpl in *.
  - injection Ht as ->. injection Hp as ->. lia.
  - rewrite (IH ps i Ht Hp). lia.
Qed.

Lemma collected_count_insert ts i t t' :
  ts !! i = Some t ->
  collected_count (<[i := t']> ts)
  = collected_count ts - Z.b2z (is_collected t) + Z.b2z (is_collected t').
Proof.
  unfold collected_count. revert i.
  induction ts as [|t0 ts IH]; intros i Ht; [done|].
  destruct i as [|i]; simpl in *.
  - injection Ht as ->. destruct (is_collected t), (is_collected t'); simpl; lia.
  - specialize (IH i Ht). destruct (is_collected t0); simpl; lia.
Qed.

Lemma weight_range c t path : 0 <= weight c t path <= 1.
Proof. unfold weight. destruct (_ && _); lia. Qed.

Lemma stored_all_collected c ts ps :
  forallb is_collected ts = true -> length ts = length ps ->
  stored c ts ps = Z.of_nat (length (List.filter (increments self base_url output_dir c) ps)).
Proof.
  revert ps. induction ts as [|t ts IH]; intros [|p ps] Hall Hlen;
    simpl in *; try done.
  apply andb_true_iff in Hall as [Ht Hall].
  rewrite (IH ps Hall) by lia.
  unfold weight. destruct t; try done. simpl.
  destruct (increments _ _ _ _ p); simpl; lia.
Qed.

Lemma collected_count_all ts :
  forallb is_collected ts = true ->
  collected_count ts = Z.of_nat (length ts).
Proof.
  unfold collected_count. induction ts as [|t ts IH]; [done|]. simpl.
  intros [Ht Hall]%andb_true_iff. rewrite Ht. simpl. specialize (IH Hall). lia.
Qed.

Lemma in_flight_pos ts i c v ret :
  ts !! i = Some (Incrementing c v ret) -> 0 < in_flight ts.
Proof.
  unfold in_flight. revert i. induction ts as [|t ts IH]; intros i H; [done|].
  destruct i as [|i]; simpl in *.
  - injection H as ->. simpl. lia.
  - specialize (IH i H). destruct (is_incrementing t); simpl; lia.
Qed.

Lemma Inv_initial : Inv (initial paths).
Proof.
  assert (Hs : forall c n ps, stored c (replicate n Queued) ps = 0).
  { intros c n. induction n as [|n IH]; intros [|p ps]; simpl; try done.
    rewrite IH. done. }
  assert (Hc : forall n, collected_count (replicate n Queued) = 0).
  { unfold collected_count. intros n. induction n as [|n IH]; simpl; done. }
  split; simpl.
  - apply length_replicate.
  - by rewrite Hs.
  - intros i v ret [H _]%lookup_replicate. discriminate.
  - intros i c v ret path [H _]%lookup_replicate. discriminate.
  - intros i ret path [H _]%lookup_replicate. discriminate.
  - by rewrite Hc.
Qed.

Lemma weight_not_stored c t path : has_stored t = false -> weight c t path = 0.
Proof. unfold weight. by intros ->. Qed.

Lemma weight_stored c t path :
  has_stored t = true ->
  weight c t path = Z.b2z (increments self base_url output_dir c path).
Proof. unfold weight. intros ->. simpl. by destruct (increments _ _ _ _ _). Qed.

Lemma step_Inv i st st' : Inv st -> step i st = Some st' -> Inv st'.
Proof.
  intros [Hlen Hfound Hloaded Hcounter Hret Hres] Hstep.
  unfold ScannerEngine.step in Hstep.
  destruct (raised st) eqn:Hr; [done|].
  destruct (tasks st !! i) as [t|] eqn:Ht; [|done].
  destruct (paths !! i) as [path|] eqn:Hp; [|by destruct t].
  destruct t as [|c v ret|ret|]; [| | |done].
  - (* a worker takes up the task *)
    destruct (in_flight _ <? _); [|done]. injection Hstep as <-.
    unfold start_task.
    destruct (scan path) as [ret [c|]] eqn:Hscan; split; simpl.
    + by rewrite length_insert.
    + rewrite (stored_insert _ _ _ _ _ _ _ Ht Hp).
      rewrite !weight_not_stored by done. lia.
    + rewrite (stored_insert _ _ _ _ _ _ _ Ht Hp).
      rewrite !weight_not_stored by done.
      intros j v ret' [(-> & Heq & _) | (Hne & H)]%list_lookup_insert_Some.
      * injection Heq as -> <- _. simpl. lia.
      * specialize (Hloaded _ _ _ H). lia.
    + intros j c' v ret' path'
        [(-> & Heq & _) | (Hne & H)]%list_lookup_insert_Some Hp'.
      * injection Heq as <- <- <-. congruence.
      * eauto.
    + intros j ret' path'
        [(-> & Heq & _) | (Hne & H)]%list_lookup_insert_Some Hp'; [done | eauto].
    + rewrite (collected_count_insert _ _ _ _ Ht). simpl. lia.
    + by rewrite length_insert.
    + rewrite (stored_insert _ _ _ _ _ _ _ Ht Hp).
      rewrite weight_not_stored by done.
      pose proof (weight_range FoundCount (Completed ret) path) as Hw. lia.
    + rewrite (stored_insert _ _ _ _ _ _ _ Ht Hp).
      rewrite weight_not_stored by done.
      pose proof (weight_range FoundCount (Completed ret) path) as Hw.
      intros j v ret' [(-> & Heq & _) | (Hne & H)]%list_lookup_insert_Some;
        [done|]. specialize (Hloaded _ _ _ H). lia.
    + intros j c' v ret' path'
        [(-> & Heq & _) | (Hne & H)]%list_lookup_insert_Some Hp'; [done | eauto].
    + intros j ret' path'
        [(-> & Heq & _) | (Hne & H)]%list_lookup_insert_Some Hp'; [|eauto].
      injection Heq as <-. replace path' with path by congruence.
      by rewrite Hscan.
    + rewrite (collected_count_insert _ _ _ _ Ht). simpl. lia.
  - (* the write of the increment *)
    injection Hstep as <-.
    pose proof (Hcounter _ _ _ _ _ Ht Hp) as Hscan.
    assert (Hw : weight FoundCount (Completed ret) path
                 = Z.b2z (bool_decide (c = FoundCount))).
    { rewrite weight_stored by done. unfold increments. by rewrite Hscan. }
    assert (Hst : stored FoundCount (<[i := Completed ret]> (tasks st)) paths
                  = stored FoundCount (tasks st) paths
                    + Z.b2z (bool_decide (c = FoundCount))).
    { rewrite (stored_insert _ _ _ _ _ _ _ Ht Hp), Hw.
      rewrite weight_not_stored by done. lia. }
    split; simpl; rewrite ?Hst.
    + by rewrite length_insert.
    + destruct c; simpl.
      * specialize (Hloaded _ _ _ Ht). lia.
      * lia.
    + intros j v' ret' [(-> & Heq & _) | (Hne & H)]%list_lookup_insert_Some;
        [done|]. specialize (Hloaded _ _ _ H).
      destruct (bool_decide _); simpl; lia.
    + intros j c' v' ret' path'
        [(-> & Heq & _) | (Hne & H)]%list_lookup_insert_Some Hp'; [done | eauto].
    + intros j ret' path'
        [(-> & Heq & _) | (Hne & H)]%list_lookup_insert_Some Hp'; [|eauto].
      injection Heq as <-. replace path' with path by congruence.
      by rewrite Hscan.
    + rewrite (collected_count_insert _ _ _ _ Ht). simpl. lia.
  - (* the collecting thread takes the future *)
    injection Hstep as <-.
    pose proof (Hret _ _ _ Ht Hp) as Hfst.
    pose proof (scan_single_path_ret path) as Hshape. rewrite <- Hfst in Hshape.
    assert (Hst : stored FoundCount (<[i := Collected]> (tasks st)) paths
                  = stored FoundCount (tasks st) paths).
    { rewrite (stored_insert _ _ _ _ _ _ _ Ht Hp).
      rewrite !weight_stored by done. lia. }
    unfold collect. destruct ret as [d|e].
    + rewrite decide_False by done. split; simpl; rewrite ?Hst.
      * by rewrite length_insert.
      * done.
      * intros j v' ret' [(-> & Heq & _) | (Hne & H)]%list_lookup_insert_Some;
          [done | eauto].
      * intros j c' v' ret' path'
          [(-> & Heq & _) | (Hne & H)]%list_lookup_insert_Some Hp'; [done | eauto].
      * intros j ret' path'
          [(-> & Heq & _) | (Hne & H)]%list_lookup_insert_Some Hp'; [done | eauto].
      * rewrite (collected_count_insert _ _ _ _ Ht), length_app. simpl. lia.
    + rewrite Hshape. by split.
Qed.

Lemma run_Inv schedule st st' : Inv st -> run schedule st = Some st' -> Inv st'.
Proof.
  revert st. induction schedule as [|i schedule IH]; intros st HI Hrun; simpl in Hrun.
  - by injection Hrun as <-.
  - destruct (step i st) as [st1|] eqn:Hstep; [|done].
    eauto using step_Inv.
Qed.

(** With a pool of one worker no two increments overlap, and then the
    counter is exact. *)
Lemma step_InvSerial i st st' :
  max_workers self = 1 ->
  Inv st -> InvSerial st -> step i st = Some st' -> InvSerial st'.
Proof.
  intros Hmax [Hlen Hfound Hloaded Hcounter Hret Hres] [Sfound Sloaded Ssingle] Hstep.
  unfold ScannerEngine.step in Hstep.
  destruct (raised st) eqn:Hr; [done|].
  destruct (tasks st !! i) as [t|] eqn:Ht; [|done].
  destruct (paths !! i) as [path|] eqn:Hp; [|by destruct t].
  destruct t as [|c v ret|ret|]; [| | |done].
  - destruct (in_flight _ <? _) eqn:Hfl; [|done]. injection Hstep as <-.
    apply Z.ltb_lt in Hfl.
    assert (Hnone : forall j c v ret,
               tasks st !! j = Some (Incrementing c v ret) -> False).
    { intros j c v ret H. apply in_flight_pos in H. lia. }
    unfold start_task.
    destruct (scan path) as [ret [c|]] eqn:Hscan; split; simpl.
    + rewrite (stored_insert _ _ _ _ _ _ _ Ht Hp).
      rewrite !weight_not_stored by done. lia.
    + intros j v ret' [(-> & Heq & _) | (Hne & H)]%list_lookup_insert_Some.
      * by injection Heq as -> <- _.
      * by destruct (Hnone _ _ _ _ H).
    + intros j k c1 v1 ret1 c2 v2 ret2
        [(-> & _ & _) | (_ & H1)]%list_lookup_insert_Some
        [(-> & _ & _) | (_ & H2)]%list_lookup_insert_Some;
        [done | by destruct (Hnone _ _ _ _ H2)
         | by destruct (Hnone _ _ _ _ H1) | by destruct (Hnone _ _ _ _ H1)].
    + rewrite (stored_insert _ _ _ _ _ _ _ Ht Hp).
      rewrite weight_not_stored, weight_stored by done.
      unfold increments. rewrite Hscan. simpl. lia.
    + intros j v ret' [(-> & Heq & _) | (Hne & H)]%list_lookup_insert_Some;
        [done | by destruct (Hnone _ _ _ _ H)].
    + intros j k c1 v1 ret1 c2 v2 ret2
        [(-> & Heq & _) | (_ & H1)]%list_lookup_insert_Some;
        [done | by destruct (Hnone _ _ _ _ H1)].
  - injection Hstep as <-.
    pose proof (Hcounter _ _ _ _ _ Ht Hp) as Hscan.
    assert (Hst : stored FoundCount (<[i := Completed ret]> (tasks st)) paths
                  = stored FoundCount (tasks st) paths
                    + Z.b2z (bool_decide (c = FoundCount))).
    { rewrite (stored_insert _ _ _ _ _ _ _ Ht Hp).
      rewrite weight_not_stored, weight_stored by done.
      unfold increments. rewrite Hscan. simpl. lia. }
    assert (Hother : forall j c' v' ret',
               <[i := Completed ret]> (tasks st) !! j
               = Some (Incrementing c' v' ret') -> False).
    { intros j c' v' ret' [(-> & Heq & _) | (Hne & H)]%list_lookup_insert_Some;
        [done|]. by specialize (Ssingle _ _ _ _ _ _ _ _ Ht H). }
    split; simpl; rewrite ?Hst.
    + destruct c; simpl.
      * specialize (Sloaded _ _ _ Ht). lia.
      * lia.
    + intros j v' ret' H. by destruct (Hother _ _ _ _ H).
    + intros j k c1 v1 ret1 c2 v2 ret2 H. by destruct (Hother _ _ _ _ H).
  - injection Hstep as <-.
    pose proof (Hret _ _ _ Ht Hp) as Hfst.
    pose proof (scan_single_path_ret path) as Hshape. rewrite <- Hfst in Hshape.
    assert (Hst : stored FoundCount (<[i := Collected]> (tasks st)) paths
                  = stored FoundCount (tasks st) paths).
    { rewrite (stored_insert _ _ _ _ _ _ _ Ht Hp).
      rewrite !weight_stored by done. lia. }
    unfold collect. destruct ret as [d|e].
    + split; simpl; rewrite ?Hst.
      * done.
      * intros j v' ret' [(-> & Heq & _) | (Hne & H)]%list_lookup_insert_Some;
          [done | eauto].
      * intros j k c1 v1 ret1 c2 v2 ret2
          [(-> & Heq & _) | (_ & H1)]%list_lookup_insert_Some; [done|].
        intros [(-> & Heq & _) | (_ & H2)]%list_lookup_insert_Some; [done | eauto].
    + rewrite Hshape. by split.
Qed.

Lemma InvSerial_initial : InvSerial (initial paths).
Proof.
  pose proof Inv_initial as [_ Hfound _ _ _ _]. simpl in Hfound.
  split; simpl.
  - assert (Hs : forall n ps, stored FoundCount (replicate n Queued) ps = 0).
    { intros n. induction n as [|n IH]; intros [|p ps]; simpl; try done.
      by rewrite IH. }
    by rewrite Hs.
  - intros i v ret [H _]%lookup_replicate. discriminate.
  - intros i j c v ret c' v' ret' [H _]%lookup_replicate. discriminate.
Qed.

Lemma run_InvSerial schedule st st' :
  max_workers self = 1 ->
  Inv st -> InvSerial st -> run schedule st = Some st' -> InvSerial st'.
Proof.
  intros Hmax. revert st.
  induction schedule as [|i schedule IH]; intros st HI HS Hrun; simpl in Hrun.
  - by injection Hrun as <-.
  - destruct (step i st) as [st1|] eqn:Hstep; [|done].
    eauto using step_Inv, step_InvSerial.
Qed.

(** C4 (amended).  Whatever the schedule of the workers, when the scan
    has collected every future the list of results has one entry per
    submitted path, and [found_count] is at most the number of findings;
    it is equal to that number when the pool has a single worker, so that
    no two increments overlap. *)
Theorem scan_paths_counts schedule st :
  run schedule (initial paths) = Some st ->
  finished st = true ->
  length (results st) = length paths /\
  found_count (counters st) <= increments_of self base_url output_dir paths FoundCount /\
  (max_workers self = 1 ->
   found_count (counters st) = increments_of self base_url output_dir paths FoundCount).
Proof.
  intros Hrun Hfin. unfold finished in Hfin.
  destruct (raised st) eqn:Hr; [done|].
  pose proof (run_Inv _ _ _ Inv_initial Hrun) as [Hlen Hfound _ _ _ Hres].
  rewrite (stored_all_collected _ _ _ Hfin Hlen) in Hfound.
  rewrite (collected_count_all _ Hfin), Hlen in Hres.
  split_and!; [lia | done |].
  intros Hmax.
  pose proof (run_InvSerial _ _ _ Hmax Inv_initial InvSerial_initial Hrun)
    as [Sfound _ _].
  by rewrite (stored_all_collected _ _ _ Hfin Hlen) in Sfound.
Qed.

End ScanLoop.

Section ScanLoopScenarios.
Import Py RequestManager ScannerEngine Scenarios.

(** C4 (as stated, it fails).  In a scan of 1000 paths, 500 of them
    findings, in which two workers read [found_count] before either
    writes it back, every future is collected and the results are 1000,
    but [found_count] ends at 499: one update is lost. *)
Lemma lost_update_counterexample :
  increments_of race_engine "https://example.test" "out" race_paths FoundCount
  = 500 /\
  summary (run race_engine "https://example.test" "out" race_paths
               race_schedule (initial race_paths))
  = Some (true, 1000%nat, 499).
Proof. split; vm_compute; reflexivity. Qed.

Lemma scan_paths_counts_witness :
  exists st,
    run race_engine "https://example.test" "out" ["/hit"; "/miss"]
        [0; 0; 0; 1; 1]%nat (initial ["/hit"; "/miss"]) = Some st /\
    length (results st) = 2%nat /\
    found_count (counters st)
    <= increments_of race_engine "https://example.test" "out"
                     ["/hit"; "/miss"] FoundCount /\
    (max_workers race_engine = 1 ->
     found_count (counters st)
     = increments_of race_engine "https://example.test" "out"
                     ["/hit"; "/miss"] FoundCount).
Proof.
  eexists. split; [vm_compute; reflexivity|].
  apply (scan_paths_counts race_engine "https://example.test" "out"
           ["/hit"; "/miss"] [0; 0; 0; 1; 1]%nat).
  - vm_compute. reflexivity.
  - vm_compute. reflexivity.
Defined.

Example serial_scan_is_exact :
  summary (run race_engine "https://example.test" "out" race_paths
               serial_schedule (initial race_paths))
  = Some (true, 1000%nat, 500).
Proof. vm_compute. reflexivity. Qed.

End ScanLoopScenarios.

(** ** The shape of a probe result *)

Section ProbeShape.
Import Py RequestManager ScannerEngine Scenarios.

Variable self : Engine.
Variables base_url output_dir : string.

Local Abbreviation scan := (scan_single_path self base_url output_dir).

Lemma error_dict_shape url path message :
  error_dict url path message !! "status_code" = None.
Proof. unfold error_dict. by simplify_map_eq. Qed.

Lemma scan_single_path_error_shape path d c :
  scan path = (Returned d, c) -> error_excludes_status d.
Proof.
  unfold scan_single_path, error_excludes_status.
  destruct (fetch _ _) as [[response|]|e].
  - destruct (is_finding _ _ _);
      [destruct (intelligent_save _ _ _ _ _) as [b|e];
       [|destruct (is_Exception e)] |];
      intros [= <- <-] [x Hx]; by simplify_map_eq.
  - intros [= <- <-] _. apply error_dict_shape.
  - destruct (is_Exception e); [|done].
    intros [= <- <-] _. apply error_dict_shape.
Qed.

(** C8.  A result of [scan_single_path] that carries an error carries no
    status code; and whenever a response was obtained, whatever its
    status, the result carries that status and no error. *)
Theorem probe_result_shape path d c :
  scan path = (Returned d, c) ->
  (is_Some (d !! "error") -> d !! "status_code" = None) /\
  (forall response,
      fetch self (urljoin self base_url path) = Returned (Some response) ->
      d !! "status_code" = Some (PInt (status_code response)) /\
      d !! "error" = None).
Proof.
  unfold scan_single_path.
  destruct (fetch _ _) as [[response|]|e].
  - destruct (is_finding _ _ _).
    + destruct (intelligent_save _ _ _ _ _) as [b|e]; [|destruct (is_Exception e)];
        intros [= <- <-]; (split; [intros [x Hx]; by simplify_map_eq|]);
        intros r [= <-]; by simplify_map_eq.
    + intros [= <- <-]. split; [intros [x Hx]; by simplify_map_eq|].
      intros r [= <-]; by simplify_map_eq.
  - intros [= <- <-]. split; [intros _; apply error_dict_shape | done].
  - destruct (is_Exception e); [|done].
    intros [= <- <-]. split; [intros _; apply error_dict_shape | done].
Qed.

(** The same holds of every entry of [results], in every state that a
    run of the scan loop reaches. *)
Lemma results_shape paths schedule st :
  run self base_url output_dir paths schedule (initial paths) = Some st ->
  Forall error_excludes_status (results st).
Proof.
  assert (Hstep : forall i st st',
    Inv self base_url output_dir paths st ->
    Forall error_excludes_status (results st) ->
    step self base_url output_dir paths i st = Some st' ->
    Forall error_excludes_status (results st')).
  { intros i st0 st' HI HF Hstep. unfold step in Hstep.
    destruct (raised st0); [done|].
    destruct (tasks st0 !! i) as [t|] eqn:Ht; [|done].
    destruct (paths !! i) as [path|] eqn:Hp; [|by destruct t].
    destruct t as [|c v ret|ret|]; [| | |done].
    - destruct (in_flight _ <? _); [|done]. injection Hstep as <-.
      unfold start_task. by destruct (scan path) as [ret [c|]].
    - by injection Hstep as <-.
    - injection Hstep as <-. unfold collect.
      pose proof (inv_ret _ _ _ _ _ HI _ _ _ Ht Hp) as Hret.
      destruct ret as [d|e].
      + simpl. destruct (decide (d = ∅)); [done|].
        apply Forall_app. split; [done|]. apply Forall_singleton.
        destruct (scan path) as [r c] eqn:Hscan. simpl in Hret. subst r.
        by apply (scan_single_path_error_shape _ _ _ Hscan).
      + destruct (is_Exception e); [|done]. simpl.
        apply Forall_app. split; [done|]. apply Forall_singleton.
        intros _. apply error_dict_shape. }
  intros Hrun.
  assert (Hgen : forall st0,
    Inv self base_url output_dir paths st0 ->
    Forall error_excludes_status (results st0) ->
    run self base_url output_dir paths schedule st0 = Some st ->
    Forall error_excludes_status (results st)).
  { clear Hrun. induction schedule as [|i schedule IH]; intros st0 HI HF Hrun;
      simpl in Hrun.
    - by injection Hrun as <-.
    - destruct (step _ _ _ _ i st0) as [st1|] eqn:Hs; [|done].
      eapply IH; [| |done]; eauto using step_Inv. }
  apply (Hgen (initial paths)); [apply Inv_initial | by constructor | done].
Qed.

End ProbeShape.

Section ProbeShapeScenarios.
Import Py RequestManager ScannerEngine Scenarios.

Lemma probe_result_shape_witness :
  let response := mkResponse 503 "Service Unavailable" "Service Unavailable"
                             (Some "text/plain") in
  let self := stub_engine response in
  let d : gmap string pyval :=
    {[ "url" := PStr "https://example.test/api"; "path" := PStr "/api";
       "status_code" := PInt 503; "content_length" := PInt 19;
       "content_type" := PStr "text/plain"; "success" := PBool false ]} in
  (is_Some (d !! "error") -> d !! "status_code" = None) /\
  (forall response,
      fetch self (urljoin self "https://example.test" "/api")
      = Returned (Some response) ->
      d !! "status_code" = Some (PInt (status_code response)) /\
      d !! "error" = None).
Proof.
  intros response self d.
  apply (probe_result_shape self "https://example.test" "out" "/api" d None).
  vm_compute. reflexivity.
Defined.

(** No response: the result carries the error and nothing else. *)
Example probe_request_failed :
  scan_single_path dead_engine "https://example.test" "out" "/api"
  = (Returned (error_dict "https://example.test/api" "/api" "request_failed"),
     Some ErrorCount).
Proof. reflexivity. Qed.

End ProbeShapeScenarios.

(** ** Candidate paths of the scanner engine *)

Section CandidatePaths.
Import Py RequestManager ScannerEngine Scenarios.

Context {rng : Type} `{Random rng}.

Lemma startswith_append (s suffix p : string) :
  startswith s p = true -> startswith (s +:+ suffix) p = true.
Proof.
  revert s. induction p as [|c p IH]; intros s.
  { intros _. by destruct (s +:+ suffix). }
  destruct s as [|d s]; simpl; [done|].
  rewrite !andb_true_iff. intros [Hc Hs]. split; [done | by apply IH].
Qed.

(** Every entry of the catalog starts with a slash. *)
Lemma get_common_paths_prefix p :
  p ∈ get_common_paths -> startswith p "/" = true.
Proof.
  assert (Hall : forallb (fun p => startswith p "/") get_common_paths = true)
    by (vm_compute; reflexivity).
  intros Hp%list_elem_of_In. by apply (proj1 (forallb_forall _ _) Hall).
Qed.

Lemma variations_prefix path r1 r2 p :
  startswith path "/" = true -> p ∈ variations path r1 r2 ->
  startswith p "/" = true.
Proof.
  intros Hpath Hp. unfold variations in Hp.
  repeat (apply elem_of_cons in Hp as [-> | Hp];
          [first [done | by apply startswith_append] |]).
  by apply elem_of_nil in Hp.
Qed.

(** Where the elements of the set built by the loop come from. *)
Lemma natural_variations_loop_elem base_paths acc g p :
  p ∈ fst (natural_variations_loop base_paths acc g) ->
  p ∈ acc \/
  exists path r1 r2,
    path ∈ base_paths /\ _is_suspicious_path path = false /\
    (p = path \/ p ∈ variations path r1 r2).
Proof.
  revert acc g. induction base_paths as [|path rest IH]; intros acc g;
    cbn [natural_variations_loop].
  { by left. }
  destruct (_is_suspicious_path path) eqn:Hsus.
  - intros [?|(q & r1 & r2 & Hq & Hrest)]%IH; [by left | right].
    exists q, r1, r2. split; [by right | done].
  - destruct (randint 1000 9999 g) as [r1 g1].
    destruct (randint 1000000000 9999999999 g1) as [r2 g2].
    intros [Hacc|(q & q1 & q2 & Hq & Hrest)]%IH.
    + apply elem_of_union in Hacc as [Hacc|Hvar].
      * apply elem_of_union in Hacc as [Hacc|Hpath]; [by left | right].
        apply elem_of_singleton in Hpath as ->.
        exists path, r1, r2. split_and!; [by left | done | by left].
      * right. apply elem_of_list_to_set in Hvar.
        exists path, r1, r2. split_and!; [by left | done | by right].
    + right. exists q, q1, q2. split; [by right | done].
Qed.

(** The natural-variation generator keeps the leading slash. *)
Lemma generate_natural_variations_prefix base_paths g p :
  (forall path, path ∈ base_paths -> startswith path "/" = true) ->
  p ∈ fst (generate_natural_variations base_paths g) ->
  startswith p "/" = true.
Proof.
  intros Hbase. unfold generate_natural_variations.
  destruct (natural_variations_loop base_paths ∅ g) as [s g'] eqn:Hloop.
  simpl. intros Hp%elem_of_elements.
  assert (Hp' : p ∈ fst (natural_variations_loop base_paths ∅ g))
    by by rewrite Hloop.
  apply natural_variations_loop_elem in Hp'
    as [Hp'|(path & r1 & r2 & Hpath & _ & [-> | Hvar])].
  - by apply not_elem_of_empty in Hp'.
  - by apply Hbase.
  - eapply variations_prefix; [|done]. by apply Hbase.
Qed.

(** A path that passes the filter contains no pattern of the denylist. *)
Lemma not_suspicious_no_pattern p pat :
  _is_suspicious_path p = false -> pat ∈ suspicious_patterns ->
  contains pat p = false.
Proof.
  unfold _is_suspicious_path. intros Hp Hpat.
  destruct (contains pat p) eqn:Hc; [|done].
  assert (any_in suspicious_patterns p = true); [|congruence].
  apply any_in_iff. by exists pat.
Qed.

(** C7.  No path in the list returned by [advanced_discovery_phase], the
    output of its final filtering step, contains any of the patterns of
    the denylist ("..", ".bak", ".env" and the others). *)
Theorem final_paths_exclude_denylist self target_url g final_paths g' p pat :
  advanced_discovery_phase self target_url g = (Returned final_paths, g') ->
  p ∈ final_paths ->
  pat ∈ suspicious_patterns ->
  contains pat p = false.
Proof.
  unfold advanced_discovery_phase.
  destruct (generate_natural_variations get_common_paths g) as [natural g1].
  destruct (match DISCOVERY_AVAILABLE self, intelligent_crawler self with
            | true, Some crawl => _ | _, _ => _ end) as [all1|e]; [|done].
  destruct (if EXTERNAL_AVAILABLE self && auto_download self then _ else _)
    as [all2|e]; [|done].
  intros [= <- <-] Hp Hpat.
  apply list_elem_of_In, filter_In in Hp as [_ Hp].
  apply negb_true_iff in Hp. by apply not_suspicious_no_pattern.
Qed.

(** The filter drops nothing else: a catalog path that is not suspicious
    is among the final paths. *)
Lemma final_paths_keep_catalog self target_url g final_paths g' p :
  advanced_discovery_phase self target_url g = (Returned final_paths, g') ->
  p ∈ get_common_paths -> _is_suspicious_path p = false ->
  p ∈ final_paths.
Proof.
  unfold advanced_discovery_phase.
  destruct (generate_natural_variations get_common_paths g) as [natural g1].
  assert (Hadd : forall (all : gset string) found all',
             add_filtered all found = Returned all' -> all ⊆ all').
  { intros all [l|e] all'; simpl.
    - intros [= <-]. apply union_subseteq_l.
    - destruct (is_Exception e); [by intros [= <-] | done]. }
  intros Hrun Hp Hsus.
  set (all0 := list_to_set get_common_paths ∪ list_to_set natural) in Hrun.
  assert (H0 : p ∈ all0).
  { apply elem_of_union_l. by apply elem_of_list_to_set. }
  destruct (match DISCOVERY_AVAILABLE self, intelligent_crawler self with
            | true, Some crawl => _ | _, _ => _ end) as [all1|e] eqn:H1;
    [|done].
  assert (H1' : p ∈ all1).
  { destruct (DISCOVERY_AVAILABLE self), (intelligent_crawler self);
      first [by injection H1 as <- | by apply (Hadd _ _ _ H1)]. }
  destruct (if EXTERNAL_AVAILABLE self && auto_download self then _ else _)
    as [all2|e] eqn:H2; [|done].
  assert (H2' : p ∈ all2).
  { destruct (EXTERNAL_AVAILABLE self && auto_download self);
      first [by injection H2 as <- | by apply (Hadd _ _ _ H2)]. }
  injection Hrun as <- <-.
  apply list_elem_of_In, filter_In. split.
  - by apply list_elem_of_In, elem_of_elements.
  - by rewrite Hsus.
Qed.

End CandidatePaths.

Section CandidatePathsScenarios.
Import Py RequestManager ScannerEngine Scenarios.

Lemma final_paths_exclude_denylist_witness :
  exists final_paths g',
    advanced_discovery_phase online_discovery "https://example.test" 0%nat
    = (Returned final_paths, g') /\
    "/api" ∈ final_paths /\
    ".env" ∈ suspicious_patterns /\
    contains ".env" "/api" = false.
Proof.
  destruct (advanced_discovery_phase online_discovery "https://example.test"
                                     0%nat)
    as [[final_paths|e] g'] eqn:Hrun.
  - assert (Hp : "/api" ∈ final_paths).
    { apply (final_paths_keep_catalog _ _ _ _ _ _ Hrun); [|reflexivity].
      apply (bool_decide_unpack _). vm_compute. exact I. }
    assert (Hpat : ".env" ∈ suspicious_patterns).
    { apply (bool_decide_unpack _). vm_compute. exact I. }
    exists final_paths, g'. split_and!; [done | done | done |].
    exact (final_paths_exclude_denylist online_discovery
             "https://example.test" 0%nat final_paths g' "/api" ".env"
             Hrun Hp Hpat).
  - exfalso. unfold advanced_discovery_phase in Hrun.
    destruct (generate_natural_variations get_common_paths 0%nat) as [n g1].
    discriminate Hrun.
Defined.

(** The filter at work on a small candidate set. *)
Example final_filter_small :
  List.filter (fun p => negb (_is_suspicious_path p))
    ["/api"; "/robots.txt"; "/a/../b"; "/.env"; "/backup.bak"; "/login/";
     "/login//"; "/app?v=1"]
  = ["/api"; "/login/"; "/app?v=1"].
Proof. reflexivity. Qed.

End CandidatePathsScenarios.

(** ** Candidate paths of the quantum fuzzer, and the leading slash *)

Section QuantumPaths.
Import Py QuantumFuzzer Scenarios.
Context {rng : Type} `{Random rng}.

Lemma slice_to_NoDup {A} (l : list A) n : NoDup l -> NoDup (slice_to l n).
Proof.
  intros Hl. unfold slice_to.
  destruct (0 <=? n); eapply sublist_NoDup; try apply sublist_take; done.
Qed.

Lemma slice_to_length {A} (l : list A) n :
  0 <= n -> Z.of_nat (length (slice_to l n)) <= n.
Proof.
  intros Hn. unfold slice_to. rewrite (proj2 (Z.leb_le 0 n) Hn).
  rewrite length_take. lia.
Qed.

(** C10.  For every list of base paths and every limit
    [max_paths >= 0], the list returned by [generate_quantum_paths] has
    no duplicates and at most [max_paths] elements. *)
Theorem generate_quantum_paths_bounded base_paths max_paths g :
  0 <= max_paths ->
  NoDup (fst (generate_quantum_paths base_paths max_paths g)) /\
  Z.of_nat (length (fst (generate_quantum_paths base_paths max_paths g)))
  <= max_paths.
Proof.
  intros Hmax. unfold generate_quantum_paths.
  destruct (quantum_loop (take 30 base_paths) max_paths ∅ g) as [s g'].
  simpl. split.
  - apply slice_to_NoDup, NoDup_elements.
  - by apply slice_to_length.
Qed.

Lemma table_prefix (items : list (string * list string)) k v p :
  forallb (fun kv => forallb (fun q => startswith q "/") (snd kv)) items = true ->
  (list_to_map items : gmap string (list string)) !! k = Some v ->
  p ∈ v -> startswith p "/" = true.
Proof.
  intros Hall Hk Hp. apply elem_of_list_to_map_2 in Hk.
  apply list_elem_of_In in Hk.
  pose proof (proj1 (forallb_forall _ _) Hall _ Hk) as Hv. simpl in Hv.
  apply (proj1 (forallb_forall _ _) Hv). by apply list_elem_of_In.
Qed.

Lemma natural_paths_prefix k v p :
  natural_paths !! k = Some v -> p ∈ v -> startswith p "/" = true.
Proof. apply table_prefix. vm_compute. reflexivity. Qed.

Lemma common_patterns_prefix k v p :
  common_patterns !! k = Some v -> p ∈ v -> startswith p "/" = true.
Proof. apply table_prefix. vm_compute. reflexivity. Qed.

Lemma elem_of_take_elem {A} (l : list A) n x : x ∈ take n l -> x ∈ l.
Proof. apply subseteq_take. Qed.

(** The natural-language variations of the fuzzer come from its two
    tables, whose paths all start with a slash. *)
Lemma fuzzer_natural_variations_prefix path p :
  p ∈ QuantumFuzzer.generate_natural_variations path ->
  startswith p "/" = true.
Proof.
  unfold QuantumFuzzer.generate_natural_variations.
  intros Hp%elem_of_elements%elem_of_list_to_set.
  apply elem_of_app in Hp as [Hp|Hp]; [|apply elem_of_app in Hp as [Hp|Hp]].
  - apply list_elem_of_In, in_flat_map in Hp as (k & _ & Hp).
    destruct (natural_paths !! k) as [v|] eqn:Hk; [|done].
    apply list_elem_of_In, elem_of_take_elem in Hp.
    by eapply natural_paths_prefix.
  - destruct (contains "api" (lower path)); [|by apply elem_of_nil in Hp].
    apply elem_of_take_elem in Hp.
    destruct (common_patterns !! "api_patterns") as [v|] eqn:Hk;
      [|by apply elem_of_nil in Hp].
    by eapply common_patterns_prefix.
  - destruct (contains "admin" (lower path)); [|by apply elem_of_nil in Hp].
    apply elem_of_take_elem in Hp.
    destruct (common_patterns !! "wordpress") as [v|] eqn:Hk;
      [|by apply elem_of_nil in Hp].
    by eapply common_patterns_prefix.
Qed.

Lemma startswith_slash p :
  startswith p "/" = true <-> exists s, p = String "/" s.
Proof.
  rewrite startswith_app. split; intros [s ->]; by exists s.
Qed.

Lemma startswith_first c s :
  startswith (String c s) "/" = Ascii.eqb "/" c.
Proof. simpl. destruct s; apply andb_true_r. Qed.

Lemma split_head_prefix is_sep s :
  is_sep "/"%char = false ->
  startswith (default "" (head (split_on is_sep (String "/" s)))) "/" = true.
Proof.
  intros Hsep. simpl. rewrite Hsep.
  destruct (split_on is_sep s) as [|piece pieces]; apply startswith_first.
Qed.

Lemma elem_of_elements_list (l : list string) p :
  p ∈ elements (list_to_set (C := gset string) l) <-> p ∈ l.
Proof. by rewrite elem_of_elements, elem_of_list_to_set. Qed.

Lemma case_variations_prefix path g p :
  startswith path "/" = true ->
  p ∈ fst (generate_case_variations path g) -> startswith p "/" = true.
Proof.
  intros [s ->]%startswith_slash. unfold generate_case_variations.
  cbn [random_case].
  destruct (random_above_half g) as [above g1].
  destruct (random_case s g1) as [rest g2]. cbn [fst].
  rewrite elem_of_elements_list.
  intros Hp.
  repeat (apply elem_of_cons in Hp as [-> | Hp];
          [by (try destruct above; apply startswith_first) |]).
  by apply elem_of_nil in Hp.
Qed.

Lemma parameter_variations_prefix path p :
  startswith path "/" = true ->
  p ∈ generate_parameter_variations path -> startswith p "/" = true.
Proof.
  intros [s ->]%startswith_slash. unfold generate_parameter_variations.
  cbv zeta. rewrite elem_of_elements_list.
  pose proof (split_head_prefix (Ascii.eqb "?") s eq_refl) as Hbase.
  unfold split. set (base_path := default "" _) in *. clearbody base_path.
  intros [Hp|Hp]%elem_of_app.
  - apply list_elem_of_In, in_flat_map in Hp as (param & _ & Hp).
    apply in_flat_map in Hp as (value & _ & Hp). apply list_elem_of_In in Hp.
    repeat (apply elem_of_cons in Hp as [-> | Hp];
            [by apply startswith_append |]).
    by apply elem_of_nil in Hp.
  - apply list_elem_of_In, in_map_iff in Hp as ([param1 param2] & <- & _).
    by apply startswith_append.
Qed.

Lemma extension_variations_prefix path p :
  startswith path "/" = true ->
  p ∈ generate_extension_variations path -> startswith p "/" = true.
Proof.
  intros Hpath. pose proof Hpath as [s ->]%startswith_slash.
  unfold generate_extension_variations.
  cbv zeta. rewrite elem_of_elements_list.
  pose proof (split_head_prefix (Ascii.eqb ".") s eq_refl) as Hbase.
  unfold split. set (no_extension_path := default "" _) in *.
  clearbody no_extension_path.
  intros Hp. apply list_elem_of_In, in_flat_map in Hp as (ext & _ & Hp).
  apply list_elem_of_In in Hp.
  repeat (apply elem_of_cons in Hp as [-> | Hp];
          [by apply startswith_append |]).
  by apply elem_of_nil in Hp.
Qed.

Lemma quote_prefix path :
  startswith path "/" = true -> startswith (quote path) "/" = true.
Proof. intros [s ->]%startswith_slash. apply startswith_first. Qed.

Lemma combined_variations_prefix path p :
  startswith path "/" = true ->
  p ∈ generate_combined_variations path -> startswith p "/" = true.
Proof.
  intros Hpath. unfold generate_combined_variations. cbv zeta.
  rewrite elem_of_elements_list.
  change (apply_encoding path "url") with (quote path).
  change (apply_encoding (path +:+ "../") "url") with (quote (path +:+ "../")).
  destruct (truthy (quote path) && truthy (path +:+ "../"));
    [|by intros ?%elem_of_nil].
  intros Hp. repeat (apply elem_of_cons in Hp as [-> | Hp]).
  - by apply startswith_append, quote_prefix.
  - by apply quote_prefix, startswith_append.
  - by apply elem_of_nil in Hp.
Qed.

(** The URL encodings keep the leading slash, which [quote] leaves as it
    is. *)
Lemma url_encodings_prefix path p :
  startswith path "/" = true ->
  p ∈ encodings_of path "url" \/ p ∈ encodings_of path "double_url" ->
  startswith p "/" = true.
Proof.
  intros Hpath [Hp|Hp]; unfold encodings_of in Hp; cbv zeta in Hp.
  - change (apply_encoding path "url") with (quote path) in Hp.
    change (apply_encoding (quote path) "url") with (quote (quote path)) in Hp.
    destruct (truthy (quote path) && negb (String.eqb (quote path) path));
      [|by apply elem_of_nil in Hp].
    apply elem_of_cons in Hp as [->|Hp]; [by apply quote_prefix|].
    cbn [String.eqb Ascii.eqb Bool.eqb negb andb] in Hp.
    destruct (truthy (quote (quote path))); [|by apply elem_of_nil in Hp].
    apply list_elem_of_singleton in Hp as ->. by do 2 apply quote_prefix.
  - change (apply_encoding path "double_url") with (quote (quote path)) in Hp.
    destruct (truthy (quote (quote path))
              && negb (String.eqb (quote (quote path)) path));
      [|by apply elem_of_nil in Hp].
    apply elem_of_cons in Hp as [->|Hp]; [by do 2 apply quote_prefix|].
    cbn [String.eqb Ascii.eqb Bool.eqb negb andb] in Hp.
    by apply elem_of_nil in Hp.
Qed.

(** A traversal string put between the parts of a path comes after the
    first part, which is empty for a path with a leading slash. *)
Lemma traversal_insertions_prefix path traversal_char p :
  startswith path "/" = true ->
  p ∈ traversal_insertions path traversal_char ->
  startswith p "/" = true.
Proof.
  intros [s ->]%startswith_slash. unfold traversal_insertions.
  destruct (contains "/" (String "/" s)); [|by intros ?%elem_of_nil].
  cbv zeta. unfold split. cbn [split_on]. rewrite Ascii.eqb_refl.
  set (rest := split_on (Ascii.eqb "/") s).
  set (piece := strip traversal_char "/").
  intros Hp. apply list_elem_of_In, in_map_iff in Hp as (i & <- & Hi).
  apply in_seq in Hi as [Hi _]. destruct i as [|i]; [lia|].
  unfold list_insert_at. cbn [take drop app].
  destruct (take i rest ++ piece :: drop i rest)%list as [|y l] eqn:Hl.
  { by destruct (take i rest). }
  unfold join. cbn [String.concat].
  apply startswith_slash. by eexists.
Qed.

Lemma b64encode_first c s :
  exists r, b64encode (String c s) = String (b64_char (N_of_ascii c / 4)) r.
Proof. destruct s as [|b [|d s]]; by eexists. Qed.

Lemma hex_first c s :
  exists r, hex (String c s) = String (hex_digit false (N_of_ascii c / 16)) r.
Proof. by eexists. Qed.

Lemma percent_u_first c s :
  exists r, str_concat_map percent_u (String c s) = String "%" r.
Proof. by eexists. Qed.

Lemma html_entity_first c s :
  exists r, str_concat_map html_entity_char (String c s) = String "&" r.
Proof. by eexists. Qed.

(** The members of [encodings_of]: the encoding of the path and the
    encoding of that encoding. *)
Lemma encodings_of_elem path encoding p :
  p ∈ encodings_of path encoding ->
  p = apply_encoding path encoding
  \/ p = apply_encoding (apply_encoding path encoding) encoding.
Proof.
  unfold encodings_of. cbv zeta.
  destruct (truthy _ && negb _); [|by intros ?%elem_of_nil].
  intros [->|Hp]%elem_of_cons; [by left|].
  destruct (negb _); [|by apply elem_of_nil in Hp].
  destruct (truthy _); [|by apply elem_of_nil in Hp].
  apply list_elem_of_singleton in Hp as ->. by right.
Qed.

(** The other encodings start with a character of their alphabet, never
    with a slash. *)
Lemma other_encodings_unprefixed path encoding p :
  startswith path "/" = true ->
  encoding ∈ ["base64"; "hex"; "unicode"; "html_entity"] ->
  p ∈ encodings_of path encoding ->
  startswith p "/" = false.
Proof.
  intros [s ->]%startswith_slash Henc Hp%encodings_of_elem.
  repeat (apply elem_of_cons in Henc as [->|Henc]);
    [| | | |by apply elem_of_nil in Henc].
  - change (apply_encoding (apply_encoding (String "/" s) "base64") "base64")
      with (b64encode (b64encode (String "/" s))) in Hp.
    change (apply_encoding (String "/" s) "base64")
      with (b64encode (String "/" s)) in Hp.
    destruct (b64encode_first "/" s) as [r1 H1]. rewrite H1 in Hp.
    destruct (b64encode_first (b64_char (N_of_ascii "/" / 4)) r1) as [r2 H2].
    rewrite H2 in Hp.
    destruct Hp as [->| ->]; rewrite startswith_first; by vm_compute.
  - change (apply_encoding (apply_encoding (String "/" s) "hex") "hex")
      with (hex (hex (String "/" s))) in Hp.
    change (apply_encoding (String "/" s) "hex")
      with (hex (String "/" s)) in Hp.
    destruct (hex_first "/" s) as [r1 H1]. rewrite H1 in Hp.
    destruct (hex_first (hex_digit false (N_of_ascii "/" / 16)) r1)
      as [r2 H2].
    rewrite H2 in Hp.
    destruct Hp as [->| ->]; rewrite startswith_first; by vm_compute.
  - change (apply_encoding (apply_encoding (String "/" s) "unicode") "unicode")
      with (str_concat_map percent_u (str_concat_map percent_u (String "/" s))) in Hp.
    change (apply_encoding (String "/" s) "unicode")
      with (str_concat_map percent_u (String "/" s)) in Hp.
    destruct (percent_u_first "/" s) as [r1 H1]. rewrite H1 in Hp.
    destruct (percent_u_first "%" r1) as [r2 H2]. rewrite H2 in Hp.
    destruct Hp as [->| ->]; by rewrite startswith_first.
  - change (apply_encoding (apply_encoding (String "/" s) "html_entity") "html_entity")
      with (str_concat_map html_entity_char (str_concat_map html_entity_char (String "/" s))) in Hp.
    change (apply_encoding (String "/" s) "html_entity")
      with (str_concat_map html_entity_char (String "/" s)) in Hp.
    destruct (html_entity_first "/" s) as [r1 H1]. rewrite H1 in Hp.
    destruct (html_entity_first "&" r1) as [r2 H2]. rewrite H2 in Hp.
    destruct Hp as [->| ->]; by rewrite startswith_first.
Qed.

Lemma unprefixed_states_no_prefix path p :
  startswith path "/" = true ->
  p ∈ unprefixed_states path -> startswith p "/" = false.
Proof.
  intros Hpath [Hp|Hp]%elem_of_app.
  - apply list_elem_of_In, in_flat_map in Hp as (encoding & Henc & Hp).
    apply (other_encodings_unprefixed path encoding);
      [done | by apply list_elem_of_In | by apply list_elem_of_In].
  - apply list_elem_of_In, in_map_iff in Hp as (t & <- & Ht).
    cbn [List.filter special_chars startswith Ascii.eqb Bool.eqb negb andb]
      in Ht.
    apply list_elem_of_In in Ht.
    repeat (apply elem_of_cons in Ht as [->|Ht]; [reflexivity|]).
    by apply elem_of_nil in Ht.
Qed.

(** Every quantum state of a path with a leading slash keeps the slash
    or is one of [unprefixed_states]. *)
Lemma quantum_states_cover path g p :
  startswith path "/" = true ->
  p ∈ fst (generate_quantum_states path g) ->
  startswith p "/" = true \/ p ∈ unprefixed_states path.
Proof.
  intros Hpath. unfold generate_quantum_states. cbv zeta.
  pose proof (case_variations_prefix path g p Hpath) as Hcase.
  destruct (generate_case_variations path g) as [case_variations g1].
  cbn [fst] in *. rewrite elem_of_elements.
  assert (Hstates : forall (states : gset string),
    (p ∈ states ->
     startswith p "/" = true \/ p ∈ unprefixed_states path) ->
    p ∈ (if looks_like_api path
         then states ∪ list_to_set (generate_parameter_variations path)
         else states) ->
    startswith p "/" = true \/ p ∈ unprefixed_states path).
  { intros states Hs. destruct (looks_like_api path); [|done].
    intros [Hp|Hp%elem_of_list_to_set]%elem_of_union; [by apply Hs|].
    left. by apply (parameter_variations_prefix path). }
  intros [[Hp|Hp%elem_of_list_to_set]%elem_of_union
         |Hp%elem_of_list_to_set]%elem_of_union.
  - revert Hp. apply Hstates.
    intros [[[Hp|Hp%elem_of_list_to_set]%elem_of_union
            |Hp%elem_of_list_to_set]%elem_of_union
           |Hp%elem_of_list_to_set]%elem_of_union.
    + apply elem_of_singleton in Hp as ->. by left.
    + unfold generate_all_encodings, encoding_methods in Hp.
      apply list_elem_of_In, in_flat_map in Hp as (encoding & Henc & Hp).
      apply list_elem_of_In in Henc, Hp.
      assert (Hother : encoding ∈ ["base64"; "hex"; "unicode"; "html_entity"]
                       -> p ∈ unprefixed_states path).
      { intros Hin. apply elem_of_app. left.
        apply list_elem_of_In, in_flat_map. exists encoding.
        split; by apply list_elem_of_In. }
      apply elem_of_cons in Henc as [->|Henc];
        [left; apply (url_encodings_prefix path); [done | by left]|].
      apply elem_of_cons in Henc as [->|Henc];
        [right; apply Hother; by left|].
      apply elem_of_cons in Henc as [->|Henc];
        [right; apply Hother; right; by left|].
      apply elem_of_cons in Henc as [->|Henc];
        [right; apply Hother; do 2 right; by left|].
      apply elem_of_cons in Henc as [->|Henc];
        [left; apply (url_encodings_prefix path); [done | by right]|].
      apply elem_of_cons in Henc as [->|Henc];
        [right; apply Hother; do 3 right; by left|].
      by apply elem_of_nil in Henc.
    + unfold generate_traversal_variations in Hp.
      rewrite elem_of_elements_list in Hp.
      apply list_elem_of_In, in_flat_map in Hp as (t & Ht & Hp).
      apply list_elem_of_In in Hp.
      apply elem_of_cons in Hp as [->|Hp];
        [left; by apply startswith_append|].
      apply elem_of_cons in Hp as [->|Hp];
        [|left; by apply (traversal_insertions_prefix path t)].
      destruct (startswith t "/") eqn:Hslash;
        [left; by apply startswith_append|].
      right. apply elem_of_app. right.
      apply list_elem_of_In, in_map_iff. exists t. split; [done|].
      apply filter_In. split; [done|]. by rewrite Hslash.
    + left. by apply Hcase.
  - left. by apply (extension_variations_prefix path).
  - left. by apply (combined_variations_prefix path).
Qed.

(** C3 (amended).  Every path of the base catalog starts with a slash.
    When the base paths start with a slash, so does every path produced
    from them by the natural-variation generator of the scanner engine
    and, in the quantum fuzzer, by the natural-language, case, parameter,
    extension and combined variations, by the encodings [url] and
    [double_url], by a traversal string put after the path or between its
    parts, and by a traversal string with a leading slash put in front of
    it.  A quantum state of such a base path lacks the leading slash
    exactly when it is one of the others: an encoding by [base64], [hex],
    [unicode] or [html_entity], or a traversal string without a leading
    slash put in front of the path. *)
Theorem candidate_paths_prefix base_paths g g' p :
  (forall path, path ∈ base_paths -> startswith path "/" = true) ->
  (p ∈ ScannerEngine.get_common_paths \/
   p ∈ fst (ScannerEngine.generate_natural_variations base_paths g) \/
   (exists path, path ∈ base_paths /\
      (p ∈ QuantumFuzzer.generate_natural_variations path \/
       p ∈ fst (generate_case_variations path g') \/
       p ∈ generate_parameter_variations path \/
       p ∈ generate_extension_variations path \/
       p ∈ generate_combined_variations path \/
       p ∈ encodings_of path "url" \/
       p ∈ encodings_of path "double_url" \/
       (exists traversal_char, traversal_char ∈ special_chars /\
          (p = path +:+ traversal_char \/
           p ∈ traversal_insertions path traversal_char \/
           (startswith traversal_char "/" = true /\
            p = traversal_char +:+ path))))) ->
   startswith p "/" = true) /\
  (forall path, path ∈ base_paths ->
     p ∈ fst (generate_quantum_states path g') ->
     (startswith p "/" = false <-> p ∈ unprefixed_states path)).
Proof.
  intros Hbase. split.
  - intros [Hp | [Hp | (path & Hpath & Hp)]].
    + by apply get_common_paths_prefix.
    + by eapply generate_natural_variations_prefix.
    + specialize (Hbase _ Hpath).
      destruct Hp as [Hp|[Hp|[Hp|[Hp|[Hp|[Hp|[Hp|(t & Ht & Hp)]]]]]]].
      * by apply (fuzzer_natural_variations_prefix path).
      * by apply (case_variations_prefix path g').
      * by apply (parameter_variations_prefix path).
      * by apply (extension_variations_prefix path).
      * by apply (combined_variations_prefix path).
      * apply (url_encodings_prefix path); [done | by left].
      * apply (url_encodings_prefix path); [done | by right].
      * destruct Hp as [->|[Hp|[Hslash ->]]].
        -- by apply startswith_append.
        -- by apply (traversal_insertions_prefix path t).
        -- by apply startswith_append.
  - intros path Hpath Hp. specialize (Hbase _ Hpath). split.
    + intros Hno.
      destruct (quantum_states_cover path g' p Hbase Hp) as [Hyes|Hin];
        [congruence | done].
    + by apply unprefixed_states_no_prefix.
Qed.

End QuantumPaths.

Section QuantumPathsScenarios.
Import Py QuantumFuzzer Scenarios.

Lemma generate_quantum_paths_bounded_witness :
  0 <= 5 /\
  NoDup (fst (generate_quantum_paths ["/login"] 5 0%nat)) /\
  Z.of_nat (length (fst (generate_quantum_paths ["/login"] 5 0%nat))) <= 5.
Proof.
  split; [lia|].
  apply (generate_quantum_paths_bounded ["/login"] 5 0%nat). lia.
Defined.

Example generate_quantum_paths_login :
  fst (generate_quantum_paths ["/login"] 5 0%nat)
  = ["///login"; "//login"; "/.//login"; "/./login"; "/..//login"].
Proof. vm_compute. reflexivity. Qed.

(** With a negative limit the slice drops the last paths instead. *)
Example slice_to_negative : slice_to ["/a"; "/b"; "/c"] (-1) = ["/a"; "/b"].
Proof. reflexivity. Qed.

(** C3 (as stated, it fails).  From the base path "/api", which starts
    with a slash, the quantum fuzzer produces "..//api" (a traversal
    string put in front) and "L2FwaQ==" (the base64 encoding), which do
    not. *)
Lemma quantum_states_prefix_counterexample :
  startswith "/api" "/" = true /\
  "..//api" ∈ fst (generate_quantum_states "/api" 0%nat) /\
  startswith "..//api" "/" = false /\
  "L2FwaQ==" ∈ fst (generate_quantum_paths ["/api"] 100 0%nat) /\
  startswith "L2FwaQ==" "/" = false.
Proof.
  split_and!; try reflexivity;
    apply (bool_decide_unpack _); vm_compute; exact I.
Qed.

Lemma candidate_paths_prefix_witness :
  (forall path, path ∈ ["/api/users"] -> startswith path "/" = true) /\
  "/./" ∈ special_chars /\
  "/api/./users" ∈ traversal_insertions "/api/users" "/./" /\
  startswith "/api/./users" "/" = true /\
  ("%u002f%u0061%u0070%u0069%u002f%u0075%u0073%u0065%u0072%u0073"
   ∈ unprefixed_states "/api/users").
Proof.
  assert (Hbase : forall path,
             path ∈ ["/api/users"] -> startswith path "/" = true).
  { intros path Hpath. apply list_elem_of_singleton in Hpath. by subst. }
  assert (Ht : "/./" ∈ special_chars).
  { apply (bool_decide_unpack _). vm_compute. exact I. }
  assert (Hp : "/api/./users" ∈ traversal_insertions "/api/users" "/./").
  { apply (bool_decide_unpack _). vm_compute. exact I. }
  assert (Hq : "%u002f%u0061%u0070%u0069%u002f%u0075%u0073%u0065%u0072%u0073"
               ∈ fst (generate_quantum_states "/api/users" 0%nat)).
  { apply (bool_decide_unpack _). vm_compute. exact I. }
  pose proof (candidate_paths_prefix (rng := nat) ["/api/users"]
                0%nat 0%nat "/api/./users" Hbase) as [Hkept _].
  pose proof (candidate_paths_prefix (rng := nat) ["/api/users"]
                0%nat 0%nat
                "%u002f%u0061%u0070%u0069%u002f%u0075%u0073%u0065%u0072%u0073"
                Hbase) as [_ Hlost].
  split_and!; [done | done | done | |].
  - apply Hkept. right. right. exists "/api/users". split; [by left|].
    do 7 right. exists "/./". split; [done|]. right. by left.
  - apply (Hlost "/api/users"); [by left | done | reflexivity].
Defined.

(** The suspicious base path is skipped; the other one gives its 17
    variations. *)
Example scanner_natural_variations_api :
  let produced :=
    fst (ScannerEngine.generate_natural_variations ["/api"; "/.env"] 0%nat) in
  length produced = 17%nat /\
  forallb (fun p => bool_decide (p ∈ produced))
          (ScannerEngine.variations "/api" 1000 1000000001) = true.
Proof. vm_compute. done. Qed.

End QuantumPathsScenarios.

(** ** Loading and validating the configuration *)

Section Configuration.
Import Py ConfigLoader.

(** The equations of [_deep_merge], as the loop of the source reads. *)
Lemma _deep_merge_nil base : _deep_merge base [] = base.
Proof. reflexivity. Qed.

Lemma _deep_merge_cons base key value update :
  _deep_merge base ((key, value) :: update)
  = _deep_merge
      (match dict_get key base, value with
       | Some (VDict b), VDict u => dict_set key (VDict (_deep_merge b u)) base
       | _, _ => dict_set key value base
       end) update.
Proof.
  unfold _deep_merge. cbn [merge_into].
  destruct (dict_get key base) as [[]|], value; reflexivity.
Qed.

Lemma read_items_exception config items e :
  read_items config items = Raised e -> is_Exception e = true.
Proof.
  induction items as [|[sec key] items IH]; simpl; [done|].
  assert (Hsub : forall v k e, subscript v k = Raised e -> is_Exception e = true).
  { intros v k e'. unfold subscript.
    destruct v; try by intros [= <-].
    destruct (dict_get k items0); [done | by intros [= <-]]. }
  destruct (subscript config sec) as [s|e1] eqn:H1.
  - destruct (subscript s key) as [w|e2] eqn:H2; [done|].
    intros [= <-]. eauto.
  - intros [= <-]. eauto.
Qed.

(** [load_config] returns a configuration on every input, and the
    issues it prints for a dictionary are those of validation. *)
Lemma load_config_returns file :
  exists cfg issues, load_config file = (Returned cfg, issues).
Proof.
  unfold load_config. destruct file as [| | |loaded]; eauto.
  destruct (if truth loaded then loaded else VDict []); eauto.
  destruct (_print_config_summary _) as [[]|e] eqn:Hsum; eauto.
  apply read_items_exception in Hsum. rewrite Hsum. eauto.
Qed.

Lemma load_config_issues update :
  snd (load_config (Parsed (VDict update)))
  = _validate_config (VDict (_deep_merge DEFAULT_CONFIG update)).
Proof.
  unfold load_config.
  assert (Huser : (if truth (VDict update) then VDict update else VDict [])
                  = VDict update) by by destruct update.
  rewrite Huser.
  destruct (_print_config_summary _) as [[]|e]; [done|].
  by destruct (is_Exception e).
Qed.

Lemma below_int z lo : below (VInt z) (inject_Z lo) = true <-> z < lo.
Proof.
  simpl. rewrite negb_true_iff, <- not_true_iff_false, Qle_bool_iff, <- Zle_Qle.
  lia.
Qed.

Lemma above_int z hi : above (VInt z) (inject_Z hi) = true <-> hi < z.
Proof.
  simpl. rewrite negb_true_iff, <- not_true_iff_false, Qle_bool_iff, <- Zle_Qle.
  lia.
Qed.

Lemma check_rule_int config key lo hi z :
  _get_nested_value config key = Some (VInt z) ->
  check_rule config (mkRule key [TInt] (inject_Z lo) (inject_Z hi))
  = ((if z <? lo then [BelowMinimum key (VInt z) (inject_Z lo)] else [])
     ++ (if hi <? z then [AboveMaximum key (VInt z) (inject_Z hi)] else []))%list.
Proof.
  intros Hget. unfold check_rule. cbn [rule_key rule_type rule_min rule_max].
  rewrite Hget. cbn [existsb isinstance orb negb].
  f_equal.
  - destruct (z <? lo) eqn:E.
    + apply Z.ltb_lt, below_int in E. by rewrite E.
    + apply Z.ltb_ge in E. destruct (below _ _) eqn:B; [|done].
      apply below_int in B. lia.
  - destruct (hi <? z) eqn:E.
    + apply Z.ltb_lt, above_int in E. by rewrite E.
    + apply Z.ltb_ge in E. destruct (above _ _) eqn:B; [|done].
      apply above_int in B. lia.
Qed.

Lemma documented_rule key lo hi :
  (key, lo, hi) ∈ documented_ranges ->
  mkRule key [TInt] (inject_Z lo) (inject_Z hi) ∈ VALIDATION_RULES.
Proof.
  unfold documented_ranges. intros Hk.
  repeat (apply elem_of_cons in Hk as [[= -> -> ->] | Hk];
          [unfold VALIDATION_RULES; set_solver |]).
  by apply elem_of_nil in Hk.
Qed.

(** C5 (amended).  When the loaded configuration holds a value outside
    the documented range for [max_workers] (1 to 50), [timeout] (5 to 60)
    or [max_retries] (1 to 10), [load_config] does not fail: it returns a
    configuration, and the validation issues that it prints include one
    that names the field and the bound that its value violates. *)
Theorem out_of_range_is_reported update key lo hi z :
  (key, lo, hi) ∈ documented_ranges ->
  _get_nested_value (VDict (_deep_merge DEFAULT_CONFIG update)) key
  = Some (VInt z) ->
  z < lo \/ hi < z ->
  exists cfg issues,
    load_config (Parsed (VDict update)) = (Returned cfg, issues) /\
    ((z < lo /\ BelowMinimum key (VInt z) (inject_Z lo) ∈ issues) \/
     (hi < z /\ AboveMaximum key (VInt z) (inject_Z hi) ∈ issues)).
Proof.
  intros Hkey Hget Hrange.
  destruct (load_config_returns (Parsed (VDict update))) as (cfg & issues & Hload).
  exists cfg, issues. split; [done|].
  pose proof (load_config_issues update) as Hissues.
  rewrite Hload in Hissues. simpl in Hissues. subst issues.
  assert (Hsub : forall i,
             i ∈ check_rule (VDict (_deep_merge DEFAULT_CONFIG update))
                   (mkRule key [TInt] (inject_Z lo) (inject_Z hi)) ->
             i ∈ _validate_config (VDict (_deep_merge DEFAULT_CONFIG update))).
  { intros i Hi. unfold _validate_config.
    apply list_elem_of_In, in_flat_map. eexists. split.
    - apply list_elem_of_In, documented_rule, Hkey.
    - by apply list_elem_of_In. }
  rewrite (check_rule_int _ _ _ _ _ Hget) in Hsub.
  destruct Hrange as [Hlo | Hhi].
  - left. split; [done|]. apply Hsub.
    rewrite (proj2 (Z.ltb_lt z lo) Hlo). apply elem_of_app. left. by left.
  - right. split; [done|]. apply Hsub.
    rewrite (proj2 (Z.ltb_lt hi z) Hhi). apply elem_of_app. right. by left.
Qed.

(** C5 (as stated, it fails).  With [max_workers: 100] in the file,
    [load_config] returns normally; validation prints that the value is
    above the maximum of 50, and the configuration that is returned still
    holds 100. *)
Lemma config_out_of_range_counterexample :
  exists cfg,
    load_config
      (Parsed (VDict [("scanning", VDict [("max_workers", VInt 100)])]))
    = (Returned cfg,
       [AboveMaximum "scanning.max_workers" (VInt 100) (inject_Z 50)]) /\
    _get_nested_value cfg "scanning.max_workers" = Some (VInt 100).
Proof. eexists. split; vm_compute; reflexivity. Qed.

Lemma out_of_range_is_reported_witness :
  let update := [("scanning", VDict [("timeout", VInt 2)])] in
  ("scanning.timeout", 5, 60) ∈ documented_ranges /\
  _get_nested_value (VDict (_deep_merge DEFAULT_CONFIG update))
                    "scanning.timeout" = Some (VInt 2) /\
  exists cfg issues,
    load_config (Parsed (VDict update)) = (Returned cfg, issues) /\
    ((2 < 5 /\ BelowMinimum "scanning.timeout" (VInt 2) (inject_Z 5) ∈ issues)
     \/ (60 < 2 /\
         AboveMaximum "scanning.timeout" (VInt 2) (inject_Z 60) ∈ issues)).
Proof.
  intros update.
  assert (Hkey : ("scanning.timeout", 5, 60) ∈ documented_ranges).
  { apply (bool_decide_unpack _). vm_compute. exact I. }
  assert (Hget : _get_nested_value (VDict (_deep_merge DEFAULT_CONFIG update))
                                   "scanning.timeout" = Some (VInt 2))
    by (vm_compute; reflexivity).
  split_and!; [done | done |].
  apply (out_of_range_is_reported update "scanning.timeout" 5 60 2 Hkey Hget).
  left. lia.
Defined.

(** A section replaced by a scalar breaks the summary; the default
    configuration is returned. *)
Example load_config_scalar_section :
  load_config (Parsed (VDict [("evasion", VStr "off")]))
  = (Returned (VDict DEFAULT_CONFIG), []).
Proof. vm_compute. reflexivity. Qed.

(** A [bool] passes for an [int]; a string does not. *)
Example validate_types :
  _validate_config
    (VDict (_deep_merge DEFAULT_CONFIG
              [("scanning", VDict [("max_workers", VBool true);
                                   ("timeout", VStr "invalid")])]))
  = [WrongType "scanning.timeout" [TInt] "str"].
Proof. vm_compute. reflexivity. Qed.

Example deep_merge_keeps_defaults :
  dict_get "scanning"
    (_deep_merge DEFAULT_CONFIG [("scanning", VDict [("timeout", VInt 30)])])
  = Some (VDict [
     ("max_workers", int_ 10);
     ("timeout", VInt 30);
     ("max_retries", int_ 3);
     ("rate_limit_delay", float_ 1);
     ("max_paths_per_scan", int_ 1000);
     ("concurrent_requests", int_ 5);
     ("respect_robots_txt", VBool false)]).
Proof. reflexivity. Qed.

End Configuration.

(** ** More on the retry loop *)

Section RetryLoop.
Import Py RequestManager Scenarios.

Variable self : RequestManager.
Variable net : nat -> outcome.

Lemma should_retry_attempt r n m :
  fst (_should_retry (Some r) n) = fst (_should_retry (Some r) m).
Proof.
  unfold _should_retry. cbv zeta.
  by repeat match goal with
            | |- context [if ?b then _ else _] => destruct b
            end.
Qed.

Lemma should_retry_wait r n :
  0 <= n ->
  fst (_should_retry (Some r) n) = true ->
  3 * (n + 1) <= snd (_should_retry (Some r) n) <= 5 * (n + 1).
Proof.
  intros Hn. unfold _should_retry. cbv zeta.
  repeat match goal with
         | |- context [if ?b then _ else _] => destruct b
         end; simpl; intros; try done; lia.
Qed.

Lemma retryable_response r n :
  retryable (Returned r) = fst (_should_retry (Some r) n).
Proof. apply should_retry_attempt. Qed.

(** The loop from attempt [a] on: after [k] outcomes that lead to a new
    attempt, a response that does not is returned. *)
Lemma attempt_loop_first_final k : forall remaining a r,
  (k < remaining)%nat ->
  Z.of_nat (a + k) < max_retries self ->
  (forall j, (j < k)%nat -> retryable (net (a + j)) = true) ->
  net (a + k)%nat = Returned r ->
  retryable (Returned r) = false ->
  exists evs,
    attempt_loop self net remaining (Z.of_nat a) = (Returned (Some r), evs) /\
    attempts_made evs = S k.
Proof.
  induction k as [|k IH]; intros remaining a r Hrem Hmax Hretry Hk Hfinal;
    (destruct remaining as [|remaining]; [lia|]); cbn [attempt_loop];
    rewrite Nat2Z.id.
  - rewrite Nat.add_0_r in Hk. rewrite Hk.
    rewrite (retryable_response r (Z.of_nat a)) in Hfinal.
    destruct (_should_retry (Some r) (Z.of_nat a)) as [b w].
    simpl in Hfinal. subst b. simpl. by eexists.
  - pose proof (Hretry 0%nat ltac:(lia)) as H0. rewrite Nat.add_0_r in H0.
    assert (H1 : Z.of_nat (S a + k) < max_retries self) by lia.
    assert (H2 : forall j, (j < k)%nat -> retryable (net (S a + j)) = true).
    { intros j Hj. replace (S a + j)%nat with (a + S j)%nat by lia.
      apply Hretry. lia. }
    assert (H3 : net (S a + k)%nat = Returned r).
    { by replace (S a + k)%nat with (a + S k)%nat by lia. }
    destruct (IH remaining (S a) r ltac:(lia) H1 H2 H3 Hfinal)
      as (evs & Hloop & Hn).
    replace (Z.of_nat a + 1) with (Z.of_nat (S a)) by lia.
    rewrite Hloop.
    destruct (net a) as [response|e] eqn:Ha.
    + rewrite (retryable_response response (Z.of_nat a)) in H0.
      destruct (_should_retry (Some response) (Z.of_nat a)) as [b w].
      simpl in H0. subst b.
      rewrite (proj2 (Z.ltb_lt (Z.of_nat a) (max_retries self - 1))) by lia.
      simpl. eexists. split; [done|]. simpl. by rewrite Hn.
    + simpl in H0. destruct e; try done;
        (eexists; split; [done|]); simpl;
        by rewrite attempts_made_app, attempts_made_handler_delay, Hn.
Qed.

Lemma attempt_loop_all_fail remaining : forall a,
  (forall k, exists e, net k = Raised e /\ is_Exception e = true) ->
  exists evs,
    attempt_loop self net remaining a = (Returned None, evs) /\
    attempts_made evs = remaining.
Proof.
  induction remaining as [|remaining IH]; intros a Hnet; cbn [attempt_loop].
  - by exists [].
  - destruct (IH (a + 1) Hnet) as (evs & Hloop & Hn). rewrite Hloop.
    destruct (Hnet (Z.to_nat a)) as (e & -> & He).
    destruct e; try done; (eexists; split; [done|]); simpl;
      by rewrite attempts_made_app, attempts_made_handler_delay, Hn.
Qed.

Lemma request_numbers_app evs1 evs2 :
  request_numbers (evs1 ++ evs2)
  = (request_numbers evs1 ++ request_numbers evs2)%list.
Proof.
  induction evs1 as [|[a|s|b] evs1 IH]; simpl; [done | by rewrite IH | done..].
Qed.

Lemma request_numbers_handler_delay a b :
  request_numbers (handler_delay self a b) = [].
Proof.
  unfold handler_delay, _smart_delay.
  by destruct (a <? _), (enable_evasion self).
Qed.

Lemma pause_no_attempt pause :
  forallb is_pause pause = true ->
  request_numbers pause = [] /\ attempts_made pause = 0%nat.
Proof.
  induction pause as [|[n|s|b] pause IH]; simpl; [done | done | auto..].
Qed.

Lemma handler_delay_pause a b : forallb is_pause (handler_delay self a b) = true.
Proof.
  unfold handler_delay, _smart_delay.
  by destruct (a <? _), (enable_evasion self).
Qed.

Lemma handler_delay_last a b :
  max_retries self - 1 <= a -> handler_delay self a b = [].
Proof.
  intros Ha. unfold handler_delay.
  by rewrite (proj2 (Z.ltb_ge a (max_retries self - 1)) Ha).
Qed.

(** The requests of the loop are numbered from [a] on, one by one, and the
    trace ends with a request. *)
Lemma attempt_loop_trace remaining : forall a,
  remaining = Z.to_nat (max_retries self - a) ->
  let evs := snd (attempt_loop self net remaining a) in
  request_numbers evs
  = map (fun i => a + Z.of_nat i) (seq 0 (attempts_made evs)) /\
  (evs = [] \/ exists n, last evs = Some (EvRequest n)).
Proof.
  induction remaining as [|remaining IH]; intros a Hrem; cbn [attempt_loop].
  { split; [done | by left]. }
  destruct (IH (a + 1) ltac:(lia)) as [Hnum Hlast].
  assert (Hcont : forall pause,
    forallb is_pause pause = true ->
    (remaining = 0%nat -> pause = []) ->
    let evs := snd (let '(res, rest) := attempt_loop self net remaining (a + 1) in
                    (res, EvRequest a :: pause ++ rest)) in
    request_numbers evs
    = map (fun i => a + Z.of_nat i) (seq 0 (attempts_made evs)) /\
    (evs = [] \/ exists n, last evs = Some (EvRequest n))).
  { intros pause Hpause Hnil.
    destruct (pause_no_attempt _ Hpause) as [Hp Hp0].
    destruct (attempt_loop self net remaining (a + 1)) as [res rest] eqn:Hloop.
    cbn [snd] in *. split.
    - cbn [request_numbers attempts_made].
      rewrite request_numbers_app, attempts_made_app, Hp, Hp0, Hnum.
      cbn [seq map app Nat.add]. f_equal; [lia|].
      rewrite <- seq_shift, map_map. apply map_ext. intros i. lia.
    - right. destruct Hlast as [-> | [n Hn]].
      + destruct remaining as [|remaining'].
        * rewrite (Hnil eq_refl). by exists a.
        * exfalso. cbn [attempt_loop] in Hloop.
          destruct (net (Z.to_nat (a + 1))) as [response|[]];
            try destruct (_should_retry _ _) as [sr w];
            try destruct (sr && _);
            try destruct (attempt_loop self net remaining' (a + 1 + 1));
            by injection Hloop.
      + exists n. by rewrite last_cons, last_app, Hn. }
  assert (Hlastpause : forall b, remaining = 0%nat -> handler_delay self a b = []).
  { intros b Hr. apply handler_delay_last. lia. }
  destruct (net (Z.to_nat a)) as [response|e].
  - destruct (_should_retry (Some response) a) as [sr w].
    destruct (sr && (a <? max_retries self - 1)) eqn:Hgo.
    + apply Hcont; [done|]. intros Hr.
      apply andb_true_iff in Hgo as [_ Hlt]. apply Z.ltb_lt in Hlt. lia.
    + cbn. split; [f_equal; lia | right; by exists a].
  - destruct e; try (apply Hcont; [apply handler_delay_pause | auto]).
    cbn. split; [f_equal; lia | right; by exists a].
Qed.

(** What a trace can hold. *)
Lemma attempt_loop_events remaining : forall a e,
  0 <= a -> Z.of_nat remaining <= max_retries self - a ->
  e ∈ snd (attempt_loop self net remaining a) ->
  event_in_bounds self e.
Proof.
  induction remaining as [|remaining IH]; intros a e Ha Hrem; cbn [attempt_loop].
  { by intros ?%elem_of_nil. }
  assert (Hcont : forall pause,
    (forall p, p ∈ pause -> event_in_bounds self p) ->
    e ∈ snd (let '(res, rest) := attempt_loop self net remaining (a + 1) in
             (res, EvRequest a :: pause ++ rest)) ->
    event_in_bounds self e).
  { intros pause Hpause.
    specialize (IH (a + 1) e ltac:(lia) ltac:(lia)).
    destruct (attempt_loop self net remaining (a + 1)) as [res rest].
    cbn [snd] in *.
    intros [-> | [Hp | Hr]%elem_of_app]%elem_of_cons;
      [simpl; lia | by apply Hpause | by apply IH]. }
  assert (Hdelay : forall b p, 1 <= b <= 3 -> p ∈ handler_delay self a b ->
    event_in_bounds self p).
  { intros b p Hb. unfold handler_delay, _smart_delay.
    destruct (a <? _), (enable_evasion self); try by intros ?%elem_of_nil.
    by intros ->%list_elem_of_singleton. }
  destruct (net (Z.to_nat a)) as [response|err].
  - pose proof (should_retry_wait response a Ha) as Hwait.
    destruct (_should_retry (Some response) a) as [sr w].
    destruct (sr && (a <? max_retries self - 1)) eqn:Hgo.
    + apply andb_true_iff in Hgo as [-> Hlt]. apply Z.ltb_lt in Hlt.
      apply Hcont. intros p ->%list_elem_of_singleton.
      simpl in *. specialize (Hwait eq_refl). nia.
    + cbn. intros ->%list_elem_of_singleton. simpl. lia.
  - destruct err; try (apply Hcont; intros p; apply Hdelay; lia).
    cbn. intros ->%list_elem_of_singleton. simpl. lia.
Qed.

End RetryLoop.

Section SmartRequestMore.
Import Py RequestManager EvasionEngine Scenarios.

(** X1.  When the first [k] attempts end in a way that calls for a new
    attempt (a rate limit, a server error, a challenge page or an
    exception) and attempt [k], still within the budget, is answered by a
    response that does not, [smart_request] returns that response, after
    [k + 1] requests. *)
Theorem smart_request_first_final self net url method k r :
  Z.of_nat k < max_retries self ->
  (forall j, (j < k)%nat -> retryable (net (upper method) url j) = true) ->
  net (upper method) url k = Returned r ->
  retryable (Returned r) = false ->
  exists evs,
    smart_request self net url method = (Returned (Some r), evs) /\
    attempts_made evs = S k.
Proof.
  intros Hk Hretry Hnet Hfinal. unfold smart_request.
  apply (attempt_loop_first_final self _ k (Z.to_nat (max_retries self)) 0%nat r);
    [lia | by rewrite Nat.add_0_l | done.. ].
Qed.

Lemma smart_request_first_final_witness :
  exists evs,
    smart_request default_manager rate_limited_net "https://example.test/" "GET"
    = (Returned (Some (mkResponse 200 "ok" "ok" (Some "text/plain"))), evs) /\
    attempts_made evs = 3%nat.
Proof.
  apply (smart_request_first_final default_manager rate_limited_net
           "https://example.test/" "GET" 2).
  - reflexivity.
  - intros [|[|j]] Hj; [reflexivity | reflexivity | lia].
  - reflexivity.
  - reflexivity.
Defined.

(** X2.  When every attempt raises an exception, [smart_request] returns
    [None], after exactly [max_retries] requests (none when
    [max_retries <= 0]). *)
Theorem smart_request_all_fail self net url method :
  (forall k, exists e,
      net (upper method) url k = Raised e /\ is_Exception e = true) ->
  exists evs,
    smart_request self net url method = (Returned None, evs) /\
    attempts_made evs = Z.to_nat (max_retries self).
Proof.
  intros Hnet. unfold smart_request. by apply attempt_loop_all_fail.
Qed.

Lemma smart_request_all_fail_witness :
  exists evs,
    smart_request default_manager unreachable_net "https://example.test/" "GET"
    = (Returned None, evs) /\
    attempts_made evs = Z.to_nat (max_retries default_manager).
Proof.
  apply (smart_request_all_fail default_manager unreachable_net).
  intros k. exists ConnectionError. split; reflexivity.
Defined.

(** X3.  In every trace of [smart_request] the requests are numbered
    0, 1, 2, ... without a gap, and the trace ends with a request: there is
    no pause after the last attempt. *)
Theorem smart_request_trace self net url method :
  let evs := snd (smart_request self net url method) in
  request_numbers evs = map Z.of_nat (seq 0 (attempts_made evs)) /\
  (evs = [] \/ exists n, last evs = Some (EvRequest n)).
Proof.
  unfold smart_request.
  destruct (attempt_loop_trace self (net (upper method) url)
              (Z.to_nat (max_retries self)) 0 ltac:(f_equal; lia))
    as [Hnum Hlast].
  split; [|done]. rewrite Hnum. apply map_ext. intros i. lia.
Qed.

(** X4.  Every event of a trace of [smart_request] is within bounds: an
    attempt number is below [max_retries], a back-off pause lasts between
    3 and [5 * (max_retries - 1)] seconds, a base delay between 1 and 3. *)
Theorem smart_request_events self net url method e :
  e ∈ snd (smart_request self net url method) ->
  event_in_bounds self e.
Proof.
  unfold smart_request. intros He.
  destruct (Z.to_nat (max_retries self)) as [|n] eqn:Hmax.
  - by apply elem_of_nil in He.
  - rewrite <- Hmax in He.
    apply (attempt_loop_events self _ _ 0 e) in He; [done | lia | lia].
Qed.

Lemma smart_request_events_witness :
  EvSleep 10 ∈ snd (smart_request default_manager rate_limited_net
                                  "https://example.test/" "GET") /\
  event_in_bounds default_manager (EvSleep 10).
Proof.
  assert (H : EvSleep 10 ∈ snd (smart_request default_manager rate_limited_net
                                              "https://example.test/" "GET")).
  { vm_compute. do 3 right. left. }
  split; [done|].
  exact (smart_request_events default_manager rate_limited_net
           "https://example.test/" "GET" (EvSleep 10) H).
Defined.

(** X5.  [check_url_exists] reports that the URL exists only together
    with the status 200, and it never reports a status from 400 to 599: a
    response with such a status is false as a condition, like no
    response, and gives [(False, 0)]. *)
Theorem check_url_exists_status self net url b s :
  check_url_exists self net url = Returned (b, s) ->
  (b = true <-> s = 200) /\ ~ (400 <= s < 600).
Proof.
  unfold check_url_exists.
  destruct (fst (smart_request self net url "HEAD")) as [[r|]|e].
  - unfold response_ok. destruct (negb _) eqn:Hok.
    + intros [= <- <-]. split.
      * by rewrite Z.eqb_eq.
      * apply negb_true_iff, andb_false_iff in Hok as [H|H];
          [apply Z.leb_gt in H | apply Z.ltb_ge in H]; lia.
    + intros [= <- <-]. split; [done | lia].
  - intros [= <- <-]. split; [done | lia].
  - destruct (is_Exception e); [|done].
    intros [= <- <-]. split; [done | lia].
Qed.

Lemma check_url_exists_status_witness :
  check_url_exists default_manager always_500 "https://example.test/"
  = Returned (false, 0) /\
  ((false = true <-> 0 = 200) /\ ~ (400 <= 0 < 600)).
Proof.
  assert (H : check_url_exists default_manager always_500
                               "https://example.test/" = Returned (false, 0))
    by reflexivity.
  split; [done|].
  exact (check_url_exists_status default_manager always_500
           "https://example.test/" false 0 H).
Defined.

(** X6.  [is_blocked] answers [False] for every response: a response
    with one of the statuses it looks for (403, 429, 503, 406) is false as
    a condition and leaves at [if not response], and every other status
    leaves at one of the two status tests. *)
Theorem is_blocked_never response headers :
  is_blocked response headers = false.
Proof.
  unfold is_blocked. destruct response as [r|]; [|done].
  unfold response_ok. rewrite negb_involutive.
  destruct ((400 <=? status_code r) && (status_code r <? 600)) eqn:Hrange;
    [done|].
  destruct (in_ints (status_code r) [200; 201; 301; 302; 404]); [done|].
  destruct (in_ints (status_code r) [403; 429; 503; 406]) eqn:Hin; [|done].
  exfalso. unfold in_ints in Hin. simpl in Hin.
  apply andb_false_iff in Hrange.
  rewrite !orb_true_iff, !Z.eqb_eq in Hin.
  rewrite Z.leb_gt, Z.ltb_ge in Hrange. lia.
Qed.

(** X7.  [advanced_stealth_request] returns only responses that the
    requests gave and whose status is not from 400 to 599; responses with
    such a status are retried like failures. *)
Theorem advanced_stealth_request_ok sent headers max_retries r :
  advanced_stealth_request sent headers max_retries = Returned (Some r) ->
  response_ok r = true /\ exists k, sent k = Returned r.
Proof.
  unfold advanced_stealth_request.
  generalize (Z.to_nat max_retries) as remaining, 0%nat as attempt.
  induction remaining as [|remaining IH]; intros attempt; simpl; [done|].
  destruct (stealth_request (sent attempt) (headers attempt))
    as [[response|]|e] eqn:Hreq; [| apply IH | done].
  destruct (response_ok response && _) eqn:Hok; [|apply IH].
  intros [= <-]. apply andb_true_iff in Hok as [Hok _]. split; [done|].
  exists attempt. unfold stealth_request in Hreq.
  destruct (sent attempt) as [r0|e0]; [|by destruct (is_Exception e0)].
  destruct (is_blocked _ _); [done|]. by injection Hreq as ->.
Qed.

Lemma advanced_stealth_request_ok_witness :
  let r := mkResponse 200 "ok" "ok" (Some "text/plain") in
  advanced_stealth_request (rate_limited_net "GET" "https://example.test/")
                           (fun _ => "{}") 3 = Returned (Some r) /\
  (response_ok r = true /\
   exists k, rate_limited_net "GET" "https://example.test/" k = Returned r).
Proof.
  intros r.
  assert (H : advanced_stealth_request
                (rate_limited_net "GET" "https://example.test/")
                (fun _ => "{}") 3 = Returned (Some r)) by reflexivity.
  split; [done|].
  exact (advanced_stealth_request_ok _ _ _ _ H).
Defined.

(** A target that always answers 404 is given up on. *)
Example advanced_stealth_request_404 :
  advanced_stealth_request
    (fun _ => Returned (mkResponse 404 "Not Found" "" None)) (fun _ => "{}") 3
  = Returned None.
Proof. reflexivity. Qed.

End SmartRequestMore.

(** ** More on the probe of one path and on the results of a scan *)

Section ProbeMore.
Import Py RequestManager ScannerEngine Scenarios.

Variable self : Engine.
Variables base_url output_dir : string.

Local Abbreviation scan := (scan_single_path self base_url output_dir).

(** The cases of [scan_single_path] on which it returns. *)
Local Ltac scan_cases :=
  unfold scan_single_path;
  destruct (fetch _ _) as [[response|]|e];
  [ destruct (is_finding _ _ _);
    [ destruct (intelligent_save _ _ _ _ _) as [b|e];
      [|destruct (is_Exception e)] |]
  | | destruct (is_Exception e) ];
  try done; intros [= <- <-].

Lemma scan_single_path_counter path d c :
  scan path = (Returned d, c) ->
  (get_truth "success" d = bool_decide (c = Some FoundCount)) /\
  (has_error d = bool_decide (c = Some ErrorCount)).
Proof.
  scan_cases; unfold get_truth, has_error, error_dict; by simplify_map_eq.
Qed.

(** X8.  [scan_single_path] increments [found_count] exactly when the
    result that it returns is marked as a success, and [error_count]
    exactly when the result carries an error. *)
Theorem scan_counter_agrees path d c :
  scan path = (Returned d, c) ->
  (c = Some FoundCount <-> get_truth "success" d = true) /\
  (c = Some ErrorCount <-> is_Some (d !! "error")).
Proof.
  scan_cases; unfold get_truth, error_dict; simplify_map_eq;
    (split; split; try done; try by intros [x Hx]; simplify_map_eq).
  all: by eexists.
Qed.

(** X9.  A response without a Content-Type header is never a finding,
    whatever its status and its length: the result is returned with
    [success] false and no counter is incremented. *)
Theorem no_content_type_no_finding path response :
  fetch self (urljoin self base_url path) = Returned (Some response) ->
  content_type_header response = None ->
  exists d, scan path = (Returned d, None) /\
            d !! "success" = Some (PBool false) /\
            d !! "content_type" = Some (PStr "").
Proof.
  intros Hfetch Htype. unfold scan_single_path. rewrite Hfetch, Htype.
  assert (Hno : forall s n, is_finding s n (default "" None) = false).
  { intros s n. unfold is_finding. simpl. apply andb_false_r. }
  rewrite Hno. eexists. split; [done|]. by simplify_map_eq.
Qed.

(** X10.  Whatever the request does, a result of [scan_single_path]
    carries the URL and the path it was called for, and the only
    exceptions that it lets through are those outside [Exception]. *)
Theorem scan_result_identifies_path path :
  match fst (scan path) with
  | Returned d =>
    d !! "url" = Some (PStr (urljoin self base_url path)) /\
    d !! "path" = Some (PStr path)
  | Raised e => is_Exception e = false
  end.
Proof.
  unfold scan_single_path.
  destruct (fetch _ _) as [[response|]|e]; simpl.
  - destruct (is_finding _ _ _).
    + destruct (intelligent_save _ _ _ _ _) as [b|e];
        [|destruct (is_Exception e) eqn:He]; simpl;
        try done; by simplify_map_eq.
    + simpl. by simplify_map_eq.
  - unfold error_dict. by simplify_map_eq.
  - destruct (is_Exception e) eqn:He; simpl; [|done].
    unfold error_dict. by simplify_map_eq.
Qed.

End ProbeMore.

Section ProbeMoreScenarios.
Import Py RequestManager ScannerEngine Scenarios.

Lemma scan_counter_agrees_witness :
  exists d,
    scan_single_path race_engine "https://example.test" "out" "/hit"
    = (Returned d, Some FoundCount) /\
    ((Some FoundCount = Some FoundCount <-> get_truth "success" d = true) /\
     (Some FoundCount = Some ErrorCount <-> is_Some (d !! "error"))).
Proof.
  eexists. split; [vm_compute; reflexivity|].
  apply (scan_counter_agrees race_engine "https://example.test" "out" "/hit").
  vm_compute. reflexivity.
Defined.

Lemma no_content_type_no_finding_witness :
  let response := mkResponse 200 "a body of more than twenty bytes"
                             "a body of more than twenty bytes" None in
  fetch (stub_engine response) (urljoin (stub_engine response)
                                        "https://example.test" "/api")
  = Returned (Some response) /\
  exists d,
    scan_single_path (stub_engine response) "https://example.test" "out" "/api"
    = (Returned d, None) /\
    d !! "success" = Some (PBool false) /\
    d !! "content_type" = Some (PStr "").
Proof.
  intros response.
  assert (H : fetch (stub_engine response)
                (urljoin (stub_engine response) "https://example.test" "/api")
              = Returned (Some response)) by (vm_compute; reflexivity).
  split; [done|].
  exact (no_content_type_no_finding (stub_engine response)
           "https://example.test" "out" "/api" response H eq_refl).
Defined.

End ProbeMoreScenarios.

(** ** The results of a scan, whatever the schedule *)

Section ScanResults.
Import Py RequestManager ScannerEngine Scenarios.

Variable self : Engine.
Variables base_url output_dir : string.
Variable paths : list string.

Local Abbreviation scan := (scan_single_path self base_url output_dir).
Local Abbreviation Inv := (Inv self base_url output_dir paths).
Local Abbreviation InvResults := (InvResults self base_url output_dir paths).
Local Abbreviation step := (step self base_url output_dir paths).
Local Abbreviation run := (run self base_url output_dir paths).
Local Abbreviation returned_dict := (returned_dict self base_url output_dir).
Local Abbreviation collected_results :=
  (collected_results self base_url output_dir).

Lemma collected_results_same ts ps i t t' :
  ts !! i = Some t -> is_collected t = is_collected t' ->
  collected_results (<[i := t']> ts) ps = collected_results ts ps.
Proof.
  revert ps i. induction ts as [|t0 ts IH]; intros ps i Ht Hc; [done|].
  destruct ps as [|p0 ps]; [by destruct i|]. destruct i as [|i]; simpl in *.
  - injection Ht as ->. by rewrite Hc.
  - by rewrite (IH ps i Ht Hc).
Qed.

Lemma collected_results_collect ts ps i t path :
  ts !! i = Some t -> ps !! i = Some path -> is_collected t = false ->
  collected_results (<[i := Collected]> ts) ps
  ≡ₚ (returned_dict path ++ collected_results ts ps)%list.
Proof.
  revert ps i. induction ts as [|t0 ts IH]; intros ps i Ht Hp Hc; [done|].
  destruct ps as [|p0 ps]; [done|]. destruct i as [|i]; simpl in *.
  - injection Ht as ->. injection Hp as ->. by rewrite Hc.
  - rewrite (IH ps i Ht Hp Hc). apply Permutation_app_swap_app.
Qed.

Lemma collected_results_all ts ps :
  forallb is_collected ts = true -> length ts = length ps ->
  collected_results ts ps = flat_map returned_dict ps.
Proof.
  revert ps. induction ts as [|t ts IH]; intros [|p ps] Hall Hlen;
    simpl in *; try done.
  apply andb_true_iff in Hall as [-> Hall]. f_equal. apply IH; [done | lia].
Qed.

Lemma InvResults_initial : InvResults (initial paths).
Proof.
  split; simpl.
  - assert (H : forall n ps, collected_results (replicate n Queued) ps = []).
    { intros n. induction n as [|n IH]; intros [|p ps]; simpl; auto. }
    by rewrite H.
  - intros i path [H _]%lookup_replicate. discriminate.
Qed.

Lemma step_InvResults i st st' :
  Inv st -> InvResults st -> step i st = Some st' -> InvResults st'.
Proof.
  intros HI [Hperm Hret] Hstep. unfold ScannerEngine.step in Hstep.
  destruct (raised st) eqn:Hr; [done|].
  destruct (tasks st !! i) as [t|] eqn:Ht; [|done].
  destruct (paths !! i) as [path|] eqn:Hp; [|by destruct t].
  destruct t as [|c v ret|ret|]; [| | |done].
  - destruct (in_flight _ <? _); [|done]. injection Hstep as <-.
    unfold start_task. destruct (scan path) as [ret [c|]]; split; simpl;
      try (by rewrite (collected_results_same _ _ _ _ _ Ht));
      intros j q [(-> & Heq & _) | (Hne & H)]%list_lookup_insert_Some;
      try done; eauto.
  - injection Hstep as <-. split; simpl.
    + by rewrite (collected_results_same _ _ _ _ _ Ht).
    + intros j q [(-> & Heq & _) | (Hne & H)]%list_lookup_insert_Some;
        try done; eauto.
  - injection Hstep as <-.
    pose proof (inv_ret _ _ _ _ _ HI _ _ _ Ht Hp) as Hfst.
    pose proof (scan_single_path_ret self base_url output_dir path) as Hshape.
    rewrite <- Hfst in Hshape.
    unfold collect. destruct ret as [d|e].
    + rewrite decide_False by done. split; simpl.
      * rewrite (collected_results_collect _ _ _ _ _ Ht Hp eq_refl).
        unfold ScannerEngine.returned_dict. rewrite <- Hfst. simpl.
        rewrite <- Hperm. symmetry. apply Permutation_cons_append.
      * intros j q [(-> & Heq & _) | (Hne & H)]%list_lookup_insert_Some Hq;
          [|eauto]. exists d. congruence.
    + rewrite Hshape. by split.
Qed.

Lemma run_InvResults schedule st st' :
  Inv st -> InvResults st -> run schedule st = Some st' -> InvResults st'.
Proof.
  revert st. induction schedule as [|i schedule IH]; intros st HI HR Hrun;
    simpl in Hrun.
  - by injection Hrun as <-.
  - destruct (step i st) as [st1|] eqn:Hstep; [|done].
    eauto using step_Inv, step_InvResults.
Qed.

(** What a finished scan has collected. *)
Lemma finished_results schedule st :
  run schedule (initial paths) = Some st ->
  finished st = true ->
  results st ≡ₚ flat_map returned_dict paths /\
  (forall path, path ∈ paths -> exists d, fst (scan path) = Returned d).
Proof.
  intros Hrun Hfin. unfold finished in Hfin.
  destruct (raised st) eqn:Hr; [done|].
  pose proof (run_Inv _ _ _ _ _ _ _ (Inv_initial _ _ _ _) Hrun) as HI.
  pose proof (run_InvResults _ _ _ (Inv_initial _ _ _ _) InvResults_initial Hrun)
    as [Hperm Hret].
  pose proof (inv_length _ _ _ _ _ HI) as Hlen.
  split.
  - by rewrite <- (collected_results_all _ _ Hfin Hlen).
  - intros path [i Hi]%list_elem_of_lookup.
    destruct (lookup_lt_is_Some_2 (tasks st) i) as [t Ht].
    { rewrite Hlen. by eapply lookup_lt_Some. }
    assert (t = Collected) as ->.
    { assert (Hc : is_collected t = true).
      { apply (proj1 (forallb_forall _ _) Hfin).
        by eapply list_elem_of_In, list_elem_of_lookup_2. }
      by destruct t. }
    eauto.
Qed.

(** X11.  When a scan has collected every future, its results are the
    dictionaries that [scan_single_path] returns on the submitted paths,
    one for each path, in an order that the schedule of the workers
    decides: they are a permutation of the dictionaries of the paths.
    This holds under every schedule. *)
Theorem scan_results_complete schedule st :
  run schedule (initial paths) = Some st ->
  finished st = true ->
  exists ds,
    Forall2 (fun path d => fst (scan path) = Returned d) paths ds /\
    results st ≡ₚ ds.
Proof.
  intros Hrun Hfin.
  destruct (finished_results _ _ Hrun Hfin) as [Hperm Hret].
  exists (flat_map returned_dict paths). split; [|done].
  clear Hperm Hrun Hfin. induction paths as [|path ps IH]; simpl; [done|].
  destruct (Hret path ltac:(by left)) as [d Hd].
  unfold ScannerEngine.returned_dict at 1. rewrite Hd. simpl.
  constructor; [done|]. apply IH. intros q Hq. apply Hret. by right.
Qed.

Lemma filter_length_Permutation {A} (f : A -> bool) (l l' : list A) :
  l ≡ₚ l' -> length (List.filter f l) = length (List.filter f l').
Proof.
  induction 1 as [|x l l' _ IH|x y l|l l' l'' _ IH1 _ IH2]; simpl.
  - done.
  - destruct (f x); simpl; by rewrite IH.
  - by destruct (f x), (f y).
  - by rewrite IH1.
Qed.

Lemma returned_dict_filter (f : gmap string pyval -> bool)
    (g : string -> bool) (ps : list string) :
  (forall path, path ∈ ps ->
     exists d, fst (scan path) = Returned d /\ f d = g path) ->
  length (List.filter f (flat_map returned_dict ps))
  = length (List.filter g ps).
Proof.
  induction ps as [|path ps IH]; intros Hps; [done|].
  destruct (Hps path ltac:(by left)) as (d & Hd & Hfg).
  cbn [flat_map List.filter]. unfold ScannerEngine.returned_dict at 1.
  rewrite Hd. cbn [app List.filter]. rewrite Hfg.
  destruct (g path); cbn [length]; rewrite IH; try done;
    intros q Hq; apply Hps; by right.
Qed.

Lemma filter_disjoint_length {A} (f g : A -> bool) (l : list A) :
  (forall x, x ∈ l -> f x && g x = false) ->
  (length (List.filter f l) + length (List.filter g l) <= length l)%nat.
Proof.
  induction l as [|x l IH]; intros Hl; [done|]. simpl.
  pose proof (Hl x ltac:(by left)) as Hx.
  assert (IH' := IH (fun y Hy => Hl y ltac:(by right))).
  destruct (f x), (g x); simpl in *; try done; lia.
Qed.

(** X12.  The counts of the final report are exact under every schedule,
    whatever happened to the counters: for the results of a finished scan,
    [successful_finds] is the number of paths on which the closure counts
    a finding and [errors_count] the number of paths on which it counts an
    error; no result is in both counts, so that the two counts together
    do not exceed the number of results. *)
Theorem report_counts_exact schedule st :
  run schedule (initial paths) = Some st ->
  finished st = true ->
  Z.of_nat (length (successful_scans (results st)))
  = increments_of self base_url output_dir paths FoundCount /\
  Z.of_nat (length (errors (results st)))
  = increments_of self base_url output_dir paths ErrorCount /\
  (length (successful_scans (results st)) + length (errors (results st))
   <= length (results st))%nat /\
  (forall d, d ∈ successful_scans (results st) -> d ∉ errors (results st)).
Proof.
  intros Hrun Hfin.
  destruct (finished_results _ _ Hrun Hfin) as [Hperm Hret].
  assert (Hcount : forall path, path ∈ paths ->
    exists d, fst (scan path) = Returned d /\
      get_truth "success" d
      = increments self base_url output_dir FoundCount path /\
      has_error d = increments self base_url output_dir ErrorCount path).
  { intros path Hpath. destruct (Hret path Hpath) as [d Hd].
    exists d. split; [done|].
    destruct (scan path) as [ret c'] eqn:Hscan. simpl in Hd. subst ret.
    destruct (scan_single_path_counter _ _ _ _ _ _ Hscan) as [Hs He].
    unfold increments. rewrite Hscan, Hs, He. simpl.
    by destruct c' as [[]|]. }
  assert (Hdisjoint : forall d, d ∈ results st ->
            get_truth "success" d && has_error d = false).
  { intros d Hd. rewrite Hperm in Hd.
    apply list_elem_of_In, in_flat_map in Hd as (path & Hpath & Hd).
    apply list_elem_of_In in Hpath.
    destruct (Hcount path Hpath) as (d' & Hd' & Hs & He).
    unfold ScannerEngine.returned_dict in Hd. rewrite Hd' in Hd.
    destruct Hd as [<- | []]. rewrite Hs, He. unfold increments.
    by destruct (snd (scan path)) as [[]|]. }
  unfold successful_scans, errors, increments_of. split_and!.
  - rewrite (filter_length_Permutation _ _ _ Hperm). f_equal.
    apply returned_dict_filter. intros path Hpath.
    destruct (Hcount path Hpath) as (d & Hd & Hs & _). eauto.
  - rewrite (filter_length_Permutation _ _ _ Hperm). f_equal.
    apply returned_dict_filter. intros path Hpath.
    destruct (Hcount path Hpath) as (d & Hd & _ & He). eauto.
  - apply filter_disjoint_length, Hdisjoint.
  - intros d [Hd Hs]%list_elem_of_In%filter_In
             [_ He]%list_elem_of_In%filter_In.
    apply list_elem_of_In, Hdisjoint in Hd. by rewrite Hs, He in Hd.
Qed.

End ScanResults.

Section ScanResultsScenarios.
Import Py RequestManager ScannerEngine Scenarios.

Lemma scan_results_complete_witness :
  exists st,
    run race_engine "https://example.test" "out" ["/hit"; "/miss"]
        [1; 0; 0; 1; 0]%nat (initial ["/hit"; "/miss"]) = Some st /\
    exists ds,
      Forall2 (fun path d =>
                 fst (scan_single_path race_engine "https://example.test"
                                       "out" path) = Returned d)
              ["/hit"; "/miss"] ds /\
      results st ≡ₚ ds.
Proof.
  eexists. split; [vm_compute; reflexivity|].
  apply (scan_results_complete race_engine "https://example.test" "out"
           ["/hit"; "/miss"] [1; 0; 0; 1; 0]%nat).
  - vm_compute. reflexivity.
  - vm_compute. reflexivity.
Defined.

Lemma report_counts_exact_witness :
  exists st,
    run race_engine "https://example.test" "out" ["/hit"; "/hit"; "/miss"]
        [0; 1; 0; 1; 2; 0; 1; 2]%nat (initial ["/hit"; "/hit"; "/miss"])
    = Some st /\
    found_count (counters st) = 1 /\
    Z.of_nat (length (successful_scans (results st)))
    = increments_of race_engine "https://example.test" "out"
                    ["/hit"; "/hit"; "/miss"] FoundCount /\
    Z.of_nat (length (errors (results st)))
    = increments_of race_engine "https://example.test" "out"
                    ["/hit"; "/hit"; "/miss"] ErrorCount /\
    (length (successful_scans (results st)) + length (errors (results st))
     <= length (results st))%nat /\
    (forall d, d ∈ successful_scans (results st) -> d ∉ errors (results st)).
Proof.
  eexists. split; [vm_compute; reflexivity|].
  split; [vm_compute; reflexivity|].
  apply (report_counts_exact race_engine "https://example.test" "out"
           ["/hit"; "/hit"; "/miss"] [0; 1; 0; 1; 2; 0; 1; 2]%nat).
  - vm_compute. reflexivity.
  - vm_compute. reflexivity.
Defined.

End ScanResultsScenarios.

(** ** More on the discovery of candidate paths *)

Section DiscoveryMore.
Import Py RequestManager ScannerEngine Scenarios.

Context {rng : Type} `{Random rng}.

Lemma filter_NoDup {A} (f : A -> bool) (l : list A) :
  NoDup l -> NoDup (List.filter f l).
Proof.
  induction 1 as [|x l Hx Hl IH]; simpl; [constructor|].
  destruct (f x); [|done]. constructor; [|done].
  intros Hin. apply Hx. by apply list_elem_of_In, filter_In in Hin as [?%list_elem_of_In _].
Qed.

Lemma elem_of_filter_not_suspicious p l :
  p ∈ List.filter (fun q => negb (_is_suspicious_path q)) l
  <-> p ∈ l /\ _is_suspicious_path p = false.
Proof.
  rewrite list_elem_of_In, filter_In, negb_true_iff, list_elem_of_In. done.
Qed.

Lemma add_filtered_elem (all : gset string) found all' p :
  add_filtered all found = Returned all' ->
  p ∈ all' <->
  p ∈ all \/
  (_is_suspicious_path p = false /\
   exists paths, found = Returned paths /\ p ∈ paths).
Proof.
  destruct found as [paths|e]; simpl.
  - intros [= <-].
    rewrite elem_of_union, elem_of_list_to_set, elem_of_filter_not_suspicious.
    split; intros [?|[? ?]]; eauto.
    + right. destruct H1 as (l & [= <-] & Hp). done.
  - destruct (is_Exception e); [|done]. intros [= <-].
    split; [by left|]. intros [?|[_ (l & Hl & _)]]; done.
Qed.

(** X13.  The list that [advanced_discovery_phase] returns has no
    duplicates, and it holds exactly the paths that are not suspicious
    among those of the catalog, of its natural variations, of the crawler
    and of the downloaded resources; a crawler or a download that fails
    brings no path and does not stop the discovery. *)
Theorem discovery_result self target_url g final_paths g' :
  advanced_discovery_phase self target_url g = (Returned final_paths, g') ->
  NoDup final_paths /\
  forall p,
    p ∈ final_paths <->
    _is_suspicious_path p = false /\
    (p ∈ get_common_paths \/
     p ∈ fst (generate_natural_variations get_common_paths g) \/
     p ∈ crawled_paths self target_url \/
     p ∈ github_paths self).
Proof.
  unfold advanced_discovery_phase, crawled_paths, github_paths.
  destruct (generate_natural_variations get_common_paths g) as [natural g1].
  cbn [fst].
  set (all0 := (list_to_set get_common_paths ∪ list_to_set natural : gset string)).
  assert (H0 : forall p, p ∈ all0 <-> p ∈ get_common_paths \/ p ∈ natural).
  { intros p. unfold all0. by rewrite elem_of_union, !elem_of_list_to_set. }
  clearbody all0.
  destruct (match DISCOVERY_AVAILABLE self, intelligent_crawler self with
            | true, Some crawl => _ | _, _ => _ end) as [all1|e] eqn:H1;
    [|done].
  destruct (if EXTERNAL_AVAILABLE self && auto_download self then _ else _)
    as [all2|e] eqn:H2; [|done].
  intros [= <- <-]. split.
  { apply filter_NoDup, NoDup_elements. }
  intros p. rewrite elem_of_filter_not_suspicious, elem_of_elements.
  assert (H1' : p ∈ all1 <->
    p ∈ all0 \/ (_is_suspicious_path p = false /\
      p ∈ match DISCOVERY_AVAILABLE self, intelligent_crawler self with
          | true, Some crawl =>
            match crawl target_url 10 with
            | Returned paths => paths | Raised _ => [] end
          | _, _ => [] end)).
  { destruct (DISCOVERY_AVAILABLE self), (intelligent_crawler self) as [crawl|];
      try (injection H1 as <-; split; [by left | intros [?|[_ ?%elem_of_nil]]; done]).
    rewrite (add_filtered_elem _ _ _ p H1).
    destruct (crawl target_url 10) as [l|e0].
    - split; intros [?|[? ?]]; eauto.
      + right. split; [done|]. by destruct H4 as (? & [= <-] & ?).
    - split; intros [?|[? ?]]; eauto.
      + by destruct H4 as (? & ? & ?).
      + by apply elem_of_nil in H4. }
  assert (H2' : p ∈ all2 <->
    p ∈ all1 \/ (_is_suspicious_path p = false /\
      p ∈ if EXTERNAL_AVAILABLE self && auto_download self
          then match load_common_paths self with
               | Returned paths => paths | Raised _ => [] end
          else [])).
  { destruct (EXTERNAL_AVAILABLE self && auto_download self);
      try (injection H2 as <-; split; [by left | intros [?|[_ ?%elem_of_nil]]; done]).
    rewrite (add_filtered_elem _ _ _ p H2).
    destruct (load_common_paths self) as [l|e0].
    - split; intros [?|[? ?]]; eauto.
      + right. split; [done|]. by destruct H4 as (? & [= <-] & ?).
    - split; intros [?|[? ?]]; eauto.
      + by destruct H4 as (? & ? & ?).
      + by apply elem_of_nil in H4. }
  rewrite H2', H1', H0. tauto.
Qed.

(** X14.  [advanced_discovery_phase] raises only what a collaborator
    raises outside [Exception]: when the crawler and the download raise
    nothing but exceptions of [Exception], it returns a list. *)
Theorem discovery_swallows_exceptions self target_url g :
  (forall crawl e, intelligent_crawler self = Some crawl ->
                   crawl target_url 10 = Raised e -> is_Exception e = true) ->
  (forall e, load_common_paths self = Raised e -> is_Exception e = true) ->
  exists final_paths g',
    advanced_discovery_phase self target_url g = (Returned final_paths, g').
Proof.
  intros Hcrawl Hload. unfold advanced_discovery_phase.
  destruct (generate_natural_variations get_common_paths g) as [natural g1].
  assert (Hadd : forall (all : gset string) found,
    (forall e, found = Raised e -> is_Exception e = true) ->
    exists all', add_filtered all found = Returned all').
  { intros all [l|e] He; simpl; [eauto|]. rewrite (He e eq_refl). eauto. }
  destruct (match DISCOVERY_AVAILABLE self, intelligent_crawler self with
            | true, Some crawl => _ | _, _ => _ end) as [all1|e] eqn:H1.
  - destruct (if EXTERNAL_AVAILABLE self && auto_download self then _ else _)
      as [all2|e] eqn:H2; [eauto|].
    exfalso. destruct (EXTERNAL_AVAILABLE self && auto_download self); [|done].
    destruct (Hadd all1 (load_common_paths self) Hload) as [all' Hall].
    congruence.
  - exfalso.
    destruct (DISCOVERY_AVAILABLE self), (intelligent_crawler self) as [crawl|];
      try done.
    destruct (Hadd (list_to_set get_common_paths ∪ list_to_set natural)
                (crawl target_url 10)) as [all' Hall]; [by eauto|].
    congruence.
Qed.

Lemma append_assoc (a b c : string) : (a +:+ b) +:+ c = a +:+ b +:+ c.
Proof.
  induction a as [|x a IH]; [done|].
  change (String x ((a +:+ b) +:+ c) = String x (a +:+ b +:+ c)).
  by f_equal.
Qed.

(** X15.  A path that holds a suspicious path is suspicious: nothing put
    in front of a suspicious path or after it (a query string, an
    extension) makes it pass the filter. *)
Theorem suspicious_extension pre p post :
  _is_suspicious_path p = true ->
  _is_suspicious_path (pre +:+ p +:+ post) = true.
Proof.
  unfold _is_suspicious_path. rewrite !any_in_iff.
  intros (pat & Hpat & Hc). exists pat. split; [done|].
  apply contains_app in Hc as (a & b & ->). apply contains_app.
  exists (pre +:+ a), (b +:+ post). by rewrite !append_assoc.
Qed.


Lemma size_union_le (X Y : gset string) : (size (X ∪ Y) <= size X + size Y)%nat.
Proof.
  rewrite size_union_alt.
  assert (size (Y ∖ X) <= size Y)%nat; [|lia].
  apply subseteq_size. by intros x [? _]%elem_of_difference.
Qed.

Lemma size_list_to_set_le (l : list string) :
  (size (list_to_set (C := gset string) l) <= length l)%nat.
Proof.
  induction l as [|x l IH].
  - by rewrite list_to_set_nil, size_empty.
  - rewrite list_to_set_cons. etrans; [apply size_union_le|].
    rewrite size_singleton. simpl. lia.
Qed.

Lemma natural_variations_loop_acc base_paths (acc : gset string) g p :
  p ∈ acc -> p ∈ fst (natural_variations_loop base_paths acc g).
Proof.
  revert acc g. induction base_paths as [|path rest IH]; intros acc g Hp;
    cbn [natural_variations_loop]; [done|].
  destruct (_is_suspicious_path path); [by apply IH|].
  destruct (randint 1000 9999 g) as [r1 g1].
  destruct (randint 1000000000 9999999999 g1) as [r2 g2].
  apply IH. apply elem_of_union. left. apply elem_of_union. by left.
Qed.

Lemma natural_variations_loop_fixed base_paths (acc : gset string) g path p :
  path ∈ base_paths -> _is_suspicious_path path = false ->
  (forall r1 r2, p ∈ variations path r1 r2) ->
  p ∈ fst (natural_variations_loop base_paths acc g).
Proof.
  intros Hpath Hsus Hp. revert acc g.
  induction base_paths as [|q rest IH]; intros acc g;
    [by apply elem_of_nil in Hpath|].
  cbn [natural_variations_loop].
  apply elem_of_cons in Hpath as [<-|Hpath].
  - rewrite Hsus.
    destruct (randint 1000 9999 g) as [r1 g1].
    destruct (randint 1000000000 9999999999 g1) as [r2 g2].
    apply natural_variations_loop_acc, elem_of_union. right.
    apply elem_of_list_to_set, Hp.
  - destruct (_is_suspicious_path q); [by apply IH|].
    destruct (randint 1000 9999 g) as [r1 g1].
    destruct (randint 1000000000 9999999999 g1) as [r2 g2].
    by apply IH.
Qed.

Lemma natural_variations_loop_size base_paths (acc : gset string) g :
  (size (fst (natural_variations_loop base_paths acc g))
   <= size acc
      + 17 * length (List.filter (fun q => negb (_is_suspicious_path q))
                                 base_paths))%nat.
Proof.
  revert acc g. induction base_paths as [|path rest IH]; intros acc g;
    cbn [natural_variations_loop List.filter]; [simpl; lia|].
  destruct (_is_suspicious_path path); cbn [negb]; [apply IH|].
  destruct (randint 1000 9999 g) as [r1 g1].
  destruct (randint 1000000000 9999999999 g1) as [r2 g2].
  etrans; [apply IH|]. cbn [length].
  assert (size (acc ∪ {[path]} ∪ list_to_set (variations path r1 r2))
          <= size acc + 17)%nat; [|lia].
  replace (acc ∪ {[path]} ∪ list_to_set (variations path r1 r2))
    with (acc ∪ list_to_set (variations path r1 r2)).
  - etrans; [apply size_union_le|].
    pose proof (size_list_to_set_le (variations path r1 r2)) as Hle.
    simpl length in Hle. lia.
  - apply set_eq. intros x.
    rewrite !elem_of_union, elem_of_singleton, elem_of_list_to_set.
    split; [tauto|]. intros [[?| ->]|?]; auto.
    right. unfold variations. by left.
Qed.

(** X16.  The scanner's [generate_natural_variations] returns a list
    without duplicates in which every base path that is not suspicious
    occurs, alone and with each of the fourteen fixed suffixes; every
    path of the list starts with such a base path, and there are at most
    seventeen paths for each of them.  Suspicious base paths bring
    nothing. *)
Theorem natural_variations_of_safe_paths base_paths g :
  let out := fst (generate_natural_variations base_paths g) in
  NoDup out /\
  (forall path, path ∈ base_paths -> _is_suspicious_path path = false ->
     path ∈ out /\
     forall suffix,
       suffix ∈ ["/"; "?v=1"; "?version=1"; "?format=json"; "?cache=true";
                 "?preview=1"; "?debug=true"; "?api_key=test";
                 "?token=abc123"; "?auth=true"; "?source=web";
                 "?platform=desktop"; "?lang=en"; "?locale=en_US"] ->
       path +:+ suffix ∈ out) /\
  (forall p, p ∈ out ->
     exists path, path ∈ base_paths /\ _is_suspicious_path path = false /\
                  startswith p path = true) /\
  (length out
   <= 17 * length (List.filter (fun q => negb (_is_suspicious_path q))
                               base_paths))%nat.
Proof.
  unfold generate_natural_variations.
  pose proof (natural_variations_loop_size base_paths ∅ g) as Hsize.
  pose proof (fun path p => natural_variations_loop_fixed base_paths ∅ g path p)
    as Hfixed.
  pose proof (natural_variations_loop_elem base_paths ∅ g) as Helem.
  destruct (natural_variations_loop base_paths ∅ g) as [s g'].
  cbn [fst] in *. split_and!.
  - apply NoDup_elements.
  - intros path Hpath Hsus. split.
    + apply elem_of_elements, (Hfixed path); [done..|]. intros. by left.
    + intros suffix Hsuffix. apply elem_of_elements, (Hfixed path); [done..|].
      intros r1 r2. unfold variations.
      repeat (apply elem_of_cons in Hsuffix as [->|Hsuffix];
              [repeat (apply elem_of_cons; first [by left | right])|]).
      by apply elem_of_nil in Hsuffix.
  - intros p [Hp|(path & r1 & r2 & Hpath & Hsus & Hp)]%elem_of_elements%Helem.
    { by apply not_elem_of_empty in Hp. }
    exists path. split_and!; [done..|].
    apply startswith_app. destruct Hp as [->|Hp].
    { exists "". clear. induction path as [|c q IH]; [done|].
      change (String c q = String c (q +:+ "")). by f_equal. }
    unfold variations in Hp.
    apply elem_of_cons in Hp as [->|Hp].
    { exists "". clear. induction path as [|c q IH]; [done|].
      change (String c q = String c (q +:+ "")). by f_equal. }
    repeat (apply elem_of_cons in Hp as [->|Hp]; [by eexists|]).
    by apply elem_of_nil in Hp.
  - rewrite size_empty in Hsize. simpl in Hsize.
    change (length (elements s)) with (size s). lia.
Qed.

(** *** The file name of a saved path *)

Lemma contains_char_cons (ch c : ascii) (s : string) :
  contains (String ch "") (String c s)
  = Ascii.eqb ch c || contains (String ch "") s.
Proof.
  rewrite contains_unfold. f_equal. simpl. destruct s; apply andb_true_r.
Qed.

Lemma contains_append_l pat a b :
  contains pat b = true -> contains pat (a +:+ b) = true.
Proof.
  rewrite !contains_app. intros (pre & post & ->).
  exists (a +:+ pre), post. by rewrite append_assoc.
Qed.

Lemma contains_append_r pat a b :
  contains pat a = true -> contains pat (a +:+ b) = true.
Proof.
  rewrite !contains_app. intros (pre & post & ->).
  exists pre, (post +:+ b). by rewrite !append_assoc.
Qed.

Lemma lstrip_suffix c s : exists pre, s = pre +:+ lstrip c s.
Proof.
  induction s as [|d s [pre IH]]; simpl; [by exists ""|].
  destruct (Ascii.eqb c d); [|by exists ""].
  exists (String d pre).
  change (String d s = String d (pre +:+ lstrip c s)). by f_equal.
Qed.

Lemma rstrip_prefix c s : exists post, s = rstrip c s +:+ post.
Proof.
  induction s as [|d s [post IH]]; simpl; [by exists ""|].
  destruct (rstrip c s) as [|e r] eqn:Hr.
  - destruct (Ascii.eqb c d).
    + by exists (String d s).
    + exists s. done.
  - exists post.
    change (String d s = String d (String e r +:+ post)). by f_equal.
Qed.

Lemma strip_keeps_absent pat s c :
  contains pat s = false -> contains pat (strip s c) = false.
Proof.
  intros Hs. destruct (contains pat (strip s c)) eqn:Hc; [|done].
  unfold strip in Hc.
  destruct (lstrip_suffix c s) as [pre Hpre].
  destruct (rstrip_prefix c (lstrip c s)) as [post Hpost].
  rewrite Hpre, Hpost in Hs.
  by rewrite (contains_append_l _ _ _ (contains_append_r _ _ _ Hc)) in Hs.
Qed.

Lemma replace_slash_absent s k :
  contains "/" (replace_from "/" "_" k s) = false.
Proof.
  revert k. induction s as [|c s IH]; intros k; [by destruct k|].
  cbn [replace_from]. destruct k as [|k]; [|apply IH].
  rewrite startswith_first. destruct (Ascii.eqb "/" c) eqn:Hc.
  - change ("_" +:+ ?r) with (String "_" r).
    rewrite contains_char_cons. simpl. apply IH.
  - rewrite contains_char_cons, Hc. apply IH.
Qed.

Lemma replace_deletes_keeps_absent old ch s k :
  contains (String ch "") s = false ->
  contains (String ch "") (replace_from old "" k s) = false.
Proof.
  revert k. induction s as [|c s IH]; intros k; [by destruct k|].
  rewrite contains_char_cons, orb_false_iff. intros [Hc Hs].
  cbn [replace_from]. destruct k as [|k]; [|by apply IH].
  destruct (startswith (String c s) old).
  - change ("" +:+ ?r) with r. by apply IH.
  - rewrite contains_char_cons, Hc. by apply IH.
Qed.

Lemma replace_dots_absent s :
  contains ".." (replace_from ".." "" 0 s) = false
  /\ contains ".." (replace_from ".." "" 1 s) = false.
Proof.
  induction s as [|c s [IH0 IH1]]; [done|]. split; [|exact IH0].
  cbn [replace_from].
  destruct (startswith (String c s) "..") eqn:Hstart.
  { exact IH1. }
  rewrite contains_unfold, IH0, orb_false_r.
  destruct (replace_from ".." "" 0 s) as [|d r] eqn:Hr;
    cbn [startswith]; [apply andb_false_r|].
  destruct (Ascii.eqb "." c) eqn:Hc; [|done].
  destruct (Ascii.eqb "." d) eqn:Hd; [|done]. exfalso.
  destruct s as [|e s]; [done|].
  cbn [startswith] in Hstart. rewrite Hc in Hstart.
  cbn [replace_from] in Hr.
  destruct (startswith (String e s) "..") eqn:He.
  - cbn [startswith] in He. apply andb_true_iff in He as [He _].
    rewrite He in Hstart. by destruct s.
  - injection Hr as -> _. rewrite Hd in Hstart. by destruct s.
Qed.

(** X17.  The name under which [load_saved_content] looks for the saved
    content of a path holds no slash and no [..], whatever the path. *)
Theorem sanitized_name_stays_inside path :
  contains "/" (sanitized_name path) = false
  /\ contains ".." (sanitized_name path) = false.
Proof.
  unfold sanitized_name, replace. split; apply strip_keeps_absent.
  - apply replace_deletes_keeps_absent, replace_slash_absent.
  - apply replace_dots_absent.
Qed.

Lemma lower_upper_char c : lower_char (upper_char c) = lower_char c.
Proof. destruct c as [[] [] [] [] [] [] [] []]; reflexivity. Qed.

Lemma lower_lower_char c : lower_char (lower_char c) = lower_char c.
Proof. destruct c as [[] [] [] [] [] [] [] []]; reflexivity. Qed.

Lemma is_ascii_upper_char c :
  is_ascii_char c = true -> is_ascii_char (upper_char c) = true.
Proof. destruct c as [[] [] [] [] [] [] [] []]; by vm_compute. Qed.

Lemma is_ascii_lower_char c :
  is_ascii_char c = true -> is_ascii_char (lower_char c) = true.
Proof. destruct c as [[] [] [] [] [] [] [] []]; by vm_compute. Qed.

Lemma isascii_str_map f s :
  (forall c, is_ascii_char c = true -> is_ascii_char (f c) = true) ->
  isascii s = true -> isascii (str_map f s) = true.
Proof.
  intros Hf. induction s as [|c s IH]; [done|]. cbn [isascii str_map].
  rewrite !andb_true_iff. intros [Hc Hs]. split; [by apply Hf | by apply IH].
Qed.

Lemma lower_upper s : lower (upper s) = lower s.
Proof.
  induction s as [|c s IH]; [done|].
  change (String (lower_char (upper_char c)) (lower (upper s))
          = String (lower_char c) (lower s)).
  by rewrite lower_upper_char, IH.
Qed.

Lemma lower_lower s : lower (lower s) = lower s.
Proof.
  induction s as [|c s IH]; [done|].
  change (String (lower_char (lower_char c)) (lower (lower s))
          = String (lower_char c) (lower s)).
  by rewrite lower_lower_char, IH.
Qed.

(** X18.  On a path of ASCII characters [is_sensitive_path] does not look
    at the case of the letters: the path, its upper-case form and its
    lower-case form get the same answer. *)
Theorem is_sensitive_path_ignores_case path :
  isascii path = true ->
  exists sensitive,
    is_sensitive_path path = Some sensitive /\
    is_sensitive_path (upper path) = Some sensitive /\
    is_sensitive_path (lower path) = Some sensitive.
Proof.
  intros Hascii. unfold is_sensitive_path.
  rewrite Hascii.
  rewrite (isascii_str_map upper_char path is_ascii_upper_char Hascii
           : isascii (upper path) = true).
  rewrite (isascii_str_map lower_char path is_ascii_lower_char Hascii
           : isascii (lower path) = true).
  rewrite lower_upper, lower_lower. eauto.
Qed.

End DiscoveryMore.

Section DiscoveryMoreScenarios.
Import Py RequestManager ScannerEngine Scenarios.

Lemma discovery_swallows_exceptions_witness :
  (forall crawl e, intelligent_crawler failing_discovery = Some crawl ->
                   crawl "https://example.test" 10 = Raised e ->
                   is_Exception e = true) /\
  (forall e, load_common_paths failing_discovery = Raised e ->
             is_Exception e = true) /\
  exists final_paths g',
    advanced_discovery_phase failing_discovery "https://example.test" 0%nat
    = (Returned final_paths, g').
Proof.
  assert (Hcrawl : forall crawl e,
    intelligent_crawler failing_discovery = Some crawl ->
    crawl "https://example.test" 10 = Raised e -> is_Exception e = true).
  { intros crawl e [= <-] [= <-]. reflexivity. }
  assert (Hload : forall e,
    load_common_paths failing_discovery = Raised e -> is_Exception e = true).
  { intros e [= <-]. reflexivity. }
  split_and!; [exact Hcrawl | exact Hload |].
  exact (discovery_swallows_exceptions failing_discovery
           "https://example.test" 0%nat Hcrawl Hload).
Defined.

Lemma discovery_result_witness :
  exists final_paths g',
    advanced_discovery_phase failing_discovery "https://example.test" 0%nat
    = (Returned final_paths, g') /\
    NoDup final_paths /\
    ("/api" ∈ final_paths <->
     _is_suspicious_path "/api" = false /\
     ("/api" ∈ get_common_paths \/
      "/api" ∈ fst (generate_natural_variations get_common_paths 0%nat) \/
      "/api" ∈ crawled_paths failing_discovery "https://example.test" \/
      "/api" ∈ github_paths failing_discovery)).
Proof.
  destruct (advanced_discovery_phase failing_discovery "https://example.test"
                                     0%nat)
    as [[final_paths|e] g'] eqn:Hrun.
  - exists final_paths, g'. split; [done|].
    destruct (discovery_result failing_discovery "https://example.test"
                0%nat final_paths g' Hrun) as [Hnodup Hiff].
    split; [exact Hnodup | exact (Hiff "/api")].
  - exfalso. unfold advanced_discovery_phase in Hrun.
    destruct (generate_natural_variations get_common_paths 0%nat) as [n g1].
    discriminate Hrun.
Defined.

Lemma is_sensitive_path_ignores_case_witness :
  isascii "/Admin/Backup.KEY" = true /\
  is_sensitive_path "/Admin/Backup.KEY" = Some true /\
  is_sensitive_path (upper "/Admin/Backup.KEY") = Some true /\
  is_sensitive_path (lower "/Admin/Backup.KEY") = Some true.
Proof.
  split; [reflexivity|].
  destruct (is_sensitive_path_ignores_case "/Admin/Backup.KEY" eq_refl)
    as (sensitive & Hpath & Hupper & Hlower).
  assert (Hs : sensitive = true).
  { assert (H0 : is_sensitive_path "/Admin/Backup.KEY" = Some true)
      by reflexivity.
    rewrite Hpath in H0. by injection H0. }
  subst sensitive. done.
Defined.

Lemma suspicious_extension_witness :
  _is_suspicious_path "/.env" = true /\
  _is_suspicious_path ("/app" +:+ "/.env" +:+ "?v=1") = true.
Proof.
  split; [reflexivity|].
  apply (suspicious_extension "/app" "/.env" "?v=1"). reflexivity.
Defined.

End DiscoveryMoreScenarios.

(** ** More on the quantum fuzzer *)

Section FuzzerMore.
Import Py QuantumFuzzer Scenarios.

Lemma lower_char_of_alpha c :
  is_alpha c = true -> is_lower (lower_char c) = true.
Proof. destruct c as [[] [] [] [] [] [] [] []]; vm_compute; congruence. Qed.

Lemma str_filter_alpha_lower s :
  str_filter is_lower (lower (str_filter is_alpha s))
  = lower (str_filter is_alpha s).
Proof.
  induction s as [|c s IH]; [done|]. cbn [str_filter].
  destruct (is_alpha c) eqn:Hc; [|exact IH].
  change (lower (String c ?r)) with (String (lower_char c) (lower r)).
  cbn [str_filter]. rewrite (lower_char_of_alpha c Hc). by f_equal.
Qed.

Lemma len_lower s : len (lower s) = len s.
Proof.
  unfold len. f_equal. induction s as [|c s IH]; [done|].
  simpl. by f_equal.
Qed.

Lemma keyword_of_is_keyword part k : k ∈ keyword_of part -> is_keyword k.
Proof.
  unfold keyword_of.
  destruct (truthy part && (2 <? len part) && negb (isdigit part));
    [|by intros ?%elem_of_nil].
  destruct (2 <? len (str_filter is_alpha part)) eqn:Hlen;
    [|by intros ?%elem_of_nil].
  intros ->%list_elem_of_singleton. split.
  - rewrite len_lower. by apply Z.ltb_lt.
  - apply str_filter_alpha_lower.
Qed.

(** X19.  The keywords that [extract_keywords_from_string] draws from a
    text are distinct, and each of them is a word of three or more
    lower-case letters: digits and punctuation never reach the paths
    built from keywords. *)
Theorem keywords_are_words text :
  NoDup (extract_keywords_from_string text) /\
  forall k, k ∈ extract_keywords_from_string text -> is_keyword k.
Proof.
  unfold extract_keywords_from_string. split; [apply NoDup_elements|].
  intros k. rewrite elem_of_elements_list. intros Hk.
  apply list_elem_of_In, in_flat_map in Hk as (part & _ & Hk).
  by apply (keyword_of_is_keyword part), list_elem_of_In.
Qed.

Lemma keyword_paths_prefix keyword p :
  p ∈ generate_keyword_paths keyword -> startswith p "/" = true.
Proof.
  unfold generate_keyword_paths. cbv zeta. rewrite elem_of_elements_list.
  cbn [flat_map map app]. intros Hp.
  repeat (apply elem_of_cons in Hp as [-> | Hp];
          [apply startswith_slash; by eexists |]).
  by apply elem_of_nil in Hp.
Qed.

Lemma domain_based_paths_prefix keyword p :
  p ∈ generate_domain_based_paths keyword -> startswith p "/" = true.
Proof.
  unfold generate_domain_based_paths. rewrite elem_of_elements_list.
  intros Hp.
  repeat (apply elem_of_cons in Hp as [-> | Hp];
          [apply startswith_slash; by eexists |]).
  by apply elem_of_nil in Hp.
Qed.

Lemma comprehensive_natural_paths_prefix p :
  p ∈ generate_comprehensive_natural_paths -> startswith p "/" = true.
Proof.
  unfold generate_comprehensive_natural_paths. rewrite elem_of_elements_list.
  set (l := (_ ++ _)%list).
  assert (Hall : forallb (fun p => startswith p "/") l = true)
    by (vm_compute; reflexivity).
  intros Hp%list_elem_of_In. by apply (proj1 (forallb_forall _ _) Hall).
Qed.

Lemma slice_to_elem {A} (l : list A) n x : 0 <= n -> x ∈ slice_to l n -> x ∈ l.
Proof.
  intros Hn. unfold slice_to. rewrite (proj2 (Z.leb_le 0 n) Hn).
  apply subseteq_take.
Qed.

(** X20.  [smart_fuzzing] raises only what [urlparse] raises outside
    [Exception].  Otherwise it returns at most 200 paths, all distinct,
    and each of them starts with a slash, whatever the discovered paths
    and the host of the target are. *)
Theorem smart_fuzzing_result discovered_paths netloc :
  match smart_fuzzing discovered_paths netloc with
  | Returned final_paths =>
    NoDup final_paths /\
    (length final_paths <= 200)%nat /\
    forall p, p ∈ final_paths -> startswith p "/" = true
  | Raised e => netloc = Raised e /\ is_Exception e = false
  end.
Proof.
  unfold smart_fuzzing, extract_domain_keywords. cbv zeta.
  set (keyword_paths := flat_map generate_keyword_paths _).
  assert (Hkeyword : forall p, p ∈ keyword_paths -> startswith p "/" = true).
  { intros p (k & _ & Hp)%list_elem_of_In%in_flat_map.
    by apply (keyword_paths_prefix k), list_elem_of_In. }
  clearbody keyword_paths.
  assert (Hgoal : forall domain_keywords,
    let final_paths :=
      slice_to (elements (list_to_set keyword_paths
                          ∪ list_to_set (flat_map generate_domain_based_paths
                                                  domain_keywords)
                          ∪ list_to_set generate_comprehensive_natural_paths
                          : gset string)) 200 in
    NoDup final_paths /\
    (length final_paths <= 200)%nat /\
    forall p, p ∈ final_paths -> startswith p "/" = true).
  { intros domain_keywords final_paths. split_and!.
    - apply slice_to_NoDup, NoDup_elements.
    - pose proof (slice_to_length
        (elements (list_to_set keyword_paths
                   ∪ list_to_set (flat_map generate_domain_based_paths
                                           domain_keywords)
                   ∪ list_to_set generate_comprehensive_natural_paths
                   : gset string)) 200 ltac:(lia)) as Hlen.
      fold final_paths in Hlen. lia.
    - intros p Hp%slice_to_elem; [|lia].
      apply elem_of_elements in Hp.
      rewrite !elem_of_union, !elem_of_list_to_set in Hp.
      destruct Hp as [[Hp|Hp]|Hp].
      + by apply Hkeyword.
      + apply list_elem_of_In, in_flat_map in Hp as (k & _ & Hp).
        by apply (domain_based_paths_prefix k), list_elem_of_In.
      + by apply comprehensive_natural_paths_prefix. }
  destruct netloc as [domain|e].
  - apply Hgoal.
  - destruct (is_Exception e) eqn:He; [apply Hgoal | done].
Qed.

Lemma str_filter_length keep s :
  (String.length (str_filter keep s) <= String.length s)%nat.
Proof.
  induction s as [|c s IH]; simpl; [lia|]. destruct (keep c); simpl; lia.
Qed.

Lemma str_filter_id keep c s :
  str_filter keep (String c s) = String c s ->
  keep c = true /\ str_filter keep s = s.
Proof.
  cbn [str_filter]. destruct (keep c).
  - by intros [= ->].
  - intros Heq. pose proof (str_filter_length keep s) as Hlen.
    rewrite Heq in Hlen. simpl in Hlen. lia.
Qed.

Lemma quote_safe s : all_safe s = true -> quote s = s.
Proof.
  unfold all_safe. intros Hs%String.eqb_eq.
  induction s as [|c s IH]; [done|].
  apply str_filter_id in Hs as [Hc Hs].
  unfold quote. cbn [str_concat_map]. unfold quote_char. rewrite Hc.
  change (String c (str_concat_map quote_char s) = String c s).
  f_equal. by apply IH.
Qed.

(** X21.  A path in which only letters, digits, [_], [.], [-], [~] and
    [/] occur is its own URL encoding, so that [generate_all_encodings]
    draws no path from the methods [url] and [double_url] for it. *)
Theorem url_encoding_of_plain_path path :
  all_safe path = true ->
  apply_encoding path "url" = path /\
  apply_encoding path "double_url" = path /\
  encodings_of path "url" = [] /\
  encodings_of path "double_url" = [].
Proof.
  intros Hsafe.
  assert (Hurl : apply_encoding path "url" = path) by by apply quote_safe.
  assert (Hdouble : apply_encoding path "double_url" = path).
  { change (quote (quote path) = path). by rewrite !(quote_safe path Hsafe). }
  split_and!; [done | done | |].
  - unfold encodings_of. cbv zeta. rewrite Hurl, String.eqb_refl.
    cbn [negb]. by rewrite andb_false_r.
  - unfold encodings_of. cbv zeta. rewrite Hdouble, String.eqb_refl.
    cbn [negb]. by rewrite andb_false_r.
Qed.

Context {rng : Type} `{Random rng}.

(** X22.  The quantum states of a path are distinct; the path itself is
    one of them, and so is the path followed by each of the eight
    extensions, whatever the random choices. *)
Theorem quantum_states_keep_path path g :
  let states := fst (generate_quantum_states path g) in
  NoDup states /\
  path ∈ states /\
  forall ext,
    ext ∈ [".json"; ".js"; ".html"; ".xml"; ".txt"; ".bak"; ".old"; ".sql"] ->
    path +:+ ext ∈ states.
Proof.
  unfold generate_quantum_states. cbv zeta.
  destruct (generate_case_variations path g) as [case_variations g1].
  cbn [fst]. split_and!.
  - apply NoDup_elements.
  - apply elem_of_elements. rewrite !elem_of_union.
    do 2 left. destruct (looks_like_api path);
      rewrite ?elem_of_union; do 3 left; try left; by apply elem_of_singleton.
  - intros ext Hext. apply elem_of_elements. rewrite elem_of_union. left.
    rewrite elem_of_union. right.
    apply elem_of_list_to_set, elem_of_elements_list, list_elem_of_In.
    apply in_flat_map. exists ext. split; [by apply list_elem_of_In|].
    right. by left.
Qed.

End FuzzerMore.

Section FuzzerMoreScenarios.
Import Py QuantumFuzzer Scenarios.

Lemma url_encoding_of_plain_path_witness :
  all_safe "/api/v1/users.json" = true /\
  encodings_of "/api/v1/users.json" "url" = [].
Proof.
  split; [reflexivity|].
  apply (url_encoding_of_plain_path "/api/v1/users.json"). reflexivity.
Defined.

(** A path with a space has a URL encoding. *)
Example url_encoding_of_space :
  encodings_of "/my file" "url" = ["/my%20file"; "/my%2520file"].
Proof. reflexivity. Qed.

(** The port of the target becomes part of a domain keyword. *)
Example domain_keywords_port :
  extract_domain_keywords (Returned "www.example.com:8080")
  = Returned ["example"; "com:8080"]
  \/ extract_domain_keywords (Returned "www.example.com:8080")
     = Returned ["com:8080"; "example"].
Proof. vm_compute. tauto. Qed.

End FuzzerMoreScenarios.

(** ** More on the configuration *)

Section ConfigurationMore.
Import Py ConfigLoader.

Lemma dict_get_set_eq key v d : dict_get key (dict_set key v d) = Some v.
Proof.
  induction d as [|[k w] d IH]; simpl.
  - by rewrite String.eqb_refl.
  - destruct (String.eqb k key) eqn:Hk; simpl; by rewrite Hk.
Qed.

Lemma dict_get_set_ne key k v d :
  k <> key -> dict_get key (dict_set k v d) = dict_get key d.
Proof.
  intros Hne. apply String.eqb_neq in Hne.
  induction d as [|[k' w] d IH]; simpl.
  - by rewrite Hne.
  - destruct (String.eqb k' k) eqn:Hk; simpl.
    + apply String.eqb_eq in Hk as ->. by rewrite Hne.
    + by rewrite IH.
Qed.

Lemma dict_set_keys key v d :
  exists rest, map fst (dict_set key v d) = (map fst d ++ rest)%list.
Proof.
  induction d as [|[k w] d [rest IH]]; simpl.
  - by exists [key].
  - destruct (String.eqb k key); simpl.
    + exists []. by rewrite app_nil_r.
    + exists rest. by rewrite IH.
Qed.

Lemma dict_get_absent key (d : dict) :
  key ∉ map fst d -> dict_get key d = None.
Proof.
  induction d as [|[k w] d IH]; simpl; [done|].
  intros Hkey. destruct (String.eqb k key) eqn:Hk.
  - apply String.eqb_eq in Hk as ->. exfalso. apply Hkey. by left.
  - apply IH. intros ?. apply Hkey. by right.
Qed.

(** One turn of the loop of [_deep_merge] stores a value under the key
    of the item. *)
Lemma _deep_merge_step base key value update :
  exists w,
    _deep_merge base ((key, value) :: update)
    = _deep_merge (dict_set key w base) update /\
    w = match dict_get key base, value with
        | Some (VDict b), VDict u => VDict (_deep_merge b u)
        | _, _ => value
        end.
Proof.
  rewrite _deep_merge_cons.
  destruct (dict_get key base) as [[]|], value; eauto.
Qed.

Lemma dict_get_deep_merge base update key :
  NoDup (map fst update) ->
  dict_get key (_deep_merge base update)
  = match dict_get key update with
    | None => dict_get key base
    | Some value =>
      match dict_get key base, value with
      | Some (VDict b), VDict u => Some (VDict (_deep_merge b u))
      | _, _ => Some value
      end
    end.
Proof.
  revert base. induction update as [|[k v] update IH]; intros base Hdup.
  { by rewrite _deep_merge_nil. }
  cbn [map fst] in Hdup. apply NoDup_cons in Hdup as [Hk Hdup].
  destruct (_deep_merge_step base k v update) as (w & -> & Hw).
  rewrite (IH _ Hdup). cbn [dict_get].
  destruct (String.eqb k key) eqn:Hkey.
  - apply String.eqb_eq in Hkey as ->.
    rewrite (dict_get_absent _ _ Hk), dict_get_set_eq, Hw.
    by destruct (dict_get key base) as [[]|], v.
  - apply String.eqb_neq in Hkey. by rewrite (dict_get_set_ne _ _ _ _ Hkey).
Qed.

Lemma deep_merge_keys base update :
  exists rest,
    map fst (_deep_merge base update) = (map fst base ++ rest)%list.
Proof.
  revert base. induction update as [|[k v] update IH]; intros base.
  { exists []. by rewrite _deep_merge_nil, app_nil_r. }
  destruct (_deep_merge_step base k v update) as (w & -> & _).
  destruct (IH (dict_set k w base)) as [rest2 ->].
  destruct (dict_set_keys k w base) as [rest1 ->].
  exists (rest1 ++ rest2)%list. by rewrite app_assoc.
Qed.

Lemma dict_get_present key (d : dict) :
  key ∈ map fst d <-> exists w, dict_get key d = Some w.
Proof.
  induction d as [|[k w] d IH]; simpl.
  - split; [by intros ?%elem_of_nil | by intros [? ?]].
  - rewrite elem_of_cons. destruct (String.eqb k key) eqn:Hk.
    + apply String.eqb_eq in Hk as ->. split; eauto.
    + apply String.eqb_neq in Hk. rewrite IH. split; [|by right].
      intros [?|?]; [congruence | done].
Qed.

Lemma deep_merge_keeps_key base update key w :
  dict_get key base = Some w ->
  exists w', dict_get key (_deep_merge base update) = Some w'.
Proof.
  intros Hget. apply dict_get_present.
  destruct (deep_merge_keys base update) as [rest ->].
  apply elem_of_app. left. apply dict_get_present. eauto.
Qed.

(** X23.  What [_deep_merge] leaves under a key, for an update with
    distinct keys: the value of the base when the update has no such key;
    the merge of the two values when both are dictionaries; else the
    value of the update. *)
Theorem deep_merge_lookup base update key :
  NoDup (map fst update) ->
  dict_get key (_deep_merge base update)
  = match dict_get key update with
    | None => dict_get key base
    | Some value =>
      match dict_get key base, value with
      | Some (VDict b), VDict u => Some (VDict (_deep_merge b u))
      | _, _ => Some value
      end
    end.
Proof. apply dict_get_deep_merge. Qed.

(** X24.  [_deep_merge] removes no key and keeps the keys of the base in
    their order: the keys of the result are those of the base, followed
    by the new keys of the update. *)
Theorem deep_merge_keeps_keys base update :
  exists added,
    map fst (_deep_merge base update) = (map fst base ++ added)%list /\
    forall key, key ∈ added -> key ∈ map fst update.
Proof.
  revert base. induction update as [|[k v] update IH]; intros base.
  { exists []. rewrite _deep_merge_nil, app_nil_r. split; [done|].
    by intros key ?%elem_of_nil. }
  destruct (_deep_merge_step base k v update) as (w & -> & _).
  destruct (IH (dict_set k w base)) as (rest2 & -> & Hrest2).
  assert (Hset : exists rest1,
    map fst (dict_set k w base) = (map fst base ++ rest1)%list /\
    forall key, key ∈ rest1 -> key = k).
  { clear. induction base as [|[k' w'] base (rest & IH & Hrest)]; simpl.
    - exists [k]. split; [done|]. by intros key ->%list_elem_of_singleton.
    - destruct (String.eqb k' k); simpl.
      + exists []. rewrite app_nil_r. split; [done|].
        by intros key ?%elem_of_nil.
      + exists rest. by rewrite IH. }
  destruct Hset as (rest1 & -> & Hrest1).
  exists (rest1 ++ rest2)%list. rewrite app_assoc. split; [done|].
  intros key [Hkey|Hkey]%elem_of_app; cbn [map fst]; apply elem_of_cons.
  - left. by apply Hrest1.
  - right. by apply Hrest2.
Qed.

Lemma read_items_raises config items section key v :
  (section, key) ∈ items ->
  dict_get section config = Some v -> is_dict v = false ->
  exists e, read_items (VDict config) items = Raised e.
Proof.
  intros Hin Hget Hv.
  induction items as [|[s k] items IH]; [by apply elem_of_nil in Hin|].
  cbn [read_items].
  destruct (subscript (VDict config) s) as [sec|e] eqn:Hs; [|eauto].
  destruct (subscript sec k) as [w|e] eqn:Hk; [|eauto].
  apply elem_of_cons in Hin as [[= <- <-]|Hin]; [|by apply IH].
  simpl in Hs. rewrite Hget in Hs. injection Hs as <-.
  by destruct v.
Qed.

Lemma read_items_ok config items :
  (forall section key, (section, key) ∈ items ->
     exists s w, dict_get section config = Some (VDict s)
                 /\ dict_get key s = Some w) ->
  read_items (VDict config) items = Returned tt.
Proof.
  induction items as [|[s k] items IH]; intros Hall; [done|].
  cbn [read_items].
  destruct (Hall s k) as (sec & w & Hs & Hk); [by left|].
  simpl. rewrite Hs. simpl. rewrite Hk. apply IH. intros section key Hin.
  apply Hall. by right.
Qed.

Lemma summary_sections_items section :
  section ∈ summary_sections -> exists key, (section, key) ∈ summary_items.
Proof.
  unfold summary_sections. intros Hs.
  apply elem_of_cons in Hs as [->|Hs]; [exists "max_workers"|].
  2: apply elem_of_cons in Hs as [->|Hs]; [exists "stealth_mode"|].
  3: apply elem_of_cons in Hs as [->|Hs]; [exists "enable_ml"|].
  4: apply elem_of_cons in Hs as [->|Hs]; [exists "organized_saving"|].
  5: by apply elem_of_nil in Hs.
  all: apply (bool_decide_unpack _); vm_compute; exact I.
Qed.

Lemma summary_items_default section key :
  (section, key) ∈ summary_items ->
  section ∈ summary_sections /\
  exists b w, dict_get section DEFAULT_CONFIG = Some (VDict b)
              /\ dict_get key b = Some w.
Proof.
  unfold summary_items. intros Hs.
  repeat (apply elem_of_cons in Hs as [[= -> ->]|Hs];
          [split; [apply (bool_decide_unpack _); vm_compute; exact I
                  | by eexists _, _]|]).
  by apply elem_of_nil in Hs.
Qed.

Lemma user_config_dict update :
  (if truth (VDict update) then VDict update else VDict []) = VDict update.
Proof. by destruct update. Qed.

(** X25.  When the file puts anything but a dictionary in the place of
    one of the sections [scanning], [evasion], [intelligence] or
    [output], [load_config] returns the default configuration: every
    other setting of the file is lost with it. *)
Theorem scalar_section_discards_file update section v :
  NoDup (map fst update) ->
  section ∈ summary_sections ->
  dict_get section update = Some v ->
  is_dict v = false ->
  fst (load_config (Parsed (VDict update))) = Returned (VDict DEFAULT_CONFIG).
Proof.
  intros Hdup Hsection Hget Hv. unfold load_config.
  rewrite user_config_dict.
  destruct (summary_sections_items section Hsection) as [key Hkey].
  assert (Hmerged : dict_get section (_deep_merge DEFAULT_CONFIG update)
                    = Some v).
  { rewrite (dict_get_deep_merge _ _ _ Hdup), Hget.
    destruct (dict_get section DEFAULT_CONFIG) as [[]|]; try done.
    by destruct v. }
  destruct (read_items_raises _ _ _ _ _ Hkey Hmerged Hv) as [e He].
  unfold _print_config_summary. rewrite He.
  by rewrite (read_items_exception _ _ _ He).
Qed.

(** X26.  When the file is a dictionary in which each of the sections
    [scanning], [evasion], [intelligence] and [output], where it occurs,
    is a dictionary, [load_config] returns the merge of the defaults and
    the file, whatever validation finds: a value out of its range is
    reported and kept. *)
Theorem load_config_returns_merge update :
  NoDup (map fst update) ->
  (forall section v, section ∈ summary_sections ->
     dict_get section update = Some v -> is_dict v = true) ->
  load_config (Parsed (VDict update))
  = (Returned (VDict (_deep_merge DEFAULT_CONFIG update)),
     _validate_config (VDict (_deep_merge DEFAULT_CONFIG update))).
Proof.
  intros Hdup Hsections. unfold load_config.
  rewrite user_config_dict. unfold _print_config_summary.
  rewrite read_items_ok; [done|].
  intros section key (Hsection & b & w & Hb & Hw)%summary_items_default.
  rewrite (dict_get_deep_merge _ _ _ Hdup), Hb.
  destruct (dict_get section update) as [v|] eqn:Hget; [|eauto].
  specialize (Hsections section v Hsection Hget).
  destruct v as [| | | | | |u]; try done.
  destruct (deep_merge_keeps_key b u key w Hw) as [w' Hw']. eauto.
Qed.

Lemma split_no_separator c s :
  contains (String c "") s = false -> split s c = [s].
Proof.
  unfold split. induction s as [|d s IH]; [done|].
  rewrite contains_char_cons, orb_false_iff. intros [Hd Hs].
  cbn [split_on]. rewrite Hd, (IH Hs). done.
Qed.

Lemma split_at_separator c a b :
  contains (String c "") a = false ->
  split (a +:+ String c b) c = a :: split b c.
Proof.
  unfold split. induction a as [|d a IH].
  - intros _. change ("" +:+ String c b) with (String c b).
    cbn [split_on]. by rewrite Ascii.eqb_refl.
  - rewrite contains_char_cons, orb_false_iff. intros [Hd Ha].
    change (String d a +:+ String c b) with (String d (a +:+ String c b)).
    cbn [split_on]. rewrite Hd, (IH Ha). done.
Qed.

(** X27.  A value written with [update_config] under a key of a section
    is what [get_config_value] reads back under [section.key], when
    neither name holds a dot and the value is neither [None] nor a
    dictionary; the default given to [get_config_value] is not used. *)
Theorem update_then_get config section key v default :
  contains "." section = false ->
  contains "." key = false ->
  is_dict v = false ->
  v <> VNone ->
  get_config_value
    (VDict (update_config config [(section, VDict [(key, v)])]))
    (section +:+ "." +:+ key) default
  = v.
Proof.
  intros Hsection Hkey Hdict Hnone.
  unfold get_config_value, _get_nested_value, update_config.
  change ("." +:+ key) with (String "." key).
  rewrite (split_at_separator _ _ _ Hsection), (split_no_separator _ _ Hkey).
  cbn [get_path].
  destruct (_deep_merge_step config section (VDict [(key, v)]) [])
    as (w & -> & Hw).
  rewrite _deep_merge_nil, dict_get_set_eq.
  assert (Hw' : exists s, w = VDict s /\ dict_get key s = Some v).
  { destruct (dict_get section config) as [[| | | | | |b]|];
      try (exists [(key, v)]; split; [done|]; simpl;
           by rewrite String.eqb_refl).
    destruct (_deep_merge_step b key v []) as (w' & Hmerge & Hw').
    rewrite _deep_merge_nil in Hmerge.
    exists (dict_set key w' b). split; [by rewrite Hw, Hmerge|].
    rewrite dict_get_set_eq. f_equal. rewrite Hw'.
    destruct (dict_get key b) as [[]|]; try done; by destruct v. }
  destruct Hw' as (s & -> & ->). by destruct v.
Qed.

End ConfigurationMore.

Section ConfigurationMoreScenarios.
Import Py ConfigLoader.

Lemma deep_merge_lookup_witness :
  let update := [("scanning", VDict [("timeout", VInt 30)]);
                 ("proxy", VStr "socks5://127.0.0.1:9050")] in
  NoDup (map fst update) /\
  dict_get "proxy" (_deep_merge DEFAULT_CONFIG update)
  = Some (VStr "socks5://127.0.0.1:9050").
Proof.
  intros update.
  assert (Hdup : NoDup (map fst update)).
  { apply (bool_decide_unpack _). vm_compute. exact I. }
  split; [exact Hdup|].
  exact (deep_merge_lookup DEFAULT_CONFIG update "proxy" Hdup).
Defined.

Lemma scalar_section_discards_file_witness :
  let update := [("scanning", VDict [("timeout", VInt 30)]);
                 ("output", VStr "reports")] in
  NoDup (map fst update) /\
  "output" ∈ summary_sections /\
  dict_get "output" update = Some (VStr "reports") /\
  is_dict (VStr "reports") = false /\
  fst (load_config (Parsed (VDict update))) = Returned (VDict DEFAULT_CONFIG).
Proof.
  intros update.
  assert (Hdup : NoDup (map fst update)).
  { apply (bool_decide_unpack _). vm_compute. exact I. }
  assert (Hsection : "output" ∈ summary_sections).
  { apply (bool_decide_unpack _). vm_compute. exact I. }
  split_and!; [exact Hdup | exact Hsection | reflexivity | reflexivity |].
  exact (scalar_section_discards_file update "output" (VStr "reports")
           Hdup Hsection eq_refl eq_refl).
Defined.

Lemma load_config_returns_merge_witness :
  let update := [("scanning", VDict [("max_workers", VInt 100)]);
                 ("proxy", VStr "socks5://127.0.0.1:9050")] in
  NoDup (map fst update) /\
  load_config (Parsed (VDict update))
  = (Returned (VDict (_deep_merge DEFAULT_CONFIG update)),
     _validate_config (VDict (_deep_merge DEFAULT_CONFIG update))).
Proof.
  intros update.
  assert (Hdup : NoDup (map fst update)).
  { apply (bool_decide_unpack _). vm_compute. exact I. }
  split; [exact Hdup|].
  apply (load_config_returns_merge update Hdup).
  intros section v Hsection.
  repeat (apply elem_of_cons in Hsection as [->|Hsection];
          [by intros [= <-]|]).
  by apply elem_of_nil in Hsection.
Defined.

Lemma update_then_get_witness :
  contains "." "scanning" = false /\
  contains "." "timeout" = false /\
  get_config_value
    (VDict (update_config DEFAULT_CONFIG
              [("scanning", VDict [("timeout", VInt 30)])]))
    ("scanning" +:+ "." +:+ "timeout") (VInt 15)
  = VInt 30.
Proof.
  split_and!; [reflexivity | reflexivity |].
  by apply (update_then_get DEFAULT_CONFIG "scanning" "timeout" (VInt 30)
              (VInt 15)).
Defined.

(** A value of [None] written under a key reads back as the default. *)
Example update_none_reads_default :
  get_config_value
    (VDict (update_config DEFAULT_CONFIG
              [("scanning", VDict [("timeout", VNone)])]))
    "scanning.timeout" (VInt 15)
  = VInt 15.
Proof. reflexivity. Qed.

End ConfigurationMoreScenarios.
